(** * tumcsbot: the event dispatcher, the plugin start-up and the course plugin

    A shallow embedding of
    - [src/tumcsbot/tumcsbot.py]: [TumCSBot.zulip_event_preprocess],
      [TumCSBot.run] and [TumCSBot.startPlugins];
    - [src/tumcsbot/plugins/course.py]: the mapped class [CourseDB],
      [Course.create_empty], [Course.create],
      [Course.add_standard_streams], [Course._get_streamgroup],
      [Course._get_tutorgroup] and [Course._update_streamgroup];
    - [src/tumcsbot/lib.py]: [Response.build_message] and the two
      message constructors.

    Python values are a small JSON-like universe, exceptions are an error
    type, and the effects of the code (the logging module, the bot's
    fields, the database session) are threaded through a state-and-error
    monad. *)

From Stdlib Require Import ZArith NArith Ascii.
From stdpp Require Import base gmap strings list fin_maps.

Set Warnings "-register-all".
Set Default Proof Using "Type".

Open Scope Z_scope.

(** ** Python values *)

(** A Python [str] is a sequence of Unicode code points. *)
Abbreviation pystr := (list N).

(** The code points of an ASCII literal. *)
Definition str (s : string) : pystr :=
  (λ a, N_of_ascii a) <$> String.list_ascii_of_string s.

(** The values an event of the Zulip client is made of (decoded JSON). *)
Inductive value :=
| VNone
| VBool (b : bool)
| VInt (z : Z)
| VStr (s : pystr)
| VList (l : list value)
| VDict (d : gmap string value).

Abbreviation dict := (gmap string value).

(** ** Exceptions and results *)

Inductive exn :=
| KeyError (key : string)
| TypeError
| AttributeError
| ValueError (msg : pystr)
| CycleError
| DMError (msg : pystr)
| NoResultFound
| MultipleResultsFound
| IntegrityError
(** [sqlalchemy.exc.ArgumentError] *)
| ArgumentError
(** a [sqlalchemy.exc.StatementError] that is no [IntegrityError] *)
| StatementError
| UnboundLocalError.

Inductive result (A : Type) :=
| Ok (a : A)
| Raise (e : exn).
Arguments Ok {A} a.
Arguments Raise {A} e.

(** Computations that read and write a state [S] and may raise: the
    state survives an exception, as a Python object does. *)
Definition M (S A : Type) : Type := S → result A * S.

Definition ret {S A} (a : A) : M S A := λ s, (Ok a, s).
Definition bind {S A B} (m : M S A) (f : A → M S B) : M S B := λ s,
  match m s with
  | (Ok a, s') => f a s'
  | (Raise e, s') => (Raise e, s')
  end.

Notation "'let*' x ':=' m 'in' k" := (bind m (λ x, k))
  (at level 10, x pattern, m at level 100, k at level 200,
   format "'[v' 'let*'  x  ':='  m  'in' '/' k ']'").

Definition raise {S A} (e : exn) : M S A := λ s, (Raise e, s).
Definition lift {S A} (r : result A) : M S A := λ s, (r, s).
Definition get {S} : M S S := λ s, (Ok s, s).
Definition put {S} (s : S) : M S unit := λ _, (Ok tt, s).

(** [try: m except Exception as exc: h exc] *)
Definition try_except {S A} (m : M S A) (h : exn → M S A) : M S A := λ s,
  match m s with
  | (Ok a, s') => (Ok a, s')
  | (Raise e, s') => h e s'
  end.

(** Python's short-circuit [or] and [and] on computations of booleans. *)
Definition or_ {S} (a b : M S bool) : M S bool :=
  let* x := a in if x then ret true else b.
Definition and_ {S} (a b : M S bool) : M S bool :=
  let* x := a in if x then b else ret false.
Definition not_ {S} (a : M S bool) : M S bool :=
  let* x := a in ret (negb x).

Infix "`or`" := or_ (at level 75, right associativity).
Infix "`and`" := and_ (at level 70, right associativity).

(** ** The operations of Python the code uses *)

(** [v[k]] for a string key [k]. *)
Definition getitem (v : value) (k : string) : result value :=
  match v with
  | VDict d =>
      match d !! k with
      | Some x => Ok x
      | None => Raise (KeyError k)
      end
  | _ => Raise TypeError
  end.

(** [d[k]] on a dict. *)
Definition dict_getitem (d : dict) (k : string) : result value :=
  getitem (VDict d) k.

(** [v == s] for a str [s]. *)
Definition eq_str (v : value) (s : pystr) : bool :=
  match v with
  | VStr s' => bool_decide (s' = s)
  | _ => false
  end.

(** [v == n] for an int [n]; [True == 1] and [False == 0] in Python. *)
Definition eq_int (v : value) (n : Z) : bool :=
  match v with
  | VInt z => bool_decide (z = n)
  | VBool b => bool_decide ((if b then 1 else 0) = n)
  | _ => false
  end.

Fixpoint startswith_str (s prefix : pystr) : bool :=
  match prefix, s with
  | [], _ => true
  | p :: prefix', c :: s' => bool_decide (c = p) && startswith_str s' prefix'
  | _ :: _, [] => false
  end.

(** [v.startswith(prefix)]: only a str has the method. *)
Definition startswith (v : value) (prefix : pystr) : result bool :=
  match v with
  | VStr s => Ok (startswith_str s prefix)
  | _ => Raise AttributeError
  end.

(** [v[n:]] for [n >= 0]. *)
Definition slice_from (v : value) (n : nat) : result value :=
  match v with
  | VStr s => Ok (VStr (drop n s))
  | VList l => Ok (VList (drop n l))
  | _ => Raise TypeError
  end.

(** [str.isspace] on one code point, as [str.split] without a separator
    tests it: the ASCII white space and separators, and the Unicode
    white space. *)
Definition isspace (c : N) : bool :=
  ((9 <=? c) && (c <=? 13) || (28 <=? c) && (c <=? 32)
   || (c =? 133) || (c =? 160) || (c =? 5760)
   || (8192 <=? c) && (c <=? 8202)
   || (c =? 8232) || (c =? 8233) || (c =? 8239) || (c =? 8287)
   || (c =? 12288))%N.

Fixpoint skip_space (s : pystr) : pystr :=
  match s with
  | c :: s' => if isspace c then skip_space s' else s
  | [] => []
  end.

(** The longest prefix without white space, and what follows it. *)
Fixpoint scan_word (s : pystr) : pystr * pystr :=
  match s with
  | c :: s' =>
      if isspace c then ([], s)
      else let '(w, r) := scan_word s' in (c :: w, r)
  | [] => ([], [])
  end.

(** [s.split(maxsplit=maxcount)] without a separator: at most [maxcount]
    words are cut off; what is left, without its leading white space, is
    the last element. *)
Fixpoint split_whitespace (maxcount : nat) (s : pystr) : list pystr :=
  match skip_space s with
  | [] => []
  | r =>
      match maxcount with
      | O => [r]
      | S k => let '(w, r') := scan_word r in w :: split_whitespace k r'
      end
  end.

(** [v.split(maxsplit=maxcount)] *)
Definition split (v : value) (maxcount : nat) : result (list pystr) :=
  match v with
  | VStr s => Ok (split_whitespace maxcount s)
  | _ => Raise AttributeError
  end.

(** [d.update(command_name=a, command=b)] *)
Definition update2 (d : dict) (k1 : string) (v1 : value)
    (k2 : string) (v2 : value) : dict :=
  <[k2 := v2]> (<[k1 := v1]> d).

(** ** The logging module *)

Module logging.

Definition DEBUG : Z := 10.
Definition WARNING : Z := 30.
Definition ERROR : Z := 40.

(** What the calls of the dispatcher log. *)
Inductive message :=
| received_command_line (cmd : list pystr)
| start_plugin (plugin_name : string)
| waiting_for_event
| received_event
| push_event_to_plugin (plugin_name : string)
| exception_traceback (exc : exn).

Record record := { levelno : Z; msg : message }.

(** The root logger, as [logging.basicConfig] sets it up: a level and
    the records written to the stream so far. *)
Record t := { level : Z; stream : list record }.

Definition log (lvl : Z) (m : message) : M t unit := λ lg,
  (Ok tt,
   if bool_decide (level lg ≤ lvl)
   then {| level := level lg;
           stream := stream lg ++ [{| levelno := lvl; msg := m |}] |}
   else lg).

Definition debug (m : message) : M t unit := log DEBUG m.

(** [logging.exception(exc)] logs with level ERROR. *)
Definition exception (exc : exn) : M t unit :=
  log ERROR (exception_traceback exc).

End logging.

(** ** The Zulip client of the bot *)

(** [AsyncClient] (tumcsbot/client.py) is not part of the sources at
    hand: the attributes and the method [zulip_event_preprocess] uses
    are the fields of this record. *)
Module client.
Record t := {
  id : Z;
  ping : pystr;
  ping_len : nat;
  is_only_pm_recipient : value → result bool;
}.
End client.

(** ** [TumCSBot.zulip_event_preprocess] *)

Section preprocess.
Context (self_client : client.t).

Abbreviation R := (M logging.t).

Definition zulip_event_preprocess (event : dict) : R dict :=
  let* ty := lift (dict_getitem event "type") in
  let* startswithping :=
    (if eq_str ty (str "message") then
       let* m := lift (dict_getitem event "message") in
       let* ct := lift (getitem m "content") in
       lift (startswith ct (client.ping self_client))
     else ret false) in
  let* skip :=
    ((let* ty := lift (dict_getitem event "type") in
      ret (negb (eq_str ty (str "message"))))
     `or`
     (let* m := lift (dict_getitem event "message") in
      let* sender := lift (getitem m "sender_id") in
      ret (eq_int sender (client.id self_client)))
     `or`
     ((let* m := lift (dict_getitem event "message") in
       let* mt := lift (getitem m "type") in
       ret (negb (eq_str mt (str "private"))))
      `and` ret (negb startswithping))
     `or`
     ((let* m := lift (dict_getitem event "message") in
       let* mt := lift (getitem m "type") in
       ret (eq_str mt (str "private")))
      `and`
      (ret startswithping
       `or`
       not_ (let* m := lift (dict_getitem event "message") in
             lift (client.is_only_pm_recipient self_client m))))) in
  if (skip : bool) then ret event
  else
    let* message := lift (dict_getitem event "message") in
    let* content :=
      (if (startswithping : bool) then
         let* ct := lift (getitem message "content") in
         lift (slice_from ct (client.ping_len self_client))
       else lift (getitem message "content")) in
    let* cmd := lift (split content 1) in
    let* _ := logging.debug (logging.received_command_line cmd) in
    let* m := lift (dict_getitem event "message") in
    match m with
    | VDict md =>
        ret (<["message" :=
                VDict (update2 md
                  "command_name"
                  (VStr (if bool_decide (0 < length cmd)%nat
                         then nth 0 cmd [] else []))
                  "command"
                  (VStr (if bool_decide (1 < length cmd)%nat
                         then nth 1 cmd [] else [])))]> event)
    | _ => raise AttributeError
    end.

End preprocess.

(** ** The command line, in the words of the specification *)

Fixpoint take_while {A} (p : A → bool) (l : list A) : list A :=
  match l with
  | x :: l' => if p x then x :: take_while p l' else []
  | [] => []
  end.

Fixpoint drop_while {A} (p : A → bool) (l : list A) : list A :=
  match l with
  | x :: l' => if p x then drop_while p l' else l
  | [] => []
  end.

Definition nonspace (c : N) : bool := negb (isspace c).

(** The first white-space-delimited token of a command line (empty when
    there is none). *)
Definition first_token (s : pystr) : pystr :=
  take_while nonspace (drop_while isspace s).

(** What follows the first token and the white space that ends it. *)
Definition remainder (s : pystr) : pystr :=
  drop_while isspace (drop_while nonspace (drop_while isspace s)).

(** The event with the two command fields attached to its message. *)
Definition with_command (event md : dict) (name args : pystr) : dict :=
  <["message" :=
    VDict (<["command" := VStr args]> (<["command_name" := VStr name]> md))]>
  event.

(** A message event that carries the fields the preprocessing reads. *)
Record message_event (event md : dict)
    (content : pystr) (sender : Z) (mtype : pystr) : Prop := {
  event_type : event !! "type" = Some (VStr (str "message"));
  event_message : event !! "message" = Some (VDict md);
  message_content : md !! "content" = Some (VStr content);
  message_sender_id : md !! "sender_id" = Some (VInt sender);
  message_type : md !! "type" = Some (VStr mtype);
}.



(** What the command branch of the preprocessing returns for the command
    line [line], on the logger [lg]. *)
Definition command_result (event md : dict) (line : pystr) (lg : logging.t)
    : result dict * logging.t :=
  (Ok (with_command event md (first_token line) (remainder line)),
   snd (logging.debug
          (logging.received_command_line (split_whitespace 1 line)) lg)).

(** The message qualifies as a command, and [line] is its command line:
    a message outside the private conversations that starts with the
    mention, whose line is what follows the mention; or a private message
    to the bot alone that does not start with the mention, whose line is
    the whole content. *)
Definition command_line (c : client.t) (md : dict)
    (content : pystr) (sender : Z) (mtype : pystr) (line : pystr) : Prop :=
  sender ≠ client.id c ∧
  ((mtype ≠ str "private" ∧
    startswith_str content (client.ping c) = true ∧
    line = drop (client.ping_len c) content)
   ∨
   (mtype = str "private" ∧
    startswith_str content (client.ping c) = false ∧
    client.is_only_pm_recipient c (VDict md) = Ok true ∧
    line = content)).

(** [zulip_event_preprocess], applied to its own result. *)
Definition preprocess_twice (c : client.t) (event : dict)
    : M logging.t dict :=
  let* event' := zulip_event_preprocess c event in
  zulip_event_preprocess c event'.

(** The three ways [zulip_event_preprocess] ends: with an exception, with
    the event as it was, or with the command fields of a line attached. *)
Definition shape (event : dict) (r : result (option (dict * pystr)))
    (lg : logging.t) : result dict * logging.t :=
  match r with
  | Raise e => (Raise e, lg)
  | Ok None => (Ok event, lg)
  | Ok (Some (md, line)) => command_result event md line lg
  end.

(** ** Events, plugins and the tasks of the dispatcher *)

(** [tumcsbot/plugin.py] is not part of the sources at hand: of [Event],
    [EventType] and [Plugin] the dispatcher uses what is declared here. *)
Module EventType.
Inductive t :=
| ZULIP
| _EMPTY
| other (name : string).

(** [a == b] on the members of the enumeration. *)
Definition eqb (a b : t) : bool :=
  match a, b with
  | ZULIP, ZULIP => true
  | _EMPTY, _EMPTY => true
  | other x, other y => bool_decide (x = y)
  | _, _ => false
  end.
End EventType.

Module Event.
Record t := {
  sender : string;
  type : EventType.t;
  data : value;
}.

Definition set_data (event : t) (d : value) : t :=
  {| sender := sender event; type := type event; data := d |}.
End Event.

Module Plugin.
Record t := {
  class_name : string;
  plugin_name : string;
  is_responsible : Event.t → bool;
}.
End Plugin.

(** [asyncio.create_task(plugin.handle_event(event))]: the handler of
    which plugin was scheduled, and for which event. *)
Record Task := {
  task_plugin : string;
  task_event : Event.t;
}.

(** What the main loop of [run] reads and writes: the two flags of the
    bot, the local list [tasks], the logger, and every call of
    [create_task] made so far. *)
Record RunState := {
  stopped : bool;
  restart : bool;
  tasks : list Task;
  created : list Task;
  log : logging.t;
}.

Definition set_stopped (b : bool) : M RunState unit := λ st,
  (Ok tt, {| stopped := b; restart := restart st; tasks := tasks st;
             created := created st; log := log st |}).

Definition set_restart (b : bool) : M RunState unit := λ st,
  (Ok tt, {| stopped := stopped st; restart := b; tasks := tasks st;
             created := created st; log := log st |}).

Definition set_tasks (ts : list Task) : M RunState unit := λ st,
  (Ok tt, {| stopped := stopped st; restart := restart st; tasks := ts;
             created := created st; log := log st |}).

(** [tasks.append(asyncio.create_task(t))] *)
Definition create_task (t : Task) : M RunState unit := λ st,
  (Ok tt, {| stopped := stopped st; restart := restart st;
             tasks := tasks st ++ [t];
             created := created st ++ [t]; log := log st |}).

(** A computation on the logger, run on the logger of the state. *)
Definition with_log {A} (m : M logging.t A) : M RunState A := λ st,
  let '(r, lg) := m (log st) in
  (r, {| stopped := stopped st; restart := restart st; tasks := tasks st;
         created := created st; log := lg |}).

Inductive control := Continue | Break.

Section run.
Context (self_client : client.t).
(** [self.plugins], a dict, in the order of its insertions. *)
Context (self_plugins : list (string * Plugin.t)).

(** [self.zulip_event_preprocess(event.data)] *)
Definition preprocess_data (d : value) : M logging.t value :=
  match d with
  | VDict event =>
      let* event' := zulip_event_preprocess self_client event in
      ret (VDict event')
  | _ => raise TypeError
  end.

(** [for plugin in self.plugins.values(): ...] *)
Fixpoint fan_out (plugins : list (string * Plugin.t)) (event : Event.t)
    : M RunState unit :=
  match plugins with
  | [] => ret tt
  | (_, plugin) :: plugins' =>
      let* _ :=
        (if Plugin.is_responsible plugin event then
           let* _ := with_log (logging.debug
             (logging.push_event_to_plugin (Plugin.plugin_name plugin))) in
           create_task {| task_plugin := Plugin.plugin_name plugin;
                          task_event := event |}
         else ret tt) in
      fan_out plugins' event
  end.

(** One turn of [while True:] for the event the queue delivers; [done]
    tells which tasks have finished by now. *)
Definition iteration (event : Event.t) (done : Task → bool)
    : M RunState control :=
  let* _ := with_log (logging.debug logging.waiting_for_event) in
  let* _ := with_log (logging.debug logging.received_event) in
  let* st := get in
  let* _ := set_tasks (filter (λ t, negb (done t)) (tasks st)) in
  if stopped st || EventType.eqb (Event.type event) EventType._EMPTY then
    let* _ :=
      (if EventType.eqb (Event.type event) EventType._EMPTY
          && bool_decide (Event.sender event = "restart")
       then set_restart true else ret tt) in
    let* _ := set_stopped true in
    ret Break
  else if EventType.eqb (Event.type event) EventType.ZULIP then
    let* ty := lift (getitem (Event.data event) "type") in
    if eq_str ty (str "heartbeat") then ret Continue
    else
      let* preprocessed :=
        try_except
          (let* d := with_log (preprocess_data (Event.data event)) in
           ret (Some d))
          (λ exc,
           let* _ := with_log (logging.exception exc) in
           ret None) in
      match preprocessed with
      | None => ret Continue
      | Some d =>
          let* _ := fan_out self_plugins (Event.set_data event d) in
          ret Continue
      end
  else ret Continue.

(** The loop, for the events the queue delivers one after the other.
    When they are used up the loop has logged that it waits for the next
    one, and waits. *)
Fixpoint run_loop (queue : list (Event.t * (Task → bool)))
    : M RunState control :=
  match queue with
  | [] =>
      let* _ := with_log (logging.debug logging.waiting_for_event) in
      ret Continue
  | (event, done) :: queue' =>
      let* c := iteration event done in
      match c with
      | Break => ret Break
      | Continue => run_loop queue'
      end
  end.

End run.

(** *** The states one turn of the loop leads to *)

(** [event.data["type"] == "heartbeat"] *)
Definition is_heartbeat (event : Event.t) : bool :=
  match getitem (Event.data event) "type" with
  | Ok ty => eq_str ty (str "heartbeat")
  | Raise _ => false
  end.

(** The state once the event is taken from the queue: the two debug
    records are written and the finished tasks are forgotten. *)
Definition entered (done : Task → bool) (st : RunState) : RunState :=
  {| stopped := stopped st; restart := restart st;
     tasks := filter (λ t, negb (done t)) (tasks st);
     created := created st;
     log := snd (logging.debug logging.received_event
                   (snd (logging.debug logging.waiting_for_event
                           (log st)))) |}.

(** The state after an event whose preprocessing raised [exc]: the
    exception is logged, nothing else has changed. *)
Definition dropped (exc : exn) (done : Task → bool) (st : RunState)
    : RunState :=
  {| stopped := stopped st; restart := restart st;
     tasks := filter (λ t, negb (done t)) (tasks st);
     created := created st;
     log := snd (logging.exception exc (log (entered done st))) |}.

(** The handlers the fan-out schedules for an event. *)
Definition responsible_tasks (plugins : list (string * Plugin.t))
    (event : Event.t) : list Task :=
  (λ p, {| task_plugin := Plugin.plugin_name p.2; task_event := event |})
  <$> filter (λ p, Plugin.is_responsible p.2 event = true) plugins.

(** ** Dicts in the order of their insertions *)

(** A Python dict iterates in the order in which its keys were first
    inserted; assigning to a key that is present keeps its place. *)
Section odict.
Context {V : Type}.

Fixpoint od_get (k : string) (d : list (string * V)) : option V :=
  match d with
  | [] => None
  | (k', v) :: d' => if bool_decide (k' = k) then Some v else od_get k d'
  end.

Fixpoint od_set (k : string) (v : V) (d : list (string * V))
    : list (string * V) :=
  match d with
  | [] => [(k, v)]
  | (k', v') :: d' =>
      if bool_decide (k' = k) then (k, v) :: d'
      else (k', v') :: od_set k v d'
  end.

(** [k in d] *)
Definition od_mem (k : string) (d : list (string * V)) : bool :=
  match od_get k d with Some _ => true | None => false end.

(** [d[k]] *)
Definition od_getitem (k : string) (d : list (string * V)) : result V :=
  match od_get k d with
  | Some v => Ok v
  | None => Raise (KeyError k)
  end.

(** [{key(x): val(x) for x in xs}] *)
Definition dict_comprehension {X} (key : X → string) (val : X → V)
    (xs : list X) : list (string * V) :=
  foldl (λ d x, od_set (key x) (val x) d) [] xs.

End odict.

(** ** [graphlib.TopologicalSorter] of Python's standard library *)

Module graphlib.

Record NodeInfo := {
  npredecessors : Z;
  successors : list string;
}.

Definition _NODE_OUT : Z := -1.
Definition _NODE_DONE : Z := -2.

Record t := {
  _node2info : list (string * NodeInfo);
  _ready_nodes : list string;
  _npassedout : nat;
  _nfinished : nat;
}.

Definition info (n2i : list (string * NodeInfo)) (node : string)
    : NodeInfo :=
  default {| npredecessors := 0; successors := [] |} (od_get node n2i).

(** [_get_nodeinfo]: the node gets an entry if it has none. *)
Definition _get_nodeinfo (node : string) (n2i : list (string * NodeInfo))
    : list (string * NodeInfo) :=
  if od_mem node n2i then n2i
  else od_set node {| npredecessors := 0; successors := [] |} n2i.

Definition add_successor (node pred : string)
    (n2i : list (string * NodeInfo)) : list (string * NodeInfo) :=
  let n2i := _get_nodeinfo pred n2i in
  od_set pred
    {| npredecessors := npredecessors (info n2i pred);
       successors := successors (info n2i pred) ++ [node] |} n2i.

(** [add(node, *predecessors)] *)
Definition add (node : string) (predecessors : list string)
    (n2i : list (string * NodeInfo)) : list (string * NodeInfo) :=
  let n2i := _get_nodeinfo node n2i in
  let n2i :=
    od_set node
      {| npredecessors :=
           npredecessors (info n2i node) + Z.of_nat (length predecessors);
         successors := successors (info n2i node) |} n2i in
  foldl (λ n2i pred, add_successor node pred n2i) n2i predecessors.

(** [TopologicalSorter(graph)] *)
Definition init (graph : list (string * list string))
    : list (string * NodeInfo) :=
  foldl (λ n2i '(node, predecessors), add node predecessors n2i) [] graph.

(** The nodes reached from [node] along at most [k] and at least one
    edge from a node to a successor. *)
Fixpoint reach (n2i : list (string * NodeInfo)) (k : nat) (node : string)
    : list string :=
  match k with
  | O => []
  | S k' =>
      successors (info n2i node)
      ++ flat_map (reach n2i k') (successors (info n2i node))
  end.

(** [_find_cycle] finds a cycle exactly when there is one: a node that
    reaches itself. *)
Definition has_cycle (n2i : list (string * NodeInfo)) : bool :=
  existsb (λ '(node, _), bool_decide (node ∈ reach n2i (length n2i) node))
    n2i.

(** [prepare] *)
Definition prepare (n2i : list (string * NodeInfo)) : result t :=
  let ready :=
    fst <$> filter (λ '(_, i), npredecessors i = 0) n2i in
  if has_cycle n2i then Raise CycleError
  else Ok {| _node2info := n2i; _ready_nodes := ready;
             _npassedout := 0; _nfinished := 0 |}.

Definition set_npredecessors (node : string) (n : Z)
    (n2i : list (string * NodeInfo)) : list (string * NodeInfo) :=
  od_set node
    {| npredecessors := n; successors := successors (info n2i node) |} n2i.

(** [get_ready] *)
Definition get_ready (ts : t) : list string * t :=
  let result := _ready_nodes ts in
  (result,
   {| _node2info :=
        foldl (λ n2i node, set_npredecessors node _NODE_OUT n2i)
          (_node2info ts) result;
      _ready_nodes := [];
      _npassedout := _npassedout ts + length result;
      _nfinished := _nfinished ts |}).

Definition is_active (ts : t) : bool :=
  bool_decide (_nfinished ts < _npassedout ts)%nat
  || bool_decide (_ready_nodes ts ≠ []).

(** The inner loop of [done]: one successor loses a predecessor. *)
Definition release (ts : t) (successor : string) : t :=
  let n := npredecessors (info (_node2info ts) successor) - 1 in
  {| _node2info := set_npredecessors successor n (_node2info ts);
     _ready_nodes :=
       if bool_decide (n = 0) then _ready_nodes ts ++ [successor]
       else _ready_nodes ts;
     _npassedout := _npassedout ts;
     _nfinished := _nfinished ts |}.

(** [done], called with the nodes [get_ready] has passed out *)
Definition done (nodes : list string) (ts : t) : t :=
  foldl (λ ts node,
    let ts :=
      {| _node2info :=
           set_npredecessors node _NODE_DONE (_node2info ts);
         _ready_nodes := _ready_nodes ts;
         _npassedout := _npassedout ts;
         _nfinished := _nfinished ts |} in
    let ts := foldl release ts (successors (info (_node2info ts) node)) in
    {| _node2info := _node2info ts; _ready_nodes := _ready_nodes ts;
       _npassedout := _npassedout ts; _nfinished := S (_nfinished ts) |})
    ts nodes.

(** The loop of [static_order]; every turn passes out at least one
    node, so [fuel] turns are enough for a graph of [fuel] nodes. *)
Fixpoint order_loop (fuel : nat) (ts : t) : list string :=
  match fuel with
  | O => []
  | S fuel' =>
      if is_active ts then
        let '(node_group, ts) := get_ready ts in
        node_group ++ order_loop fuel' (done node_group ts)
      else []
  end.

(** [list(TopologicalSorter(graph).static_order())] *)
Definition static_order (graph : list (string * list string))
    : result (list string) :=
  match prepare (init graph) with
  | Ok ts => Ok (order_loop (length (_node2info ts)) ts)
  | Raise e => Raise e
  end.

End graphlib.

(** ** [TumCSBot.startPlugins] *)

Module PluginClass.
(** A subclass of [Plugin]: its own name, and what [plugin_name()],
    [dependencies] and the instances it constructs give. *)
Record t := {
  name : string;
  plugin_name : string;
  dependencies : list string;
  is_responsible : Event.t → bool;
}.

(** [plugin_class(PluginContext(...), self.client)] *)
Definition new (plugin_class : t) : Plugin.t :=
  {| Plugin.class_name := name plugin_class;
     Plugin.plugin_name := plugin_name plugin_class;
     Plugin.is_responsible := is_responsible plugin_class |}.
End PluginClass.

(** What [startPlugins] reads and writes: [self.plugins], the logger,
    and the classes instantiated so far. *)
Record StartState := {
  plugins : list (string * Plugin.t);
  instantiated : list string;
  start_log : logging.t;
}.

Definition instantiate (plugin_class : PluginClass.t)
    : M StartState Plugin.t := λ st,
  (Ok (PluginClass.new plugin_class),
   {| plugins := plugins st;
      instantiated := instantiated st ++ [PluginClass.name plugin_class];
      start_log := start_log st |}).

Definition set_plugin (plugin_name : string) (plugin : Plugin.t)
    : M StartState unit := λ st,
  (Ok tt,
   {| plugins := od_set plugin_name plugin (plugins st);
      instantiated := instantiated st;
      start_log := start_log st |}).

Definition with_start_log {A} (m : M logging.t A) : M StartState A := λ st,
  let '(r, lg) := m (start_log st) in
  (r, {| plugins := plugins st; instantiated := instantiated st;
         start_log := lg |}).

Section startPlugins.
(** The order in which [set(l)] yields the distinct elements of [l];
    Python does not fix it. *)
Context (set_iter : list string → list string).

Definition plugin_class_dict (plugin_classes : list PluginClass.t)
    : list (string * PluginClass.t) :=
  dict_comprehension PluginClass.plugin_name (λ c, c) plugin_classes.

Definition plugin_graph (plugin_classes : list PluginClass.t)
    : list (string * list string) :=
  dict_comprehension PluginClass.plugin_name
    (λ c, set_iter (PluginClass.dependencies c)) plugin_classes.

(** The body of [for plugin_name in ...static_order():] *)
Fixpoint start_each (class_dict : list (string * PluginClass.t))
    (order : list string) : M StartState unit :=
  match order with
  | [] => ret tt
  | plugin_name :: order' =>
      let* _ := with_start_log
        (logging.debug (logging.start_plugin plugin_name)) in
      let* plugin_class := lift (od_getitem plugin_name class_dict) in
      let* plugin := instantiate plugin_class in
      let* st := get in
      if od_mem plugin_name (plugins st) then
        raise (ValueError
          (str ("plugin " +:+ Plugin.plugin_name plugin
                +:+ " appears twice")))
      else
        let* _ := set_plugin plugin_name plugin in
        start_each class_dict order'
  end.

Definition startPlugins (plugin_classes : list PluginClass.t)
    : M StartState unit :=
  let* order :=
    lift (graphlib.static_order (plugin_graph plugin_classes)) in
  start_each (plugin_class_dict plugin_classes) order.

End startPlugins.

(** ** The mapped classes of SQLAlchemy and their configuration *)

Module orm.

Inductive direction :=
| ONETOMANY
| MANYTOONE
| MANYTOMANY.

(** [relationship(argument, back_populates=..., cascade=...)], declared
    under the name [key]; [target_table] is the table of the class
    [argument]. *)
Record relationship := {
  key : string;
  argument : string;
  target_table : string;
  back_populates : string;
  cascade : list string;
  single_parent : bool;
}.

(** The cascade of a relationship declared without one. *)
Definition default_cascade : list string := ["save-update"; "merge"].

(** A mapped class: its table, the tables that the foreign keys of its
    columns reference, and its relationships. *)
Record mapped_class := {
  class_name : string;
  tablename : string;
  foreign_keys : list string;
  relationships : list relationship;
}.

(** The class whose table holds the foreign key is the many side. *)
Definition direction_of (c : mapped_class) (r : relationship) : direction :=
  if bool_decide (target_table r ∈ foreign_keys c) then MANYTOONE
  else ONETOMANY.

Definition delete_orphan (r : relationship) : bool :=
  bool_decide ("delete-orphan" ∈ cascade r).

(** [RelationshipProperty._check_cascade_settings]: delete-orphan is for
    the one side of a one-to-many relationship, unless [single_parent]
    is set. *)
Definition _check_cascade_settings (c : mapped_class) (r : relationship)
    : result unit :=
  if delete_orphan r && negb (single_parent r)
     && match direction_of c r with
        | MANYTOONE | MANYTOMANY => true
        | ONETOMANY => false
        end
  then Raise ArgumentError
  else Ok tt.

Fixpoint check_each (c : mapped_class) (rs : list relationship)
    : result unit :=
  match rs with
  | [] => Ok tt
  | r :: rs' =>
      match _check_cascade_settings c r with
      | Ok _ => check_each c rs'
      | Raise e => Raise e
      end
  end.

(** [configure_mappers()], which the first query of a process runs: the
    relationships of every mapped class are set up, and the first that
    cannot be is the exception of the query. *)
Fixpoint configure_mappers (classes : list mapped_class) : result unit :=
  match classes with
  | [] => Ok tt
  | c :: classes' =>
      match check_each c (relationships c) with
      | Ok _ => configure_mappers classes'
      | Raise e => Raise e
      end
  end.

End orm.

(** [class CourseDB(TableBase)]: the table [Courses], whose columns
    [Streams], [Tutors] and [ModerationConfigId] hold foreign keys, and
    the three relationships. *)
Definition CourseDB_mapper : orm.mapped_class :=
  {| orm.class_name := "CourseDB";
     orm.tablename := "Courses";
     orm.foreign_keys := ["StreamGroups"; "UserGroups"; "ModerationConfig"];
     orm.relationships :=
       [{| orm.key := "_moderation_config";
           orm.argument := "ModerationConfig";
           orm.target_table := "ModerationConfig";
           orm.back_populates := "_course";
           orm.cascade := orm.default_cascade;
           orm.single_parent := false |};
        {| orm.key := "_streams";
           orm.argument := "StreamGroup";
           orm.target_table := "StreamGroups";
           orm.back_populates := "_course";
           orm.cascade := ["all"; "delete-orphan"];
           orm.single_parent := false |};
        {| orm.key := "_tutors";
           orm.argument := "UserGroup";
           orm.target_table := "UserGroups";
           orm.back_populates := "_course";
           orm.cascade := ["all"; "delete-orphan"];
           orm.single_parent := false |}] |}.

(** ** The tables the course plugin works on *)

(** A row of [StreamGroups]. The class [StreamGroup] is declared in
    [plugins/streamgroup.py], which is not part of the sources at hand:
    [course.py] names the columns [StreamGroupId] and
    [StreamGroupEmote]; [columns] holds whatever else a row has. *)
Record StreamGroup := {
  StreamGroupId : pystr;
  StreamGroupEmote : pystr;
  columns : dict;
}.

(** A row of [UserGroups] ([plugins/usergroup.py], likewise). *)
Record UserGroup := {
  GroupId : Z;
  GroupName : pystr;
}.

Section tables.
(** [ZulipStream] of [tumcsbot.lib.types] *)
Context {ZulipStream : Type}.

(** A row of [Courses]: the columns of [CourseDB]. *)
Record CourseDB := {
  CourseId : Z;
  CourseName : option pystr;
  CourseDescription : option pystr;
  Streams : pystr;
  Tutors : Z;
  TutorStream : ZulipStream;
  InstructorStream : option ZulipStream;
  ModerationConfigId : option Z;
}.

Record Database := {
  Courses : list CourseDB;
  StreamGroups : list StreamGroup;
  UserGroups : list UserGroup;
}.

(** A session: the database as the last commit left it, and as the
    statements of the open transaction see it. *)
Record Session := {
  committed : Database;
  current : Database;
}.

(** The session of the command and the state of the Zulip server. *)
Record World {Chat : Type} := {
  session : Session;
  chat : Chat;
}.
End tables.
Arguments CourseDB : clear implicits.
Arguments Database : clear implicits.
Arguments Session : clear implicits.
Arguments World : clear implicits.

(** What a command yields. *)
Inductive response :=
| DMResponse (text : pystr).

Section course.
Context {ZulipStream Chat : Type}.

Abbreviation W := (World ZulipStream Chat).
Abbreviation C := (M (World ZulipStream Chat)).

(** The code of the repository and of the Zulip client that the
    commands call and that is not part of the sources at hand. *)
Context (Streamgroup__create_and_get_group : pystr → pystr → C StreamGroup).
Context (Streamgroup__add_zulip_streams :
           list ZulipStream → StreamGroup → C unit).
Context (Usergroup_create_and_get_group : pystr → C UserGroup).
Context (Usergroup_get_user_ids_for_group : UserGroup → C (list Z)).
(** [self.invoke_other_cmd(Streams.create, ..., name, description)] *)
Context (Streams_create : pystr → pystr → C unit).
(** [ZulipStream(text)] and the [await] that resolves it *)
Context (ZulipStream_await : pystr → C ZulipStream).
Context (stream_name : ZulipStream → pystr).
Context (subscribe_users : list Z → pystr → C unit).
(** The attribute [CouseId] of the class [StreamGroup], if the class
    has one: what that column holds in a row. *)
Context (StreamGroup_CouseId : option (StreamGroup → value)).

(** *** The session

    The statements of a session whose mappers are configured; what the
    configuration of the mappers does to a command is [on_session]
    below. *)

Definition set_current (db : Database ZulipStream) : C unit := λ w,
  (Ok tt,
   {| session := {| committed := committed (session w); current := db |};
      chat := chat w |}).

Definition query : C (Database ZulipStream) := λ w,
  (Ok (current (session w)), w).

Definition commit : C unit := λ w,
  (Ok tt,
   {| session := {| committed := current (session w);
                    current := current (session w) |};
      chat := chat w |}).

Definition rollback : C unit := λ w,
  (Ok tt,
   {| session := {| committed := committed (session w);
                    current := committed (session w) |};
      chat := chat w |}).

(** [.first()] *)
Definition first {A} (rows : list A) : option A := head rows.

(** [.one()] *)
Definition one {A} (rows : list A) : result A :=
  match rows with
  | [row] => Ok row
  | [] => Raise NoResultFound
  | _ => Raise MultipleResultsFound
  end.

(** [column == v] in a filter: NULL equals nothing. *)
Definition name_is (name : pystr) (course : CourseDB ZulipStream) : bool :=
  match CourseName course with
  | Some n => bool_decide (n = name)
  | None => false
  end.

(** [course = CourseDB(CourseName=name, Streams=streams, Tutors=tutors,
    ...); session.add(course)] and the INSERT of the next flush: the
    columns [Streams] and [Tutors], a [String] and an [Integer], are given
    the row objects [streams] and [tutors] themselves, which the database
    driver cannot bind. *)
Definition add_course (name : pystr) (streams : StreamGroup)
    (tutors : UserGroup) (tutors_stream : ZulipStream)
    (instructor_stream : option ZulipStream) : C unit :=
  raise StatementError.

(** [except (DMError, sqlalchemy.exc.IntegrityError) as e: h] *)
Definition except_DMError_IntegrityError {A} (m : C A) (h : C A) : C A :=
  try_except m (λ e,
    match e with
    | DMError _ | IntegrityError => h
    | _ => raise e
    end).

(** [except sqlalchemy.exc.IntegrityError as e: h] *)
Definition except_IntegrityError {A} (m : C A) (h : C A) : C A :=
  try_except m (λ e,
    match e with
    | IntegrityError => h
    | _ => raise e
    end).

(** *** [Course.add_standard_streams] *)

Definition u_umlaut : pystr := [252%N].

Definition standard_stream (name suffix description : pystr)
    : C ZulipStream :=
  let* _ := Streams_create (name ++ suffix) description in
  ZulipStream_await (str "#**" ++ name ++ suffix ++ str "**").

Definition add_standard_streams (name : pystr) (sg : StreamGroup)
    : C unit :=
  let* allg_stream :=
    standard_stream name (str "-Allgemein")
      (str "Willkommen im allgemeinen Zulip Stream von dem Kurs "
       ++ name) in
  let* org_stream :=
    standard_stream name (str "-Organisation")
      (str "Willkommen im Orga-Zulip Stream von dem Kurs " ++ name) in
  let* fb_stream :=
    standard_stream name (str "-Feedback")
      (str "Willkommen im Feedback Zulip Stream von dem Kurs " ++ name) in
  let* ank_stream :=
    standard_stream name (str "-Ank" ++ u_umlaut ++ str "ndigungen")
      (str "Willkommen im Zulip Stream f" ++ u_umlaut
       ++ str "r Ank" ++ u_umlaut ++ str "ndigungen von dem Kurs "
       ++ name) in
  let* _ :=
    Streams_create (name ++ str "-Technik")
      (str "Willkommen im Technik Zulip Stream von dem Kurs " ++ name) in
  (** [await tech_name]: a str cannot be awaited *)
  let* tech_stream := (raise TypeError : C ZulipStream) in
  let* memes_stream :=
    standard_stream name (str "-Memes")
      (str "Willkommen im Meme Zulip Stream von dem Kurs " ++ name) in
  Streamgroup__add_zulip_streams
    [allg_stream; org_stream; fb_stream; ank_stream; tech_stream;
     memes_stream] sg.

(** *** [Course.create_empty] *)

Definition went_wrong (name : pystr) : exn :=
  DMError (str "Something went wrong when creating the course `"
           ++ name ++ str "` :botsweat:").

Definition create_empty (name streamgroup_emoji : pystr)
    (opts_i opts_s : bool) : C response :=
  let* db := query in
  if bool_decide
       (first (filter (λ c, name_is name c) (Courses db)) ≠ None)
  then raise (DMError (str "Course `" ++ name ++ str "` already exists"))
  else
  let* db := query in
  if bool_decide
       (first (filter (λ g, StreamGroupEmote g = streamgroup_emoji)
                 (StreamGroups db)) ≠ None)
  then raise (DMError (str "Course with :" ++ streamgroup_emoji
                       ++ str ": already exists"))
  else
  let* _ :=
    except_DMError_IntegrityError
      (let streamgroup_name := str "streams_" ++ name in
       let* streams :=
         Streamgroup__create_and_get_group
           streamgroup_name streamgroup_emoji in
       let* _ :=
         (if opts_s then add_standard_streams name streams else ret tt) in
       let usergroup_name := str "tutors_" ++ name in
       let* tutors := Usergroup_create_and_get_group usergroup_name in
       let tutors_stream_name := name ++ str "-Tutoren" in
       let tutors_stream_desc :=
         str "Interner Stream f" ++ u_umlaut ++ str "r " ++ name
         ++ str "-Tutoren" in
       let* _ := Streams_create tutors_stream_name tutors_stream_desc in
       let* tutors_stream :=
         ZulipStream_await (str "#**" ++ tutors_stream_name ++ str "**") in
       let* instructor_stream :=
         (if opts_i then
            let instructor_stream_name := name ++ str "-Instructors" in
            let instructor_stream_desc :=
              str "Interner Stream f" ++ u_umlaut
              ++ str "r Intructors von " ++ name in
            let* _ :=
              Streams_create instructor_stream_name
                instructor_stream_desc in
            let* s :=
              ZulipStream_await
                (str "#**" ++ tutors_stream_name ++ str "**") in
            ret (Some s)
          else ret None) in
       let* _ :=
         add_course name streams tutors tutors_stream instructor_stream in
       commit)
      (let* _ := rollback in raise (went_wrong name)) in
  ret (DMResponse (str "Course `" ++ name
                   ++ str "` created :bothappypad:")).

(** *** [Course.create] *)

Definition create (name streamgroup_emoji : pystr)
    (opts_s : option StreamGroup) (opts_t : option UserGroup)
    (opts_tuts opts_ins : option ZulipStream) : C response :=
  let* db := query in
  if bool_decide
       (first (filter (λ c, name_is name c) (Courses db)) ≠ None)
  then raise (DMError (str "Course `" ++ name ++ str "` already exists"))
  else
  let* db := query in
  if bool_decide
       (first (filter (λ g, StreamGroupEmote g = streamgroup_emoji)
                 (StreamGroups db)) ≠ None)
  then raise (DMError (str "Course with :" ++ streamgroup_emoji
                       ++ str ": already exists"))
  else
  let* _ :=
    except_DMError_IntegrityError
      (let* streams :=
         match opts_s with
         | Some s => ret s
         | None =>
             Streamgroup__create_and_get_group
               (str "streams_" ++ name) streamgroup_emoji
         end in
       let* _ :=
         match opts_s with
         | Some _ => add_standard_streams name streams
         | None => ret tt
         end in
       let* tutors :=
         match opts_t with
         | Some t => ret t
         | None => Usergroup_create_and_get_group (str "tutors_" ++ name)
         end in
       let tutors_stream_name := name ++ str "-Tutoren" in
       let* tutors_stream :=
         match opts_tuts with
         | Some s => ret s
         | None =>
             let* _ :=
               Streams_create tutors_stream_name
                 (str "Interner Stream f" ++ u_umlaut ++ str "r " ++ name
                  ++ str "-Tutoren") in
             ZulipStream_await
               (str "#**" ++ tutors_stream_name ++ str "**")
         end in
       let* instructor_stream :=
         match opts_ins with
         | Some s => ret s
         | None =>
             let* _ :=
               Streams_create (name ++ str "-Instructors")
                 (str "Interner Stream f" ++ u_umlaut
                  ++ str "r Intructors von " ++ name) in
             match opts_tuts with
             | Some _ =>
                 (** [tutors_stream_name] is assigned only without
                     [--tuts] *)
                 raise UnboundLocalError
             | None =>
                 ZulipStream_await
                   (str "#**" ++ tutors_stream_name ++ str "**")
             end
         end in
       let* _ :=
         add_course name streams tutors tutors_stream
           (Some instructor_stream) in
       let* _ := commit in
       let* tut_list := Usergroup_get_user_ids_for_group tutors in
       subscribe_users tut_list (stream_name tutors_stream))
      (let* _ := rollback in raise (went_wrong name)) in
  ret (DMResponse (str "Course `" ++ name
                   ++ str "` created :bothappypad:")).

(** *** The helpers of [Course.update] *)

(** [StreamGroup.CouseId == id] on a row, once the attribute is
    found. *)
Definition value_is_str (v : value) (s : pystr) : bool := eq_str v s.

(** [Course._get_streamgroup] *)
Definition _get_streamgroup (course : CourseDB ZulipStream)
    : C StreamGroup :=
  let id := Streams course in
  let* db := query in
  match StreamGroup_CouseId with
  | None => raise AttributeError
  | Some CouseId =>
      lift (one (filter (λ g, value_is_str (CouseId g) id)
                   (StreamGroups db)))
  end.

(** [Course._get_tutorgroup] *)
Definition _get_tutorgroup (course : CourseDB ZulipStream) : C UserGroup :=
  let id := Tutors course in
  let* db := query in
  lift (one (filter (λ g, GroupId g = id) (UserGroups db))).

Definition set_Streams (id : pystr) (c : CourseDB ZulipStream)
    : CourseDB ZulipStream :=
  {| CourseId := CourseId c; CourseName := CourseName c;
     CourseDescription := CourseDescription c;
     Streams := id; Tutors := Tutors c;
     TutorStream := TutorStream c;
     InstructorStream := InstructorStream c;
     ModerationConfigId := ModerationConfigId c |}.

(** [Course._update_streamgroup]; [.values(Streams=group)] is read as
    storing the id of the row [group]. *)
Definition _update_streamgroup (course : CourseDB ZulipStream)
    (group : StreamGroup) : C unit :=
  let* oldSG := _get_streamgroup course in
  if bool_decide (StreamGroupId oldSG = StreamGroupId group) then
    raise (DMError
      (str "The given Streamgroup is already set for this course."))
  else
    except_IntegrityError
      (let* db := query in
       let* _ :=
         set_current
           {| Courses :=
                (λ c, if bool_decide (CourseId c = CourseId course)
                      then set_Streams (StreamGroupId group) c else c)
                <$> Courses db;
              StreamGroups := StreamGroups db;
              UserGroups := UserGroups db |} in
       let* db := query in
       let* _ :=
         set_current
           {| Courses := Courses db;
              StreamGroups :=
                filter (λ g, StreamGroupId g ≠ StreamGroupId oldSG)
                  (StreamGroups db);
              UserGroups := UserGroups db |} in
       commit)
      (let* _ := rollback in
       raise (DMError (str "Could not update Streamgroup :botsad:"))).

End course.

(** ** A client for the examples *)

(** Modelled from the spec: [AsyncClient.is_only_pm_recipient] of
    [tumcsbot/client.py], which is not part of the sources at hand. The
    specification asks for "a direct (private) message to the bot where
    the bot is the sole other recipient": the message is private, the
    bot did not send it, and its recipients, the sender aside, are the
    bot and nobody else. The recipients are the [id]s of the entries of
    [display_recipient], as the Zulip server lists them. *)
Definition recipient_id (r : value) : result Z :=
  match getitem r "id" with
  | Ok (VInt z) => Ok z
  | Ok _ => Raise TypeError
  | Raise e => Raise e
  end.

Fixpoint recipient_ids (rs : list value) : result (list Z) :=
  match rs with
  | [] => Ok []
  | r :: rs' =>
      match recipient_id r, recipient_ids rs' with
      | Ok z, Ok zs => Ok (z :: zs)
      | Raise e, _ => Raise e
      | _, Raise e => Raise e
      end
  end.

Definition is_only_pm_recipient_model (bot_id : Z) (message : value)
    : result bool :=
  match getitem message "type", getitem message "sender_id",
        getitem message "display_recipient" with
  | Ok mt, Ok (VInt sender), Ok (VList rs) =>
      if negb (eq_str mt (str "private")) || bool_decide (sender = bot_id)
      then Ok false
      else
        match recipient_ids rs with
        | Ok ids =>
            let others := filter (λ z, z ≠ sender) ids in
            Ok (bool_decide (others ≠ [])
                && forallb (λ z, bool_decide (z = bot_id)) others)
        | Raise e => Raise e
        end
  | Raise e, _, _ => Raise e
  | _, Raise e, _ => Raise e
  | _, _, Raise e => Raise e
  | _, _, _ => Raise TypeError
  end.

(** The client of a bot with the given user id and full name, as
    [_RootClient.from_sync_client] builds it. *)
Definition make_client (user_id : Z) (full_name : pystr) : client.t :=
  {| client.id := user_id;
     client.ping := str "@**" ++ full_name ++ str "**";
     client.ping_len := length (str "@**" ++ full_name ++ str "**");
     client.is_only_pm_recipient := is_only_pm_recipient_model user_id |}.

Definition bot : client.t := make_client 7 (str "Bot").

Definition recipient (user_id : Z) : value :=
  VDict {[ "id" := VInt user_id ]}.

(** A message event as the Zulip server sends it, with the fields the
    dispatcher reads. *)
Definition message_of (mtype : string) (sender_id : Z) (content : pystr)
    (recipients : list Z) : dict :=
  {[ "type" := VStr (str mtype);
     "sender_id" := VInt sender_id;
     "content" := VStr content;
     "display_recipient" := VList (recipient <$> recipients) ]}.

Definition message_event_of (mtype : string) (sender_id : Z)
    (content : pystr) (recipients : list Z) : dict :=
  {[ "type" := VStr (str "message");
     "message" := VDict (message_of mtype sender_id content recipients) ]}.

Definition heartbeat : dict := {[ "type" := VStr (str "heartbeat") ]}.

Definition zulip_event (d : dict) : Event.t :=
  {| Event.sender := "_root"; Event.type := EventType.ZULIP;
     Event.data := VDict d |}.

Definition logger (lvl : Z) : logging.t :=
  {| logging.level := lvl; logging.stream := [] |}.

(** The state in which [run] enters its loop. *)
Definition initial_state (lvl : Z) : RunState :=
  {| stopped := false; restart := false; tasks := []; created := [];
     log := logger lvl |}.

(** *** Plugin classes for the examples *)

Definition plugin_class (name plugin_name : string)
    (dependencies : list string) : PluginClass.t :=
  {| PluginClass.name := name;
     PluginClass.plugin_name := plugin_name;
     PluginClass.dependencies := dependencies;
     PluginClass.is_responsible := λ _, false |}.

(** The state in which [__init__] calls [startPlugins]. *)
Definition start_state : StartState :=
  {| plugins := []; instantiated := [];
     start_log := logger logging.WARNING |}.

(** *** A database for the examples *)

Definition stream_group (id emote : string) (course_id : Z) : StreamGroup :=
  {| StreamGroupId := str id; StreamGroupEmote := str emote;
     columns := {[ "CouseId" := VInt course_id ]} |}.

Definition course_row (id : Z) (name streams : string) (tutors : Z)
    : CourseDB pystr :=
  {| CourseId := id; CourseName := Some (str name);
     CourseDescription := None; Streams := str streams; Tutors := tutors;
     TutorStream := str (name +:+ "-Tutoren"); InstructorStream := None;
     ModerationConfigId := None |}.

Definition example_db : Database pystr :=
  {| Courses := [course_row 1 "Logic" "sg1" 10];
     StreamGroups := [stream_group "sg1" "books" 1;
                      stream_group "sg2" "robot" 2];
     UserGroups := [{| GroupId := 10; GroupName := str "tutors_Logic" |};
                    {| GroupId := 11; GroupName := str "helpers" |}] |}.

Definition example_world : World pystr unit :=
  {| session := {| committed := example_db; current := example_db |};
     chat := tt |}.

(** The column [CouseId], for a class [StreamGroup] that has one. *)
Definition CouseId_column (g : StreamGroup) : value :=
  default VNone (columns g !! "CouseId").

(** ** The outcome of the preprocessing, without the logger *)

(** Which way [zulip_event_preprocess] ends on an event: the exception,
    or nothing to attach, or the message and its command line. *)
Definition classify (c : client.t) (event : dict)
    : result (option (dict * pystr)) :=
  match event !! "type" with
  | None => Raise (KeyError "type")
  | Some ty =>
      if negb (eq_str ty (str "message")) then Ok None
      else
        match event !! "message" with
        | None => Raise (KeyError "message")
        | Some (VDict md) =>
            match md !! "content" with
            | None => Raise (KeyError "content")
            | Some (VStr content) =>
                match md !! "sender_id" with
                | None => Raise (KeyError "sender_id")
                | Some sender =>
                    if eq_int sender (client.id c) then Ok None
                    else
                      match md !! "type" with
                      | None => Raise (KeyError "type")
                      | Some mt =>
                          let sw :=
                            startswith_str content (client.ping c) in
                          if eq_str mt (str "private") then
                            if sw then Ok None
                            else
                              match client.is_only_pm_recipient c
                                      (VDict md) with
                              | Ok true => Ok (Some (md, content))
                              | Ok false => Ok None
                              | Raise e => Raise e
                              end
                          else if sw then
                            Ok (Some (md,
                                      drop (client.ping_len c) content))
                          else Ok None
                      end
                end
            | Some _ => Raise AttributeError
            end
        | Some _ => Raise TypeError
        end
  end.

(** ** The state after the fan-out *)

Definition with_logger (lg : logging.t) (st : RunState) : RunState :=
  {| stopped := stopped st; restart := restart st; tasks := tasks st;
     created := created st; log := lg |}.

(** One task for each responsible plugin, in the order of [self.plugins],
    and one debug record for each. *)
Definition fanned_out (plugins : list (string * Plugin.t)) (event : Event.t)
    (st : RunState) : RunState :=
  {| stopped := stopped st; restart := restart st;
     tasks := tasks st ++ responsible_tasks plugins event;
     created := created st ++ responsible_tasks plugins event;
     log :=
       foldl (λ lg t,
                snd (logging.debug
                       (logging.push_event_to_plugin (task_plugin t)) lg))
         (log st) (responsible_tasks plugins event) |}.

(** ** Counting the predecessors a node waits for *)

(** How often [n] is listed in [l]. *)
Definition occurrences (n : string) (l : list string) : Z :=
  Z.of_nat (length (filter (λ x, x = n) l)).

(** The edges into [n] from the nodes of [keys] that are not in [E]. *)
Definition waiting (n2i : list (string * graphlib.NodeInfo))
    (keys E : list string) (n : string) : Z :=
  foldr (λ p acc,
           (if bool_decide (p ∈ E) then 0
            else occurrences n
                   (graphlib.successors (graphlib.info n2i p))) + acc)
    0 keys.

(** The counters of the node table count the edges: each node has as
    many predecessors as it is listed as a successor, [node] has [r]
    more. *)
Definition counted (n2i : list (string * graphlib.NodeInfo))
    (node : string) (r : Z) : Prop :=
  NoDup n2i.*1 ∧
  ∀ n, graphlib.npredecessors (graphlib.info n2i n)
       = waiting n2i n2i.*1 [] n + (if bool_decide (node = n) then r else 0).

(** What holds each time the loop of [static_order] asks for the ready
    nodes, [E] being the nodes passed out so far. *)
Definition round_invariant (keys E : list string) (ts : graphlib.t) : Prop :=
  NoDup keys ∧
  (∀ p, p ∉ keys →
        graphlib.successors (graphlib.info (graphlib._node2info ts) p) = [])
  ∧ NoDup (E ++ graphlib._ready_nodes ts)
  ∧ Forall (λ n, graphlib.npredecessors
                   (graphlib.info (graphlib._node2info ts) n) ≤ 0)
      (E ++ graphlib._ready_nodes ts)
  ∧ ∀ n, n ∉ E →
         graphlib.npredecessors (graphlib.info (graphlib._node2info ts) n)
         = waiting (graphlib._node2info ts) keys E n.

(** ** Chains of declared dependencies *)

(** The class registered under [a] lists [b] among its dependencies. *)
Definition requires (plugin_classes : list PluginClass.t) (a b : string)
    : Prop :=
  ∃ cls, od_get a (plugin_class_dict plugin_classes) = Some cls ∧
         b ∈ PluginClass.dependencies cls.

(** [x] is related to the first of [l], each of [l] to the next, and the
    last of [l] to [y]. *)
Fixpoint chain (R : string → string → Prop) (x : string) (l : list string)
    (y : string) : Prop :=
  match l with
  | [] => R x y
  | z :: l' => R x z ∧ chain R z l' y
  end.

(** ** The node table between the rounds of [static_order] *)

(** The table has the keys [keys], lists only keys as successors, has
    only keys ready, and every node passed out has been marked done. *)
Definition settled (keys : list string) (ts : graphlib.t) : Prop :=
  (graphlib._node2info ts).*1 = keys ∧
  (∀ p x, x ∈ graphlib.successors (graphlib.info (graphlib._node2info ts) p)
          → x ∈ keys) ∧
  (∀ x, x ∈ graphlib._ready_nodes ts → x ∈ keys) ∧
  graphlib._nfinished ts = graphlib._npassedout ts.

(** Every node of [keys] that waits for no predecessor is ready or has
    been passed out. *)
Definition none_forgotten (keys E : list string) (ts : graphlib.t) : Prop :=
  ∀ n, n ∈ keys →
       graphlib.npredecessors (graphlib.info (graphlib._node2info ts) n) = 0 →
       n ∈ E ++ graphlib._ready_nodes ts.

(** ** Computations that end in an exception *)

Definition never_returns {S A} (m : M S A) : Prop :=
  ∀ s, ∃ e s', m s = (Raise e, s').

(** ** The commands on the session of the bot *)

(** A command that starts with [session.query(...)], on a session of a
    process that has not configured its mappers yet: the query configures
    them first, and what the configuration raises is what the command
    raises, before it has read or written anything. *)
Definition on_session {ZulipStream Chat A : Type}
    (command : M (World ZulipStream Chat) A) : M (World ZulipStream Chat) A :=
  let* _ := lift (orm.configure_mappers [CourseDB_mapper]) in
  command.

Module Course.
Section commands.
Context {ZulipStream Chat : Type}.
Context (Streamgroup__create_and_get_group :
           pystr → pystr → M (World ZulipStream Chat) StreamGroup).
Context (Streamgroup__add_zulip_streams :
           list ZulipStream → StreamGroup →
           M (World ZulipStream Chat) unit).
Context (Usergroup_create_and_get_group :
           pystr → M (World ZulipStream Chat) UserGroup).
Context (Usergroup_get_user_ids_for_group :
           UserGroup → M (World ZulipStream Chat) (list Z)).
Context (Streams_create : pystr → pystr → M (World ZulipStream Chat) unit).
Context (ZulipStream_await :
           pystr → M (World ZulipStream Chat) ZulipStream).
Context (stream_name : ZulipStream → pystr).
Context (subscribe_users :
           list Z → pystr → M (World ZulipStream Chat) unit).

(** [Course.create_empty], whose first statement is
    [session.query(CourseDB)] *)
Definition create_empty (name streamgroup_emoji : pystr)
    (opts_i opts_s : bool) : M (World ZulipStream Chat) response :=
  on_session
    (create_empty Streamgroup__create_and_get_group
       Streamgroup__add_zulip_streams Usergroup_create_and_get_group
       Streams_create ZulipStream_await name streamgroup_emoji opts_i
       opts_s).

(** [Course.create], likewise *)
Definition create (name streamgroup_emoji : pystr)
    (opts_s : option StreamGroup) (opts_t : option UserGroup)
    (opts_tuts opts_ins : option ZulipStream)
    : M (World ZulipStream Chat) response :=
  on_session
    (create Streamgroup__create_and_get_group
       Streamgroup__add_zulip_streams Usergroup_create_and_get_group
       Usergroup_get_user_ids_for_group Streams_create ZulipStream_await
       stream_name subscribe_users name streamgroup_emoji opts_s opts_t
       opts_tuts opts_ins).

End commands.
End Course.

(** *** Callees for the examples *)

Definition example_create_usergroup (name : pystr)
    : M (World pystr unit) UserGroup :=
  ret {| GroupId := 12; GroupName := name |}.

(** ** [lib.py]: the responses *)

Module MessageType.
Inductive t :=
| MESSAGE
| EMOJI
| NONE.
End MessageType.

(** [v is None] *)
Definition is_None (v : value) : bool :=
  match v with
  | VNone => true
  | _ => false
  end.

(** [new_private_message] *)
Definition new_private_message (to content : value)
    : MessageType.t * dict :=
  (MessageType.MESSAGE,
   {[ "type" := VStr (str "private");
      "to" := to;
      "content" := content ]}).

(** [new_stream_message] *)
Definition new_stream_message (stream subject content : value)
    : MessageType.t * dict :=
  (MessageType.MESSAGE,
   {[ "type" := VStr (str "stream");
      "to" := stream;
      "subject" := subject;
      "content" := content ]}).

Module Response.

(** [Response.build_message]; an argument left out is [None]. *)
Definition build_message (message : dict) (response : value)
    (msg_type to subject : value) : result (MessageType.t * dict) :=
  match (if is_None msg_type then dict_getitem message "type"
         else Ok msg_type) with
  | Raise e => Raise e
  | Ok msg_type =>
      let private := eq_str msg_type (str "private") in
      match (if is_None to then
               if private then dict_getitem message "sender_email"
               else dict_getitem message "stream_id"
             else Ok to) with
      | Raise e => Raise e
      | Ok to =>
          match (if is_None subject then
                   if negb private then dict_getitem message "subject"
                   else Ok (VStr [])
                 else Ok subject) with
          | Raise e => Raise e
          | Ok subject =>
              if private then Ok (new_private_message to response)
              else Ok (new_stream_message to subject response)
          end
      end
  end.

(** [Response.build_reaction] *)
Definition build_reaction (message : dict) (emoji : value)
    : result (MessageType.t * dict) :=
  match dict_getitem message "id" with
  | Raise e => Raise e
  | Ok id =>
      Ok (MessageType.EMOJI,
          {[ "message_id" := id; "emoji_name" := emoji ]})
  end.

End Response.


(** ** [TumCSBot.run], around its loop *)

(** What [run] logs before and after the loop. *)
Inductive run_message :=
| start_event_listener (events : list pystr)
| start_central_queue
| stopping_plugins.

(** The state of [run]: that of its loop, and the debug records [run]
    itself writes before the loop starts and after it has ended. *)
Record RunAll := {
  prologue : list run_message;
  loop_state : RunState;
  epilogue : list run_message;
}.

Inductive run_outcome :=
| Returned
(** the queue is used up and the loop waits for the next event *)
| Waiting.

(** [logging.debug(m)] before the loop *)
Definition debug_before (m : run_message) : M RunAll unit := λ st,
  (Ok tt,
   if bool_decide (logging.level (log (loop_state st)) ≤ logging.DEBUG)
   then {| prologue := prologue st ++ [m]; loop_state := loop_state st;
           epilogue := epilogue st |}
   else st).

(** [logging.debug(m)] after the loop *)
Definition debug_after (m : run_message) : M RunAll unit := λ st,
  (Ok tt,
   if bool_decide (logging.level (log (loop_state st)) ≤ logging.DEBUG)
   then {| prologue := prologue st; loop_state := loop_state st;
           epilogue := epilogue st ++ [m] |}
   else st).

Definition with_loop {A} (m : M RunState A) : M RunAll A := λ st,
  let '(r, st1) := m (loop_state st) in
  (r, {| prologue := prologue st; loop_state := st1;
         epilogue := epilogue st |}).

(** [self.stopPlugin(plugin_name, updatePlugins_dicts=False)]: the class
    [TumCSBot] defines no attribute [stopPlugin], so the look-up
    raises. *)
Definition stopPlugin (plugin_name : string) : M RunAll unit :=
  raise AttributeError.

(** [for plugin_name in self.plugins: self.stopPlugin(...)] *)
Fixpoint stop_each (names : list string) : M RunAll unit :=
  match names with
  | [] => ret tt
  | plugin_name :: names' =>
      let* _ := stopPlugin plugin_name in
      stop_each names'
  end.

(** [run], for the events that the listener task and the plugins put
    into the queue. *)
Definition run (self_client : client.t)
    (self_plugins : list (string * Plugin.t)) (self_events : list pystr)
    (queue : list (Event.t * (Task → bool))) : M RunAll run_outcome :=
  let* _ := debug_before (start_event_listener self_events) in
  let* _ := debug_before start_central_queue in
  let* c := with_loop (run_loop self_client self_plugins queue) in
  match c with
  | Continue => ret Waiting
  | Break =>
      let* _ := debug_after stopping_plugins in
      let* _ := stop_each (self_plugins.*1) in
      ret Returned
  end.

(** * Theorems *)


(** ** The command line *)

Lemma skip_space_drop_while s : skip_space s = drop_while isspace s.
Proof. induction s as [|c s IH]; simpl; [done|]. by rewrite IH. Qed.

Lemma scan_word_take_drop s :
  scan_word s = (take_while nonspace s, drop_while nonspace s).
Proof.
  induction s as [|c s IH]; simpl; [done|].
  unfold nonspace at 1 3. destruct (isspace c); simpl; [done|].
  by rewrite IH.
Qed.

Lemma drop_while_head_false {A} (p : A → bool) l x l' :
  drop_while p l = x :: l' → p x = false.
Proof.
  induction l as [|y l IH]; simpl; [done|].
  destruct (p y) eqn:Hy; [done|]. by intros [= -> _].
Qed.

(** [content.split(maxsplit=1)] has at most two elements: the first
    token, and what follows the white space after it. *)
Lemma split_whitespace_1 s :
  split_whitespace 1 s =
    match drop_while isspace s with
    | [] => []
    | _ :: _ =>
        match remainder s with
        | [] => [first_token s]
        | _ :: _ => [first_token s; remainder s]
        end
    end.
Proof.
  unfold split_whitespace, first_token, remainder.
  rewrite skip_space_drop_while.
  destruct (drop_while isspace s) as [|c r] eqn:Hs; [done|].
  rewrite scan_word_take_drop, skip_space_drop_while.
  by destruct (drop_while isspace (drop_while nonspace (c :: r))).
Qed.

Lemma first_token_no_token s :
  drop_while isspace s = [] → first_token s = [] ∧ remainder s = [].
Proof. unfold first_token, remainder. by intros ->. Qed.

Lemma command_name_first_token s :
  (if bool_decide (0 < length (split_whitespace 1 s))%nat
   then nth 0 (split_whitespace 1 s) [] else []) = first_token s.
Proof.
  rewrite split_whitespace_1.
  destruct (drop_while isspace s) eqn:Hs.
  - by destruct (first_token_no_token s Hs) as [-> _].
  - by destruct (remainder s).
Qed.

Lemma command_remainder s :
  (if bool_decide (1 < length (split_whitespace 1 s))%nat
   then nth 1 (split_whitespace 1 s) [] else []) = remainder s.
Proof.
  rewrite split_whitespace_1.
  destruct (drop_while isspace s) eqn:Hs.
  - by destruct (first_token_no_token s Hs) as [_ ->].
  - by destruct (remainder s).
Qed.


Lemma eq_str_VStr s t : eq_str (VStr s) t = bool_decide (s = t).
Proof. done. Qed.

Lemma eq_int_VInt z n : eq_int (VInt z) n = bool_decide (z = n).
Proof. done. Qed.
Lemma eq_str_message : eq_str (VStr (str "message")) (str "message") = true.
Proof. done. Qed.

Ltac run_monad := cbv beta iota zeta delta [bind lift ret or_ and_ not_ raise negb fst snd getitem startswith slice_from split].

Lemma preprocess_message_event c event md content sender mtype lg :
  message_event event md content sender mtype →
  zulip_event_preprocess c event lg =
    if bool_decide (sender = client.id c) then (Ok event, lg)
    else if bool_decide (mtype = str "private") then
      if startswith_str content (client.ping c) then (Ok event, lg)
      else
        match client.is_only_pm_recipient c (VDict md) with
        | Ok true => command_result event md content lg
        | Ok false => (Ok event, lg)
        | Raise e => (Raise e, lg)
        end
    else
      if startswith_str content (client.ping c)
      then command_result event md (drop (client.ping_len c) content) lg
      else (Ok event, lg).
Proof.
  intros [Hty Hmsg Hct Hsender Hmt].
  unfold zulip_event_preprocess, dict_getitem.
  cbn [getitem]. rewrite Hty, Hmsg. run_monad.
  rewrite eq_str_message. run_monad. cbn [getitem]. rewrite Hct, Hsender, Hmt.
  run_monad. cbn [startswith slice_from split]. run_monad.
  rewrite eq_int_VInt, eq_str_VStr.
  destruct (bool_decide (sender = client.id c)); run_monad; [done|].
  destruct (bool_decide (mtype = str "private")) eqn:Hp;
    destruct (startswith_str content (client.ping c)); run_monad; try done.
  - destruct (client.is_only_pm_recipient c (VDict md)) as [[|]|]; try done.
    by rewrite command_name_first_token, command_remainder.
  - by rewrite command_name_first_token, command_remainder.
Qed.

Lemma startswith_str_app s p :
  startswith_str s p = true → s = p ++ drop (length p) s.
Proof.
  revert s. induction p as [|x p IH]; intros [|c s]; simpl; try done.
  intros [Hc Hs]%andb_prop. apply bool_decide_eq_true_1 in Hc as ->.
  f_equal. by apply IH.
Qed.

Lemma command_line_result c event md content sender mtype line lg :
  message_event event md content sender mtype →
  command_line c md content sender mtype line →
  zulip_event_preprocess c event lg = command_result event md line lg.
Proof.
  intros Hev [Hsender Hline].
  rewrite (preprocess_message_event c event md content sender mtype lg Hev).
  rewrite bool_decide_eq_false_2 by done.
  destruct Hline as [(Hmt & Hsw & ->)|(Hmt & Hsw & Honly & ->)].
  - rewrite bool_decide_eq_false_2 by done. by rewrite Hsw.
  - rewrite bool_decide_eq_true_2 by done. by rewrite Hsw, Honly.
Qed.

(** C1: a message outside the private conversations, not sent by the
    bot, whose content starts with the mention of the bot, comes back
    with [command_name], the first token of what follows the mention,
    and [command], the remainder after that token, attached to its
    message. *)
Theorem preprocess_mention_command c event md content sender mtype lg :
  message_event event md content sender mtype →
  mtype ≠ str "private" →
  sender ≠ client.id c →
  client.ping_len c = length (client.ping c) →
  startswith_str content (client.ping c) = true →
  ∃ line,
    content = client.ping c ++ line ∧
    fst (zulip_event_preprocess c event lg) =
      Ok (with_command event md (first_token line) (remainder line)).
Proof.
  intros Hev Hmt Hsender Hlen Hsw.
  exists (drop (client.ping_len c) content). split.
  - rewrite Hlen. by apply startswith_str_app.
  - by rewrite (command_line_result c event md content sender mtype
                  (drop (client.ping_len c) content) lg Hev);
      [|split; [done|left]].
Qed.

Lemma preprocess_mention_command_witness :
  fst (zulip_event_preprocess bot
         (message_event_of "stream" 3 (str "@**Bot** create foo") [])
         (logger logging.WARNING)) =
    Ok (with_command
          (message_event_of "stream" 3 (str "@**Bot** create foo") [])
          (message_of "stream" 3 (str "@**Bot** create foo") [])
          (str "create") (str "foo")).
Proof.
  destruct (preprocess_mention_command bot
              (message_event_of "stream" 3 (str "@**Bot** create foo") [])
              (message_of "stream" 3 (str "@**Bot** create foo") [])
              (str "@**Bot** create foo") 3 (str "stream")
              (logger logging.WARNING))
    as (line & Hline & ->); [by split|done..|].
  change (client.ping bot ++ str " create foo" = client.ping bot ++ line)
    in Hline.
  apply app_inv_head in Hline. by rewrite <- Hline.
Defined.

(** C2: a private message that the bot did not send, of which the bot is
    the only other recipient and whose content does not start with the
    mention, comes back with [command_name], the first token of its whole
    content, and [command], the remainder, attached: no prefix is
    stripped. *)
Theorem preprocess_private_command c event md content sender lg :
  message_event event md content sender (str "private") →
  sender ≠ client.id c →
  client.is_only_pm_recipient c (VDict md) = Ok true →
  startswith_str content (client.ping c) = false →
  fst (zulip_event_preprocess c event lg) =
    Ok (with_command event md (first_token content) (remainder content)).
Proof.
  intros Hev Hsender Honly Hsw.
  by rewrite (command_line_result c event md content sender (str "private")
                content lg Hev); [|split; [done|right]].
Qed.

Lemma preprocess_private_command_witness :
  fst (zulip_event_preprocess bot
         (message_event_of "private" 3 (str "create foo") [3; 7])
         (logger logging.WARNING)) =
    Ok (with_command
          (message_event_of "private" 3 (str "create foo") [3; 7])
          (message_of "private" 3 (str "create foo") [3; 7])
          (str "create") (str "foo")).
Proof.
  apply (preprocess_private_command bot
           (message_event_of "private" 3 (str "create foo") [3; 7])
           (message_of "private" 3 (str "create foo") [3; 7])
           (str "create foo") 3 (logger logging.WARNING)).
  - by split.
  - done.
  - done.
  - done.
Defined.


(** ** The shape of every run of the preprocessing *)

Ltac leaf :=
  intros; unfold zulip_event_preprocess, dict_getitem;
  repeat (progress (run_monad;
                    repeat match goal with
                           | H : _ = Some _ |- _ => rewrite H
                           | H : _ = None |- _ => rewrite H
                           | H : eq_str _ _ = _ |- _ => rewrite H
                           | H : eq_int _ _ = _ |- _ => rewrite H
                           | H : startswith_str _ _ = _ |- _ => rewrite H
                           | H : client.is_only_pm_recipient _ _ = _ |- _ =>
                               rewrite H
                           end));
  rewrite ?command_name_first_token, ?command_remainder;
  try done.

Lemma preprocess_shape c event :
  ∃ r, (∀ lg, zulip_event_preprocess c event lg = shape event r lg) ∧
       (∀ md line, r = Ok (Some (md, line)) →
                   event !! "message" = Some (VDict md)).
Proof.
  pose (T := result (option (dict * pystr))).
  destruct (event !! "type") as [ty|] eqn:Hty.
  2: exists (Raise (KeyError "type") : T); split; [leaf|done].
  destruct (eq_str ty (str "message")) eqn:Hm.
  2: exists (Ok None : T); split; [leaf|done].
  destruct (event !! "message") as [m|] eqn:Hmsg.
  2: exists (Raise (KeyError "message") : T); split; [leaf|done].
  destruct m as [|?|?|?|?|md].
  1-5: exists (Raise TypeError : T); split; [leaf|done].
  destruct (md !! "content") as [ct|] eqn:Hct.
  2: exists (Raise (KeyError "content") : T); split; [leaf|done].
  destruct ct as [|?|?|content|?|?].
  1-3, 5-6: exists (Raise AttributeError : T); split; [leaf|done].
  destruct (md !! "sender_id") as [sv|] eqn:Hsv.
  2: exists (Raise (KeyError "sender_id") : T); split; [leaf|done].
  destruct (eq_int sv (client.id c)) eqn:Hid.
  1: exists (Ok None : T); split; [leaf|done].
  destruct (md !! "type") as [tv|] eqn:Htv.
  2: exists (Raise (KeyError "type") : T); split; [leaf|done].
  destruct (eq_str tv (str "private")) eqn:Hp;
    destruct (startswith_str content (client.ping c)) eqn:Hsw.
  - exists (Ok None : T); split; [leaf|done].
  - destruct (client.is_only_pm_recipient c (VDict md)) as [[|]|e] eqn:Ho.
    + exists (Ok (Some (md, content))). split; [leaf|]. by intros ?? [= <- _].
    + exists (Ok None : T); split; [leaf|done].
    + exists (Raise e : T); split; [leaf|done].
  - exists (Ok (Some (md, drop (client.ping_len c) content))).
    split; [leaf|]. by intros ?? [= <- _].
  - exists (Ok None : T); split; [leaf|done].
Qed.

(** The result of the preprocessing does not depend on the logger. *)
Lemma preprocess_fst c event lg lg' :
  fst (zulip_event_preprocess c event lg)
  = fst (zulip_event_preprocess c event lg').
Proof.
  destruct (preprocess_shape c event) as (r & Hr & _).
  rewrite !Hr. by destruct r as [[[md line]|]|e].
Qed.

(** The preprocessing leaves every field of the event but [message] as
    it was. *)
Lemma preprocess_other_fields c event event' lg k :
  fst (zulip_event_preprocess c event lg) = Ok event' →
  k ≠ "message" →
  event' !! k = event !! k.
Proof.
  destruct (preprocess_shape c event) as (r & Hr & _). rewrite Hr.
  destruct r as [[[md line]|]|e]; simpl; intros [= <-] Hk; [|done].
  unfold with_command. by rewrite lookup_insert_ne.
Qed.


(** ** Messages that are no commands *)

(** C3: a message event whose sender is the bot itself comes back as it
    was, with nothing attached and nothing logged, also when it is
    preprocessed a second time; and whenever the preprocessing returned an
    event as it was, preprocessing the result again returns that event. *)
Theorem preprocess_own_message c event md content mtype lg :
  message_event event md content (client.id c) mtype →
  zulip_event_preprocess c event lg = (Ok event, lg) ∧
  preprocess_twice c event lg = (Ok event, lg) ∧
  (∀ e lg0, fst (zulip_event_preprocess c e lg0) = Ok e →
            fst (preprocess_twice c e lg0) = Ok e).
Proof.
  intros Hev.
  assert (∀ lg, zulip_event_preprocess c event lg = (Ok event, lg)) as Hown.
  { intros lg0.
    rewrite (preprocess_message_event c event md content
               (client.id c) mtype lg0 Hev).
    by rewrite bool_decide_eq_true_2. }
  split; [done|]. split.
  - unfold preprocess_twice, bind. by rewrite !Hown.
  - intros e lg0 He. unfold preprocess_twice, bind.
    destruct (zulip_event_preprocess c e lg0) as [r lg1] eqn:Hfirst.
    simpl in He. subst r.
    by rewrite (preprocess_fst c e lg1 lg0), Hfirst.
Qed.

Lemma preprocess_own_message_witness :
  zulip_event_preprocess bot
    (message_event_of "stream" 7 (str "@**Bot** create foo") [])
    (logger logging.DEBUG)
  = (Ok (message_event_of "stream" 7 (str "@**Bot** create foo") []),
     logger logging.DEBUG).
Proof.
  apply (preprocess_own_message bot
           (message_event_of "stream" 7 (str "@**Bot** create foo") [])
           (message_of "stream" 7 (str "@**Bot** create foo") [])
           (str "@**Bot** create foo") (str "stream")
           (logger logging.DEBUG)).
  by split.
Defined.

(** C4: a private message that the bot did not send comes back as it
    was, with nothing attached and nothing logged, if its content starts
    with the mention of the bot, or if the bot is not its only other
    recipient. *)
Theorem preprocess_private_excluded c event md content sender lg :
  message_event event md content sender (str "private") →
  sender ≠ client.id c →
  startswith_str content (client.ping c) = true
  ∨ client.is_only_pm_recipient c (VDict md) = Ok false →
  zulip_event_preprocess c event lg = (Ok event, lg).
Proof.
  intros Hev Hsender Hexcl.
  rewrite (preprocess_message_event c event md content sender
             (str "private") lg Hev).
  rewrite bool_decide_eq_false_2, bool_decide_eq_true_2 by done.
  destruct Hexcl as [->|Honly]; [done|].
  rewrite Honly. by destruct (startswith_str _ _).
Qed.

Lemma preprocess_private_excluded_witness :
  zulip_event_preprocess bot
    (message_event_of "private" 3 (str "create foo") [3; 7; 8])
    (logger logging.DEBUG)
  = (Ok (message_event_of "private" 3 (str "create foo") [3; 7; 8]),
     logger logging.DEBUG)
  ∧
  zulip_event_preprocess bot
    (message_event_of "private" 3 (str "@**Bot** create foo") [3; 7])
    (logger logging.DEBUG)
  = (Ok (message_event_of "private" 3 (str "@**Bot** create foo") [3; 7]),
     logger logging.DEBUG).
Proof.
  split.
  - apply (preprocess_private_excluded bot
             (message_event_of "private" 3 (str "create foo") [3; 7; 8])
             (message_of "private" 3 (str "create foo") [3; 7; 8])
             (str "create foo") 3 (logger logging.DEBUG)).
    + by split.
    + done.
    + by right.
  - apply (preprocess_private_excluded bot
             (message_event_of "private" 3 (str "@**Bot** create foo") [3; 7])
             (message_of "private" 3 (str "@**Bot** create foo") [3; 7])
             (str "@**Bot** create foo") 3 (logger logging.DEBUG)).
    + by split.
    + done.
    + by left.
Defined.

(** With the client as the specification describes it, one recipient
    besides the bot and the sender is enough for the exclusion. *)
Lemma is_only_pm_recipient_model_extra bot_id mtype sender content rs r :
  r ∈ rs → r ≠ sender → r ≠ bot_id →
  is_only_pm_recipient_model bot_id
    (VDict (message_of mtype sender content rs)) = Ok false.
Proof.
  intros Hr Hrs Hrb. unfold is_only_pm_recipient_model, message_of.
  cbn [getitem].
  repeat first [rewrite lookup_insert_eq
               |rewrite lookup_singleton_eq
               |rewrite lookup_insert_ne by done].
  destruct (negb _ || _); [done|].
  assert (recipient_ids (recipient <$> rs) = Ok rs) as ->.
  { clear. induction rs as [|z rs IH]; [done|].
    cbn [fmap list_fmap recipient_ids]. fold (recipient <$> rs).
    rewrite IH. unfold recipient_id, recipient. cbn [getitem].
    by rewrite lookup_singleton_eq. }
  f_equal. apply andb_false_intro2.
  apply not_true_iff_false. intros Hall.
  rewrite forallb_forall in Hall.
  assert (r ∈ filter (λ z, z ≠ sender) rs) as Hin
    by (by apply list_elem_of_filter).
  apply list_elem_of_In, Hall, bool_decide_eq_true_1 in Hin. done.
Qed.

(** ** Command lines without arguments *)

Lemma drop_while_all {A} (p : A → bool) l :
  forallb p l = true → drop_while p l = [].
Proof.
  induction l as [|x l IH]; simpl; [done|].
  intros [-> Hl]%andb_prop. by apply IH.
Qed.

Lemma drop_while_app_all {A} (p : A → bool) l l' :
  forallb p l = true → drop_while p (l ++ l') = drop_while p l'.
Proof.
  induction l as [|x l IH]; simpl; [done|].
  intros [-> Hl]%andb_prop. by apply IH.
Qed.

Lemma take_while_app_all {A} (p : A → bool) l l' :
  forallb p l = true → take_while p (l ++ l') = l ++ take_while p l'.
Proof.
  induction l as [|x l IH]; simpl; [done|].
  intros [-> Hl]%andb_prop. by rewrite IH.
Qed.

Lemma take_while_all_not {A} (p : A → bool) l :
  forallb (λ x, negb (p x)) l = true → take_while p l = [].
Proof. destruct l as [|x l]; simpl; [done|]. by destruct (p x). Qed.

Lemma drop_while_all_not {A} (p : A → bool) l :
  forallb (λ x, negb (p x)) l = true → drop_while p l = l.
Proof. destruct l as [|x l]; simpl; [done|]. by destruct (p x). Qed.

Lemma forallb_isspace_not_nonspace l :
  forallb isspace l = true → forallb (λ c, negb (nonspace c)) l = true.
Proof.
  intros H. rewrite forallb_forall in *. intros x Hx.
  unfold nonspace. by rewrite (H x Hx).
Qed.

(** A line made of a token, white space around it at most. *)
Lemma single_token lead tok trail :
  forallb isspace lead = true →
  forallb nonspace tok = true →
  forallb isspace trail = true →
  first_token (lead ++ tok ++ trail) = tok
  ∧ remainder (lead ++ tok ++ trail) = [].
Proof.
  intros Hlead Htok Htrail. destruct tok as [|c tok].
  { apply first_token_no_token, drop_while_all.
    simpl. rewrite forallb_app. by rewrite Hlead, Htrail. }
  unfold first_token, remainder.
  rewrite (drop_while_app_all _ _ _ Hlead).
  assert (drop_while isspace ((c :: tok) ++ trail) = (c :: tok) ++ trail)
    as ->.
  { simpl in Htok. apply andb_prop in Htok as [Hc _].
    unfold nonspace in Hc. simpl. by destruct (isspace c). }
  split.
  - rewrite (take_while_app_all _ _ _ Htok).
    rewrite (take_while_all_not nonspace trail), app_nil_r;
      [done|by apply forallb_isspace_not_nonspace].
  - rewrite (drop_while_app_all _ _ _ Htok).
    rewrite (drop_while_all_not nonspace trail)
      by by apply forallb_isspace_not_nonspace.
    by apply drop_while_all.
Qed.

(** C10: when the line of a command is empty or white space only, the
    preprocessing still succeeds and attaches the empty string as
    [command_name] and as [command]; when the line is a single token,
    [command_name] is that token and [command] is the empty string. *)
Theorem preprocess_short_command_line c event md content sender mtype
    line lg :
  message_event event md content sender mtype →
  command_line c md content sender mtype line →
  (forallb isspace line = true →
   fst (zulip_event_preprocess c event lg)
   = Ok (with_command event md [] [])) ∧
  (∀ lead tok trail,
     line = lead ++ tok ++ trail →
     forallb isspace lead = true →
     forallb nonspace tok = true →
     forallb isspace trail = true →
     fst (zulip_event_preprocess c event lg)
     = Ok (with_command event md tok [])).
Proof.
  intros Hev Hline.
  rewrite (command_line_result c event md content sender mtype line lg
             Hev Hline).
  unfold command_result. cbn [fst]. split.
  - intros Hws.
    by destruct (first_token_no_token line (drop_while_all _ _ Hws))
      as [-> ->].
  - intros lead tok trail -> Hlead Htok Htrail.
    by destruct (single_token lead tok trail Hlead Htok Htrail) as [-> ->].
Qed.

Lemma preprocess_short_command_line_witness :
  fst (zulip_event_preprocess bot
         (message_event_of "stream" 3 (str "@**Bot**  ") [])
         (logger logging.WARNING))
  = Ok (with_command
          (message_event_of "stream" 3 (str "@**Bot**  ") [])
          (message_of "stream" 3 (str "@**Bot**  ") []) [] [])
  ∧
  fst (zulip_event_preprocess bot
         (message_event_of "private" 3 (str " help ") [3; 7])
         (logger logging.WARNING))
  = Ok (with_command
          (message_event_of "private" 3 (str " help ") [3; 7])
          (message_of "private" 3 (str " help ") [3; 7]) (str "help") []).
Proof.
  split.
  - apply (preprocess_short_command_line bot
             (message_event_of "stream" 3 (str "@**Bot**  ") [])
             (message_of "stream" 3 (str "@**Bot**  ") [])
             (str "@**Bot**  ") 3 (str "stream") (str "  ")
             (logger logging.WARNING)).
    + by split.
    + split; [done|]. left. by split.
    + done.
  - apply (proj2 (preprocess_short_command_line bot
             (message_event_of "private" 3 (str " help ") [3; 7])
             (message_of "private" 3 (str " help ") [3; 7])
             (str " help ") 3 (str "private") (str " help ")
             (logger logging.WARNING)
             ltac:(by split)
             ltac:(split; [done|]; right; by split))
           (str " ") (str "help") (str " ")); done.
Defined.

(** ** The main loop *)

Ltac run_loop_monad :=
  cbv beta iota zeta delta
    [bind lift ret raise get try_except with_log set_tasks set_restart
     set_stopped create_task logging.debug logging.exception logging.log
     fst snd];
  cbn [stopped restart tasks created log].

Lemma fan_out_created ps event st :
  ∃ st', fan_out ps event st = (Ok tt, st') ∧
         stopped st' = stopped st ∧ restart st' = restart st ∧
         created st' = created st ++ responsible_tasks ps event.
Proof.
  revert st. induction ps as [|[name p] ps IH]; intros st.
  - exists st. by rewrite app_nil_r.
  - cbn [fan_out]. unfold responsible_tasks.
    rewrite filter_cons. cbn [snd].
    destruct (Plugin.is_responsible p event) eqn:Hp.
    + rewrite decide_True by done. run_loop_monad.
      match goal with |- context [fan_out ps event ?s] =>
        destruct (IH s) as (st' & -> & ? & ? & Hc) end.
      exists st'. repeat split; try done.
      rewrite Hc. cbn [created fmap list_fmap]. by rewrite <- app_assoc.
    + rewrite decide_False by done. run_loop_monad.
      destruct (IH st) as (st' & -> & ? & ? & Hc). by exists st'.
Qed.

Lemma iteration_stop c ps event done st :
  stopped st || EventType.eqb (Event.type event) EventType._EMPTY = true →
  ∃ st', iteration c ps event done st = (Ok Break, st') ∧
         stopped st' = true ∧ created st' = created st.
Proof.
  intros Hstop. unfold iteration. run_loop_monad. rewrite Hstop.
  destruct (_ && _); run_loop_monad; by eexists.
Qed.

Lemma iteration_heartbeat c ps event done st :
  stopped st || EventType.eqb (Event.type event) EventType._EMPTY = false →
  EventType.eqb (Event.type event) EventType.ZULIP = true →
  is_heartbeat event = true →
  iteration c ps event done st = (Ok Continue, entered done st).
Proof.
  intros Hstop Hz Hh. unfold iteration. run_loop_monad.
  rewrite Hstop, Hz. unfold is_heartbeat in Hh.
  destruct (getitem (Event.data event) "type") as [ty|]; [|done].
  by rewrite Hh.
Qed.

Lemma iteration_no_type c ps event done st e :
  stopped st || EventType.eqb (Event.type event) EventType._EMPTY = false →
  EventType.eqb (Event.type event) EventType.ZULIP = true →
  getitem (Event.data event) "type" = Raise e →
  iteration c ps event done st = (Raise e, entered done st).
Proof.
  intros Hstop Hz Hh. unfold iteration. run_loop_monad.
  by rewrite Hstop, Hz, Hh.
Qed.

Lemma iteration_other c ps event done st :
  stopped st || EventType.eqb (Event.type event) EventType._EMPTY = false →
  EventType.eqb (Event.type event) EventType.ZULIP = false →
  iteration c ps event done st = (Ok Continue, entered done st).
Proof.
  intros Hstop Hz. unfold iteration. run_loop_monad.
  by rewrite Hstop, Hz.
Qed.

Lemma iteration_preprocess_raises c ps event d done st e :
  stopped st || EventType.eqb (Event.type event) EventType._EMPTY = false →
  EventType.eqb (Event.type event) EventType.ZULIP = true →
  Event.data event = VDict d →
  is_Some (d !! "type") →
  is_heartbeat event = false →
  fst (zulip_event_preprocess c d (log (entered done st))) = Raise e →
  iteration c ps event done st = (Ok Continue, dropped e done st).
Proof.
  intros Hstop Hz Hd [ty Hty] Hh He. unfold iteration. run_loop_monad.
  rewrite Hstop, Hz. unfold is_heartbeat in Hh. rewrite Hd in *.
  cbn [getitem] in *. rewrite Hty in *. rewrite Hh.
  unfold preprocess_data. run_loop_monad.
  destruct (preprocess_shape c d) as (r & Hr & _).
  unfold entered in He. cbn [log] in He. rewrite Hr in He |- *.
  destruct r as [[[md line]|]|x]; simpl in He; try done.
  injection He as ->. done.
Qed.

Lemma iteration_preprocess_returns c ps event d d' done st :
  stopped st || EventType.eqb (Event.type event) EventType._EMPTY = false →
  EventType.eqb (Event.type event) EventType.ZULIP = true →
  Event.data event = VDict d →
  is_heartbeat event = false →
  fst (zulip_event_preprocess c d (log (entered done st))) = Ok d' →
  ∃ st', iteration c ps event done st = (Ok Continue, st') ∧
         stopped st' = stopped st ∧ restart st' = restart st ∧
         created st' =
           created st
           ++ responsible_tasks ps (Event.set_data event (VDict d')).
Proof.
  intros Hstop Hz Hd Hh He. unfold iteration. run_loop_monad.
  rewrite Hstop, Hz. unfold is_heartbeat in Hh. rewrite Hd in *.
  destruct (getitem (VDict d) "type") as [ty|] eqn:Hty.
  2: { exfalso. cbn [getitem] in Hty.
       destruct (preprocess_shape c d) as (r & Hr & _).
       rewrite Hr in He. revert Hr.
       unfold zulip_event_preprocess, dict_getitem. run_monad.
       destruct (d !! "type"); [done|]. run_monad.
       intros Hr. specialize (Hr (log st)).
       destruct r as [[[md line]|]|x]; simpl in *; done. }
  rewrite Hh. unfold preprocess_data. run_loop_monad.
  unfold entered in He. cbn [log] in He.
  destruct (zulip_event_preprocess c d _) as [[d''|x] lg'] eqn:Hp;
    simpl in He; [|done].
  injection He as ->. run_loop_monad.
  match goal with |- context [fan_out ps ?ev ?s] =>
    destruct (fan_out_created ps ev s) as (st' & -> & ? & ? & Hc) end.
  by exists st'.
Qed.

(** The preprocessing keeps the type of the event, so what was no
    heartbeat before is none after. *)
Lemma preprocess_keeps_heartbeat c event d d' lg :
  Event.data event = VDict d →
  fst (zulip_event_preprocess c d lg) = Ok d' →
  is_heartbeat (Event.set_data event (VDict d')) = is_heartbeat event.
Proof.
  intros Hd Hp. unfold is_heartbeat, Event.set_data. cbn [Event.data].
  rewrite Hd. cbn [getitem].
  by rewrite (preprocess_other_fields c d d' lg "type" Hp).
Qed.

Lemma responsible_tasks_event ps event :
  Forall (λ t, task_event t = event) (responsible_tasks ps event).
Proof.
  unfold responsible_tasks. apply Forall_fmap, Forall_forall. done.
Qed.

(** One turn schedules handlers for an event that is no heartbeat, or
    none at all. *)
Lemma iteration_created c ps event done st :
  ∃ new,
    created (snd (iteration c ps event done st)) = created st ++ new ∧
    Forall (λ t, is_heartbeat (task_event t) = false) new.
Proof.
  destruct (stopped st || EventType.eqb (Event.type event) EventType._EMPTY)
    eqn:Hstop.
  { destruct (iteration_stop c ps event done st Hstop) as (st' & -> & _ & Hc).
    exists []. by rewrite app_nil_r. }
  destruct (EventType.eqb (Event.type event) EventType.ZULIP) eqn:Hz.
  2: { rewrite iteration_other by done. exists []. by rewrite app_nil_r. }
  destruct (getitem (Event.data event) "type") as [ty|e] eqn:Hty.
  2: { rewrite (iteration_no_type c ps event done st e) by done.
       exists []. by rewrite app_nil_r. }
  destruct (is_heartbeat event) eqn:Hh.
  { rewrite iteration_heartbeat by done. exists []. by rewrite app_nil_r. }
  destruct (Event.data event) as [| | | | |d] eqn:Hd; try done.
  cbn [getitem] in Hty.
  destruct (fst (zulip_event_preprocess c d (log (entered done st))))
    as [d'|e] eqn:Hp.
  - destruct (iteration_preprocess_returns c ps event d d' done st)
      as (st' & -> & _ & _ & Hc); try done.
    exists (responsible_tasks ps (Event.set_data event (VDict d'))).
    split; [done|].
    eapply Forall_impl; [apply responsible_tasks_event|].
    intros t ->. simpl.
    by rewrite (preprocess_keeps_heartbeat c event d d' _ Hd Hp).
  - rewrite (iteration_preprocess_raises c ps event d done st e);
      try done.
    + exists []. by rewrite app_nil_r.
    + destruct (d !! "type"); [by eexists|done].
Qed.

Lemma run_loop_created c ps queue st :
  ∃ new,
    created (snd (run_loop c ps queue st)) = created st ++ new ∧
    Forall (λ t, is_heartbeat (task_event t) = false) new.
Proof.
  revert st. induction queue as [|[event done] queue IH]; intros st.
  - exists []. by rewrite app_nil_r.
  - cbn [run_loop]. unfold bind.
    destruct (iteration_created c ps event done st) as (new1 & Hc1 & Hf1).
    destruct (iteration c ps event done st) as [[[|]|e] st1];
      cbn [snd] in Hc1; cbn [snd ret].
    + destruct (IH st1) as (new2 & Hc2 & Hf2).
      exists (new1 ++ new2). rewrite Hc2, Hc1, app_assoc.
      split; [done|]. by apply Forall_app.
    + by exists new1.
    + by exists new1.
Qed.

(** C5: a heartbeat of the Zulip server is skipped before the
    preprocessing and the fan-out: the turn of the loop leaves the state
    as it was on entry; and whatever the queue delivers, in whatever
    state, no handler is ever scheduled for a heartbeat. *)
Theorem heartbeat_never_scheduled c ps :
  (∀ event done st,
     stopped st = false →
     Event.type event = EventType.ZULIP →
     is_heartbeat event = true →
     iteration c ps event done st = (Ok Continue, entered done st)) ∧
  (∀ queue st,
     ∃ new,
       created (snd (run_loop c ps queue st)) = created st ++ new ∧
       Forall (λ t, is_heartbeat (task_event t) = false) new).
Proof.
  split.
  - intros event done st Hs Hz Hh. apply iteration_heartbeat; [|by rewrite Hz|done].
    by rewrite Hs, Hz.
  - apply run_loop_created.
Qed.

Lemma heartbeat_never_scheduled_witness :
  iteration bot [] (zulip_event heartbeat) (λ _, false)
    (initial_state logging.WARNING)
  = (Ok Continue, entered (λ _, false) (initial_state logging.WARNING)).
Proof.
  by apply (proj1 (heartbeat_never_scheduled bot [])).
Defined.


(** ** The start of the plugins *)

(** C6, at two plugin classes that share the name [a]: [startPlugins]
    does not fail. The dict comprehensions keep one entry for the name,
    the sorter passes it out once, and the test for a plugin that appears
    twice never fires: the second class is instantiated, the first one
    is dropped. *)
Theorem startPlugins_shared_name_not_detected :
  startPlugins remove_dups
    [plugin_class "First" "a" []; plugin_class "Second" "a" []] start_state
  = (Ok tt,
     {| plugins := [("a", PluginClass.new (plugin_class "Second" "a" []))];
        instantiated := ["Second"];
        start_log := logger logging.WARNING |}).
Proof. reflexivity. Qed.

(** ** The course plugin *)

(** C7: [create_empty] and [create] do not reject the name of a course
    that exists, or the emoji of a stream group that exists, with a
    [DMError]: their first statement is [session.query(CourseDB)], which
    configures the mappers, and [CourseDB] declares its relationships
    [_streams] and [_tutors], whose foreign keys it holds itself, with the
    cascade [delete-orphan]. So for every name, every emoji and every
    option the query raises [ArgumentError], and the tests of the name and
    of the emoji are not reached; the session, the database and the Zulip
    server are as they were. *)
Theorem create_raises_ArgumentError {ZulipStream Chat : Type}
    (Streamgroup__create_and_get_group :
       pystr → pystr → M (World ZulipStream Chat) StreamGroup)
    (Streamgroup__add_zulip_streams :
       list ZulipStream → StreamGroup → M (World ZulipStream Chat) unit)
    (Usergroup_create_and_get_group :
       pystr → M (World ZulipStream Chat) UserGroup)
    (Usergroup_get_user_ids_for_group :
       UserGroup → M (World ZulipStream Chat) (list Z))
    (Streams_create : pystr → pystr → M (World ZulipStream Chat) unit)
    (ZulipStream_await : pystr → M (World ZulipStream Chat) ZulipStream)
    (stream_name : ZulipStream → pystr)
    (subscribe_users : list Z → pystr → M (World ZulipStream Chat) unit)
    (name emoji : pystr) (opts_i opts_s : bool)
    (opts_sg : option StreamGroup) (opts_t : option UserGroup)
    (opts_tuts opts_ins : option ZulipStream)
    (w : World ZulipStream Chat) :
  orm.configure_mappers [CourseDB_mapper] = Raise ArgumentError ∧
  Course.create_empty Streamgroup__create_and_get_group
    Streamgroup__add_zulip_streams Usergroup_create_and_get_group
    Streams_create ZulipStream_await name emoji opts_i opts_s w
  = (Raise ArgumentError, w) ∧
  Course.create Streamgroup__create_and_get_group
    Streamgroup__add_zulip_streams Usergroup_create_and_get_group
    Usergroup_get_user_ids_for_group Streams_create ZulipStream_await
    stream_name subscribe_users name emoji opts_sg opts_t opts_tuts
    opts_ins w
  = (Raise ArgumentError, w).
Proof. by repeat split. Qed.

(** C8, at a course that references the stream group [sg1]:
    [_update_streamgroup] fails before it compares or changes anything,
    with the group the course has as with another one. The look-up of the
    current group filters on [StreamGroup.CouseId]: without such an
    attribute it raises [AttributeError]; with a column of that name,
    which holds the id of a course, no row equals the id of the stream
    group and [one()] raises [NoResultFound]. *)
Theorem update_streamgroup_lookup_fails :
  let course := course_row 1 "Logic" "sg1" 10 in
  let current_group := stream_group "sg1" "books" 1 in
  let other_group := stream_group "sg2" "robot" 2 in
  _update_streamgroup None course current_group example_world
  = (Raise AttributeError, example_world) ∧
  _update_streamgroup None course other_group example_world
  = (Raise AttributeError, example_world) ∧
  _update_streamgroup (Some CouseId_column) course current_group
    example_world
  = (Raise NoResultFound, example_world) ∧
  _update_streamgroup (Some CouseId_column) course other_group
    example_world
  = (Raise NoResultFound, example_world).
Proof. by repeat split. Qed.

(** * Further properties of the dispatcher *)

(** ** The preprocessing, path by path *)

(** [zulip_event_preprocess] on any event whatever, well formed or not:
    [classify] tells the path, the logger only receives the debug
    record. *)
Lemma preprocess_classify c event lg :
  zulip_event_preprocess c event lg = shape event (classify c event) lg.
Proof.
  unfold classify.
  destruct (event !! "type") as [ty|] eqn:Hty; [|by leaf].
  destruct (eq_str ty (str "message")) eqn:Hm; cbn [negb]; [|by leaf].
  destruct (event !! "message") as [m|] eqn:Hmsg; [|by leaf].
  destruct m as [|?|?|?|?|md]; try by leaf.
  destruct (md !! "content") as [ct|] eqn:Hct; [|by leaf].
  destruct ct as [|?|?|content|?|?]; try by leaf.
  destruct (md !! "sender_id") as [sv|] eqn:Hsv; [|by leaf].
  destruct (eq_int sv (client.id c)) eqn:Hid; [by leaf|].
  destruct (md !! "type") as [tv|] eqn:Htv; [|by leaf].
  cbn zeta.
  destruct (eq_str tv (str "private")) eqn:Hp;
    destruct (startswith_str content (client.ping c)) eqn:Hsw;
    try by leaf.
  destruct (client.is_only_pm_recipient c (VDict md)) as [[|]|e] eqn:Ho;
    by leaf.
Qed.

(** X1: The exceptions of the preprocessing: a missing key, a value of the
    wrong type, or what [is_only_pm_recipient] raises; and an exception
    leaves the logger as it was. *)
Theorem preprocess_exceptions c event lg e :
  fst (zulip_event_preprocess c event lg) = Raise e →
  snd (zulip_event_preprocess c event lg) = lg ∧
  (e ∈ [KeyError "type"; KeyError "message"; KeyError "content";
        KeyError "sender_id"; TypeError; AttributeError]
   ∨ ∃ md, event !! "message" = Some (VDict md) ∧
           client.is_only_pm_recipient c (VDict md) = Raise e).
Proof.
  rewrite preprocess_classify. unfold classify.
  repeat (case_match; simplify_eq; cbn [shape command_result fst snd];
          try done);
    intros [= <-]; (split; [done|]);
    first [left; set_solver | right; by eexists].
Qed.

Lemma preprocess_exceptions_witness :
  snd (zulip_event_preprocess bot
         {[ "type" := VStr (str "message");
            "message" := VDict {[ "content" := VInt 5 ]} ]}
         (logger logging.DEBUG)) = logger logging.DEBUG ∧
  (AttributeError
     ∈ [KeyError "type"; KeyError "message"; KeyError "content";
        KeyError "sender_id"; TypeError; AttributeError]
   ∨ ∃ md,
       ({[ "type" := VStr (str "message");
           "message" := VDict {[ "content" := VInt 5 ]} ]} : dict)
         !! "message" = Some (VDict md) ∧
       client.is_only_pm_recipient bot (VDict md) = Raise AttributeError).
Proof.
  by apply (preprocess_exceptions bot
              {[ "type" := VStr (str "message");
                 "message" := VDict {[ "content" := VInt 5 ]} ]}).
Defined.

(** X2: What the preprocessing never touches: every field of the event but
    [message], and in the message every field but [command_name] and
    [command], which it sets to strings. *)
Theorem preprocess_frame c event event' lg :
  fst (zulip_event_preprocess c event lg) = Ok event' →
  (∀ k, k ≠ "message" → event' !! k = event !! k) ∧
  (event' = event ∨
   ∃ md md' name args,
     event !! "message" = Some (VDict md) ∧
     event' !! "message" = Some (VDict md') ∧
     md' !! "command_name" = Some (VStr name) ∧
     md' !! "command" = Some (VStr args) ∧
     ∀ k, k ≠ "command_name" → k ≠ "command" → md' !! k = md !! k).
Proof.
  intros Hp. split.
  { intros k Hk. by apply (preprocess_other_fields c event event' lg). }
  destruct (preprocess_shape c event) as (r & Hr & Hmd).
  rewrite Hr in Hp. destruct r as [[[md line]|]|e]; simpl in Hp;
    simplify_eq; [|by left].
  right. exists md, (<["command" := VStr (remainder line)]>
                       (<["command_name" := VStr (first_token line)]> md)),
    (first_token line), (remainder line).
  split; [by eapply Hmd|]. unfold with_command.
  split; [by rewrite lookup_insert_eq|].
  split; [by rewrite lookup_insert_ne, lookup_insert_eq|].
  split; [by rewrite lookup_insert_eq|].
  intros k ??. by rewrite !lookup_insert_ne.
Qed.

Lemma preprocess_frame_witness :
  (∀ k, k ≠ "message" →
     with_command
       (message_event_of "stream" 3 (str "@**Bot** create foo") [])
       (message_of "stream" 3 (str "@**Bot** create foo") [])
       (str "create") (str "foo") !! k
     = message_event_of "stream" 3 (str "@**Bot** create foo") [] !! k) ∧
  (with_command
     (message_event_of "stream" 3 (str "@**Bot** create foo") [])
     (message_of "stream" 3 (str "@**Bot** create foo") [])
     (str "create") (str "foo")
   = message_event_of "stream" 3 (str "@**Bot** create foo") [] ∨
   ∃ md md' name args,
     message_event_of "stream" 3 (str "@**Bot** create foo") [] !! "message"
     = Some (VDict md) ∧
     with_command
       (message_event_of "stream" 3 (str "@**Bot** create foo") [])
       (message_of "stream" 3 (str "@**Bot** create foo") [])
       (str "create") (str "foo") !! "message" = Some (VDict md') ∧
     md' !! "command_name" = Some (VStr name) ∧
     md' !! "command" = Some (VStr args) ∧
     ∀ k, k ≠ "command_name" → k ≠ "command" → md' !! k = md !! k).
Proof.
  apply (preprocess_frame bot
           (message_event_of "stream" 3 (str "@**Bot** create foo") [])
           _ (logger logging.WARNING)).
  reflexivity.
Defined.

(** ** The two command fields *)

Lemma take_drop_while {A} (p : A → bool) l :
  take_while p l ++ drop_while p l = l.
Proof.
  induction l as [|x l IH]; simpl; [done|].
  destruct (p x); simpl; [by rewrite IH|done].
Qed.

Lemma take_while_all {A} (p : A → bool) l :
  forallb p (take_while p l) = true.
Proof.
  induction l as [|x l IH]; simpl; [done|].
  destruct (p x) eqn:Hx; simpl; [by rewrite Hx|done].
Qed.

(** The line of a command is cut without loss: white space, the name,
    white space, the arguments. The name holds no white space; the
    arguments do not start with any, and there are none without a
    name. *)
Lemma command_line_partition line :
  ∃ lead sep,
    line = lead ++ first_token line ++ sep ++ remainder line ∧
    forallb isspace lead = true ∧
    forallb nonspace (first_token line) = true ∧
    forallb isspace sep = true ∧
    (first_token line = [] → remainder line = []) ∧
    (∀ c rest, remainder line = c :: rest →
               isspace c = false ∧ sep ≠ []).
Proof.
  exists (take_while isspace line),
    (take_while isspace (drop_while nonspace (drop_while isspace line))).
  unfold first_token, remainder.
  set (l1 := drop_while isspace line).
  set (l2 := drop_while nonspace l1).
  split.
  { rewrite (take_drop_while isspace l2). subst l2.
    rewrite (take_drop_while nonspace l1). subst l1.
    by rewrite take_drop_while. }
  split; [apply take_while_all|]. split; [apply take_while_all|].
  split; [apply take_while_all|]. split.
  - intros Hnil. subst l2.
    destruct l1 as [|c l1'] eqn:Hl1; [done|]. simpl in *.
    pose proof (drop_while_head_false isspace line c l1' Hl1) as Hc.
    unfold nonspace in Hnil |- *. by rewrite Hc in Hnil.
  - intros c rest Hrest.
    pose proof (drop_while_head_false isspace l2 c rest Hrest) as Hc.
    split; [done|]. intros Hsep.
    destruct l2 as [|c2 l2'] eqn:Hl2; [done|].
    pose proof (drop_while_head_false nonspace l1 c2 l2' Hl2) as Hc2.
    unfold nonspace in Hc2. apply negb_false_iff in Hc2.
    simpl in Hsep. by rewrite Hc2 in Hsep.
Qed.

(** X3: The fields the preprocessing attaches to a command partition its
    command line in this way. *)
Theorem command_fields_partition c event md content sender mtype line lg :
  message_event event md content sender mtype →
  command_line c md content sender mtype line →
  ∃ name args lead sep,
    fst (zulip_event_preprocess c event lg)
    = Ok (with_command event md name args) ∧
    line = lead ++ name ++ sep ++ args ∧
    forallb isspace lead = true ∧
    forallb nonspace name = true ∧
    forallb isspace sep = true ∧
    (name = [] → args = []) ∧
    (∀ c0 rest, args = c0 :: rest → isspace c0 = false ∧ sep ≠ []).
Proof.
  intros Hev Hline.
  destruct (command_line_partition line) as (lead & sep & H).
  exists (first_token line), (remainder line), lead, sep.
  split; [|done].
  by rewrite (command_line_result c event md content sender mtype line lg).
Qed.

Lemma command_fields_partition_witness :
  ∃ name args lead sep,
    fst (zulip_event_preprocess bot
           (message_event_of "stream" 3 (str "@**Bot**  create  foo bar ")
              [])
           (logger logging.WARNING))
    = Ok (with_command
            (message_event_of "stream" 3 (str "@**Bot**  create  foo bar ")
               [])
            (message_of "stream" 3 (str "@**Bot**  create  foo bar ") [])
            name args) ∧
    str "  create  foo bar " = lead ++ name ++ sep ++ args ∧
    forallb isspace lead = true ∧
    forallb nonspace name = true ∧
    forallb isspace sep = true ∧
    (name = [] → args = []) ∧
    (∀ c0 rest, args = c0 :: rest → isspace c0 = false ∧ sep ≠ []).
Proof.
  apply (command_fields_partition bot
           (message_event_of "stream" 3 (str "@**Bot**  create  foo bar ") [])
           (message_of "stream" 3 (str "@**Bot**  create  foo bar ") [])
           (str "@**Bot**  create  foo bar ") 3 (str "stream")).
  - by split.
  - split; [done|]. left. by split.
Defined.

(** ** Preprocessing twice *)

Lemma classify_with_command c event md line name args :
  (∀ md name args,
     client.is_only_pm_recipient c
       (VDict (<["command" := VStr args]>
                 (<["command_name" := VStr name]> md)))
     = client.is_only_pm_recipient c (VDict md)) →
  classify c event = Ok (Some (md, line)) →
  classify c (with_command event md name args)
  = Ok (Some (<["command" := VStr args]>
                (<["command_name" := VStr name]> md), line)).
Proof.
  intros Honly. unfold classify, with_command.
  rewrite lookup_insert_ne by done. rewrite lookup_insert_eq.
  rewrite !(lookup_insert_ne _ "command"),
    !(lookup_insert_ne _ "command_name") by done.
  rewrite Honly.
  repeat (case_match; simplify_eq; try done);
    intros ?; simplify_eq; congruence.
Qed.

(** X4: The preprocessing is idempotent: on an event it has preprocessed it
    attaches the same two fields again, provided the answer of
    [is_only_pm_recipient] does not depend on them. *)
Theorem preprocess_idempotent c event lg :
  (∀ md name args,
     client.is_only_pm_recipient c
       (VDict (<["command" := VStr args]>
                 (<["command_name" := VStr name]> md)))
     = client.is_only_pm_recipient c (VDict md)) →
  fst (preprocess_twice c event lg) = fst (zulip_event_preprocess c event lg).
Proof.
  intros Honly. unfold preprocess_twice, bind.
  rewrite (preprocess_classify c event lg).
  destruct (classify c event) as [[[md line]|]|e] eqn:Hc;
    cbn [shape command_result]; [| |done].
  - rewrite preprocess_classify.
    rewrite (classify_with_command c event md line _ _ Honly Hc).
    cbn [shape command_result fst]. f_equal.
    unfold with_command. rewrite insert_insert_eq. f_equal. f_equal.
    apply map_eq. intros k.
    destruct (decide (k = "command")) as [->|];
      [by rewrite !lookup_insert_eq|].
    rewrite !(lookup_insert_ne _ "command") by done.
    destruct (decide (k = "command_name")) as [->|];
      [by rewrite !lookup_insert_eq|].
    by rewrite !lookup_insert_ne.
  - by rewrite preprocess_classify, Hc.
Qed.

Lemma is_only_pm_recipient_model_command_fields bot_id md name args :
  is_only_pm_recipient_model bot_id
    (VDict (<["command" := VStr args]>
              (<["command_name" := VStr name]> md)))
  = is_only_pm_recipient_model bot_id (VDict md).
Proof.
  unfold is_only_pm_recipient_model. cbn [getitem].
  by rewrite !lookup_insert_ne.
Qed.

Lemma preprocess_idempotent_witness :
  fst (preprocess_twice bot
         (message_event_of "private" 3 (str "create foo") [3; 7])
         (logger logging.DEBUG))
  = fst (zulip_event_preprocess bot
           (message_event_of "private" 3 (str "create foo") [3; 7])
           (logger logging.DEBUG)).
Proof.
  apply (preprocess_idempotent bot).
  intros md name args.
  apply (is_only_pm_recipient_model_command_fields 7).
Defined.

(** ** Totality and effects of the preprocessing *)






(** ** The main loop, event by event *)

Lemma iteration_stop_state c ps event done st :
  stopped st || EventType.eqb (Event.type event) EventType._EMPTY = true →
  iteration c ps event done st
  = (Ok Break,
     {| stopped := true;
        restart :=
          if EventType.eqb (Event.type event) EventType._EMPTY
             && bool_decide (Event.sender event = "restart")
          then true else restart st;
        tasks := filter (λ t, negb (done t)) (tasks st);
        created := created st;
        log := log (entered done st) |}).
Proof.
  intros Hstop. unfold iteration. run_loop_monad. rewrite Hstop.
  by destruct (_ && _).
Qed.

(** X5: The sentinel ends the loop: an event of type [_EMPTY], or any event
    once the bot is stopped, makes the loop break at once. Nothing is
    scheduled for it, what the queue holds behind it is never looked at,
    and [restart] is set exactly by a sentinel whose sender is
    [restart]. *)
Theorem sentinel_ends_loop c ps event done queue st :
  stopped st = true ∨ Event.type event = EventType._EMPTY →
  run_loop c ps ((event, done) :: queue) st
  = (Ok Break,
     {| stopped := true;
        restart :=
          if EventType.eqb (Event.type event) EventType._EMPTY
             && bool_decide (Event.sender event = "restart")
          then true else restart st;
        tasks := filter (λ t, negb (done t)) (tasks st);
        created := created st;
        log := log (entered done st) |}).
Proof.
  intros Hstop. cbn [run_loop]. unfold bind.
  rewrite iteration_stop_state; [done|].
  destruct Hstop as [->| ->]; [done|]. by rewrite orb_true_r.
Qed.

Lemma sentinel_ends_loop_witness :
  run_loop bot []
    [({| Event.sender := "restart"; Event.type := EventType._EMPTY;
         Event.data := VNone |}, λ _, false);
     (zulip_event (message_event_of "stream" 3 (str "@**Bot** help") []),
      λ _, false)]
    (initial_state logging.WARNING)
  = (Ok Break,
     {| stopped := true; restart := true; tasks := []; created := [];
        log := logger logging.WARNING |}).
Proof.
  apply (sentinel_ends_loop bot []
           {| Event.sender := "restart"; Event.type := EventType._EMPTY;
              Event.data := VNone |}).
  by right.
Defined.

Lemma iteration_restart c ps event done st :
  restart (snd (iteration c ps event done st)) = restart st
  ∨ (Event.type event = EventType._EMPTY ∧ Event.sender event = "restart").
Proof.
  destruct (stopped st || EventType.eqb (Event.type event) EventType._EMPTY)
    eqn:Hstop.
  { rewrite iteration_stop_state by done. cbn [snd restart].
    destruct (EventType.eqb _ _) eqn:Hty; cbn [andb]; [|by left].
    case_bool_decide; [|by left]. right.
    by destruct (Event.type event). }
  left.
  destruct (EventType.eqb (Event.type event) EventType.ZULIP) eqn:Hz.
  2: by rewrite iteration_other.
  destruct (getitem (Event.data event) "type") as [ty|e] eqn:Hty.
  2: by rewrite (iteration_no_type c ps event done st e).
  destruct (is_heartbeat event) eqn:Hh.
  { by rewrite iteration_heartbeat. }
  destruct (Event.data event) as [| | | | |d] eqn:Hd; try done.
  cbn [getitem] in Hty.
  destruct (fst (zulip_event_preprocess c d (log (entered done st))))
    as [d'|e] eqn:Hp.
  - by destruct (iteration_preprocess_returns c ps event d d' done st)
      as (st' & -> & _ & ? & _).
  - rewrite (iteration_preprocess_raises c ps event d done st e);
      try done.
    destruct (d !! "type"); [by eexists|done].
Qed.

(** X6: Only a sentinel sent by [restart] asks for a restart: whatever else
    the queue delivers, the flag stays as it was. *)
Theorem restart_only_by_sentinel c ps queue st :
  restart st = false →
  restart (snd (run_loop c ps queue st)) = true →
  ∃ event done,
    (event, done) ∈ queue ∧
    Event.type event = EventType._EMPTY ∧
    Event.sender event = "restart".
Proof.
  revert st. induction queue as [|[event done] queue IH]; intros st Hr.
  - cbn. by rewrite Hr.
  - cbn [run_loop]. unfold bind.
    destruct (iteration_restart c ps event done st) as [Hi|[Hty Hs]].
    2: { intros _. exists event, done. split; [apply list_elem_of_here|done]. }
    destruct (iteration c ps event done st) as [[[|]|e] st1];
      cbn [snd ret] in *.
    + intros H. destruct (IH st1) as (ev & dn & Hin & ?); [congruence|done|].
      exists ev, dn. split; [by apply list_elem_of_further|done].
    + congruence.
    + congruence.
Qed.

Lemma restart_only_by_sentinel_witness :
  ∃ event done,
    (event, done)
      ∈ [(zulip_event heartbeat, λ _ : Task, false);
         ({| Event.sender := "restart"; Event.type := EventType._EMPTY;
             Event.data := VNone |}, λ _ : Task, false)] ∧
    Event.type event = EventType._EMPTY ∧
    Event.sender event = "restart".
Proof.
  apply (restart_only_by_sentinel bot [] _ (initial_state logging.WARNING));
    reflexivity.
Defined.

(** X7: A Zulip event without the type field, or whose data is no dict at
    all, ends the loop: the test for heartbeats raises outside the [try],
    the exception leaves [run], and the events behind it are never
    handled. *)
Theorem event_without_type_ends_loop c ps event done queue st e :
  stopped st = false →
  Event.type event = EventType.ZULIP →
  getitem (Event.data event) "type" = Raise e →
  run_loop c ps ((event, done) :: queue) st = (Raise e, entered done st).
Proof.
  intros Hs Hz He. cbn [run_loop]. unfold bind.
  rewrite (iteration_no_type c ps event done st e); try done.
  - by rewrite Hs, Hz.
  - by rewrite Hz.
Qed.

Lemma event_without_type_ends_loop_witness :
  run_loop bot []
    [(zulip_event {[ "message" := VDict ∅ ]}, λ _, false);
     (zulip_event heartbeat, λ _, false)]
    (initial_state logging.WARNING)
  = (Raise (KeyError "type"),
     entered (λ _, false) (initial_state logging.WARNING)).
Proof.
  by apply (event_without_type_ends_loop bot []
              (zulip_event {[ "message" := VDict ∅ ]})).
Defined.

Lemma fan_out_state ps event st :
  fan_out ps event st = (Ok tt, fanned_out ps event st).
Proof.
  revert st. induction ps as [|[name p] ps IH]; intros st.
  - unfold fanned_out, responsible_tasks. cbn. rewrite !app_nil_r.
    by destruct st.
  - cbn [fan_out]. unfold fanned_out, responsible_tasks.
    rewrite filter_cons. cbn [snd].
    destruct (Plugin.is_responsible p event) eqn:Hp.
    + rewrite decide_True by done. run_loop_monad. rewrite IH.
      unfold fanned_out, responsible_tasks.
      cbn [stopped restart tasks created log fmap list_fmap foldl
           task_plugin snd].
      by rewrite <- !app_assoc.
    + rewrite decide_False by done. run_loop_monad. by rewrite IH.
Qed.

(** X9: An event the preprocessing returns is handed to every plugin that is
    responsible for it, and to no other: one task each, in the order in
    which the plugins were registered, all for the same preprocessed
    event. *)
Theorem handled_event_fans_out c ps event d d' done st :
  stopped st = false →
  Event.type event = EventType.ZULIP →
  Event.data event = VDict d →
  is_heartbeat event = false →
  fst (zulip_event_preprocess c d (log (entered done st))) = Ok d' →
  iteration c ps event done st
  = (Ok Continue,
     fanned_out ps (Event.set_data event (VDict d'))
       (with_logger
          (snd (zulip_event_preprocess c d (log (entered done st))))
          (entered done st))).
Proof.
  intros Hs Hz Hd Hh Hp. unfold iteration. run_loop_monad.
  rewrite Hs, Hz. cbn [orb EventType.eqb].
  unfold is_heartbeat in Hh. rewrite Hd in *.
  destruct (getitem (VDict d) "type") as [ty|] eqn:Hty.
  2: { exfalso. cbn [getitem] in Hty. rewrite preprocess_classify in Hp.
       unfold classify in Hp. by destruct (d !! "type"). }
  rewrite Hh. unfold preprocess_data. run_loop_monad.
  unfold entered in Hp |- *. cbn [log] in Hp |- *.
  destruct (zulip_event_preprocess c d _) as [[d''|x] lg'] eqn:Hpre;
    simpl in Hp; [|done].
  injection Hp as ->. run_loop_monad. rewrite fan_out_state.
  unfold with_logger. cbn [stopped restart tasks created log].
  by rewrite Hs.
Qed.

Lemma handled_event_fans_out_witness :
  created
    (snd (iteration bot
            [("first", PluginClass.new (plugin_class "First" "first" []));
             ("echo", {| Plugin.class_name := "Echo";
                         Plugin.plugin_name := "echo";
                         Plugin.is_responsible := λ _, true |})]
            (zulip_event
               (message_event_of "stream" 3 (str "@**Bot** help") []))
            (λ _, false) (initial_state logging.WARNING)))
  = [{| task_plugin := "echo";
        task_event :=
          zulip_event
            (with_command
               (message_event_of "stream" 3 (str "@**Bot** help") [])
               (message_of "stream" 3 (str "@**Bot** help") [])
               (str "help") []) |}].
Proof.
  rewrite (handled_event_fans_out bot _
             (zulip_event
                (message_event_of "stream" 3 (str "@**Bot** help") []))
             (message_event_of "stream" 3 (str "@**Bot** help") [])
             (with_command
                (message_event_of "stream" 3 (str "@**Bot** help") [])
                (message_of "stream" 3 (str "@**Bot** help") [])
                (str "help") []));
    reflexivity.
Defined.

(** * Further properties of the start of the plugins *)

(** ** Dicts in insertion order *)

Lemma od_get_set_eq {V} k (v : V) d : od_get k (od_set k v d) = Some v.
Proof.
  induction d as [|[k' v'] d IH]; cbn.
  - by rewrite bool_decide_eq_true_2.
  - case_bool_decide; cbn; [by rewrite bool_decide_eq_true_2|].
    by rewrite bool_decide_eq_false_2.
Qed.

Lemma od_get_set_ne {V} k k' (v : V) d :
  k ≠ k' → od_get k' (od_set k v d) = od_get k' d.
Proof.
  intros Hne. induction d as [|[k0 v0] d IH]; cbn.
  - by rewrite bool_decide_eq_false_2.
  - case_bool_decide; cbn; subst.
    + by rewrite !bool_decide_eq_false_2.
    + by rewrite IH.
Qed.

Lemma od_mem_set {V} k k' (v : V) d :
  od_mem k' (od_set k v d) = bool_decide (k = k') || od_mem k' d.
Proof.
  unfold od_mem. case_bool_decide; subst.
  - by rewrite od_get_set_eq.
  - by rewrite od_get_set_ne.
Qed.

Lemma od_set_set {V} k (v1 v2 : V) d :
  od_set k v2 (od_set k v1 d) = od_set k v2 d.
Proof.
  induction d as [|[k' v'] d IH]; cbn.
  - by rewrite bool_decide_eq_true_2.
  - case_bool_decide; cbn.
    + by rewrite bool_decide_eq_true_2.
    + rewrite bool_decide_eq_false_2 by done. by rewrite IH.
Qed.

Lemma od_set_comm {V} k k' (v v' : V) d :
  k ≠ k' → od_mem k d = true →
  od_set k v (od_set k' v' d) = od_set k' v' (od_set k v d).
Proof.
  intros Hne. unfold od_mem.
  induction d as [|[k0 v0] d IH]; [done|]. cbn [od_get od_set].
  destruct (decide (k0 = k)) as [->|Hk].
  - intros _. rewrite (bool_decide_eq_true_2 (k = k)) by done.
    rewrite (bool_decide_eq_false_2 (k = k')) by done. cbn [od_set].
    rewrite (bool_decide_eq_true_2 (k = k)) by done.
    by rewrite (bool_decide_eq_false_2 (k = k')).
  - rewrite (bool_decide_eq_false_2 (k0 = k)) by done. intros Hmem.
    destruct (decide (k0 = k')) as [->|Hk'].
    + rewrite (bool_decide_eq_true_2 (k' = k')) by done. cbn [od_set].
      rewrite (bool_decide_eq_false_2 (k' = k)) by done.
      by rewrite (bool_decide_eq_true_2 (k' = k')).
    + rewrite (bool_decide_eq_false_2 (k0 = k')) by done. cbn [od_set].
      rewrite (bool_decide_eq_false_2 (k0 = k)) by done.
      rewrite (bool_decide_eq_false_2 (k0 = k')) by done.
      by rewrite IH.
Qed.

Lemma od_set_foldl {V X} (key : X → string) (val : X → V) k v l d :
  od_mem k d = true →
  (∀ x, x ∈ l → key x ≠ k) →
  od_set k v (foldl (λ d x, od_set (key x) (val x) d) d l)
  = foldl (λ d x, od_set (key x) (val x) d) (od_set k v d) l.
Proof.
  revert d. induction l as [|x l IH]; intros d Hmem Hl; [done|].
  cbn [foldl]. rewrite IH.
  - rewrite (od_set_comm k (key x)); [done| |done].
    intros Heq. by apply (Hl x); [apply list_elem_of_here|].
  - rewrite od_mem_set, Hmem. by rewrite orb_true_r.
  - intros y Hy. by apply Hl, list_elem_of_further.
Qed.

(** A dict comprehension keeps, for a key that comes twice, the place of
    the first entry and the value of the second. *)
Lemma dict_comprehension_shadow {V X} (key : X → string) (val : X → V)
    l1 x1 l2 x2 l3 :
  key x1 = key x2 →
  (∀ x, x ∈ l2 → key x ≠ key x2) →
  dict_comprehension key val (l1 ++ x1 :: l2 ++ x2 :: l3)
  = dict_comprehension key val (l1 ++ x2 :: l2 ++ l3).
Proof.
  intros Hk Hl2. unfold dict_comprehension.
  rewrite !foldl_app. cbn [foldl]. rewrite !foldl_app. cbn [foldl].
  f_equal. rewrite Hk.
  rewrite od_set_foldl; [by rewrite od_set_set| |done].
  by rewrite od_mem_set, bool_decide_eq_true_2.
Qed.

(** ** Plugin classes that share a name *)

(** X10: Of two plugin classes with the same name [startPlugins] sees one: it
    behaves as if the second stood in the place of the first and the
    first had never been declared. The test for a plugin that appears
    twice cannot tell. *)
Theorem startPlugins_shadowed set_iter l1 c1 l2 c2 l3 st :
  PluginClass.plugin_name c1 = PluginClass.plugin_name c2 →
  (∀ c, c ∈ l2 →
        PluginClass.plugin_name c ≠ PluginClass.plugin_name c2) →
  startPlugins set_iter (l1 ++ c1 :: l2 ++ c2 :: l3) st
  = startPlugins set_iter (l1 ++ c2 :: l2 ++ l3) st.
Proof.
  intros Hk Hl2. unfold startPlugins, plugin_graph, plugin_class_dict.
  by rewrite !(dict_comprehension_shadow _ _ l1 c1 l2 c2 l3 Hk Hl2).
Qed.

Lemma startPlugins_shadowed_witness :
  startPlugins remove_dups
    ([plugin_class "Base" "base" []]
     ++ plugin_class "First" "a" ["base"]
     :: [plugin_class "Other" "b" ["a"]]
     ++ plugin_class "Second" "a" [] :: []) start_state
  = startPlugins remove_dups
      ([plugin_class "Base" "base" []]
       ++ plugin_class "Second" "a" []
       :: [plugin_class "Other" "b" ["a"]] ++ []) start_state.
Proof.
  apply (startPlugins_shadowed remove_dups).
  - done.
  - intros c ->%list_elem_of_singleton. done.
Defined.

(** ** The node table of the sorter *)

Lemma od_mem_elem_of {V} k (d : list (string * V)) :
  od_mem k d = true ↔ k ∈ d.*1.
Proof.
  unfold od_mem. induction d as [|[k' v'] d IH]; cbn.
  - split; [done|]. by intros ?%not_elem_of_nil.
  - rewrite elem_of_cons. case_bool_decide; subst.
    + split; [by left|done].
    + rewrite IH. split; [by right|]. by intros [?|?].
Qed.

Lemma od_set_keys {V} k (v : V) d :
  (od_set k v d).*1 = if od_mem k d then d.*1 else d.*1 ++ [k].
Proof.
  unfold od_mem. induction d as [|[k' v'] d IH]; cbn; [done|].
  case_bool_decide; subst; cbn; [done|].
  rewrite IH. by destruct (od_get k d).
Qed.

Lemma od_set_NoDup {V} k (v : V) d : NoDup d.*1 → NoDup (od_set k v d).*1.
Proof.
  intros Hd. rewrite od_set_keys. destruct (od_mem k d) eqn:Hk; [done|].
  apply NoDup_app. split; [done|]. split; [|apply NoDup_singleton].
  intros x Hx ->%list_elem_of_singleton.
  apply od_mem_elem_of in Hx. congruence.
Qed.

Lemma od_get_elem_of {V} k (v : V) d :
  NoDup d.*1 → (k, v) ∈ d → od_get k d = Some v.
Proof.
  induction d as [|[k' v'] d IH]; cbn.
  - by intros _ ?%not_elem_of_nil.
  - intros [Hk' Hd]%NoDup_cons [[= -> ->]|Hin]%elem_of_cons.
    + by rewrite bool_decide_eq_true_2.
    + rewrite bool_decide_eq_false_2; [by apply IH|].
      intros ->. apply Hk'. apply list_elem_of_fmap. by exists (k, v).
Qed.

Lemma info_set_eq k i n2i : graphlib.info (od_set k i n2i) k = i.
Proof. unfold graphlib.info. by rewrite od_get_set_eq. Qed.

Lemma info_set_ne k k' i n2i :
  k ≠ k' → graphlib.info (od_set k i n2i) k' = graphlib.info n2i k'.
Proof. intros. unfold graphlib.info. by rewrite od_get_set_ne. Qed.

Lemma info_get_nodeinfo k n n2i :
  graphlib.info (graphlib._get_nodeinfo k n2i) n = graphlib.info n2i n.
Proof.
  unfold graphlib._get_nodeinfo. destruct (od_mem k n2i) eqn:Hk; [done|].
  destruct (decide (k = n)) as [->|Hne].
  - rewrite info_set_eq. unfold graphlib.info, od_mem in *.
    by destruct (od_get n n2i).
  - by rewrite info_set_ne.
Qed.

Lemma get_nodeinfo_NoDup k n2i :
  NoDup n2i.*1 → NoDup (graphlib._get_nodeinfo k n2i).*1.
Proof.
  intros. unfold graphlib._get_nodeinfo. destruct (od_mem k n2i); [done|].
  by apply od_set_NoDup.
Qed.

Lemma add_successor_NoDup node pred n2i :
  NoDup n2i.*1 → NoDup (graphlib.add_successor node pred n2i).*1.
Proof. intros. by apply od_set_NoDup, get_nodeinfo_NoDup. Qed.

Lemma add_NoDup node preds n2i :
  NoDup n2i.*1 → NoDup (graphlib.add node preds n2i).*1.
Proof.
  intros Hn. unfold graphlib.add.
  assert (NoDup (od_set node
    {| graphlib.npredecessors :=
         graphlib.npredecessors
           (graphlib.info (graphlib._get_nodeinfo node n2i) node)
         + Z.of_nat (length preds);
       graphlib.successors :=
         graphlib.successors
           (graphlib.info (graphlib._get_nodeinfo node n2i) node) |}
    (graphlib._get_nodeinfo node n2i)).*1) as H0
    by by apply od_set_NoDup, get_nodeinfo_NoDup.
  revert H0. generalize (od_set node
    {| graphlib.npredecessors :=
         graphlib.npredecessors
           (graphlib.info (graphlib._get_nodeinfo node n2i) node)
         + Z.of_nat (length preds);
       graphlib.successors :=
         graphlib.successors
           (graphlib.info (graphlib._get_nodeinfo node n2i) node) |}
    (graphlib._get_nodeinfo node n2i)).
  induction preds as [|p preds IH]; intros d Hd; [done|].
  cbn [foldl]. by apply IH, add_successor_NoDup.
Qed.

Lemma init_NoDup graph : NoDup (graphlib.init graph).*1.
Proof.
  unfold graphlib.init.
  assert (NoDup ([] : list (string * graphlib.NodeInfo)).*1) as H0
    by constructor.
  revert H0. generalize ([] : list (string * graphlib.NodeInfo)).
  induction graph as [|[node preds] graph IH]; intros d Hd; [done|].
  cbn [foldl]. by apply IH, add_NoDup.
Qed.

Lemma info_set_npredecessors node v n2i n :
  graphlib.info (graphlib.set_npredecessors node v n2i) n
  = if decide (node = n)
    then {| graphlib.npredecessors := v;
            graphlib.successors :=
              graphlib.successors (graphlib.info n2i node) |}
    else graphlib.info n2i n.
Proof.
  unfold graphlib.set_npredecessors. case_decide; subst.
  - by rewrite info_set_eq.
  - by rewrite info_set_ne.
Qed.

Lemma successors_set_npredecessors node v n2i n :
  graphlib.successors
    (graphlib.info (graphlib.set_npredecessors node v n2i) n)
  = graphlib.successors (graphlib.info n2i n).
Proof. rewrite info_set_npredecessors. by case_decide; subst. Qed.

(** ** No node is passed out twice *)

(** What is passed out or ready has no predecessor left to wait for, and
    is there once. *)
Lemma release_passed E ts s :
  NoDup (E ++ graphlib._ready_nodes ts) →
  Forall (λ n, graphlib.npredecessors
                 (graphlib.info (graphlib._node2info ts) n) ≤ 0)
    (E ++ graphlib._ready_nodes ts) →
  NoDup (E ++ graphlib._ready_nodes (graphlib.release ts s)) ∧
  Forall (λ n, graphlib.npredecessors
                 (graphlib.info
                    (graphlib._node2info (graphlib.release ts s)) n) ≤ 0)
    (E ++ graphlib._ready_nodes (graphlib.release ts s)).
Proof.
  intros Hnd Hle. unfold graphlib.release.
  cbn [graphlib._ready_nodes graphlib._node2info].
  rewrite Forall_forall in Hle.
  assert (∀ n, n ∈ E ++ graphlib._ready_nodes ts →
    graphlib.npredecessors
      (graphlib.info
         (graphlib.set_npredecessors s
            (graphlib.npredecessors
               (graphlib.info (graphlib._node2info ts) s) - 1)
            (graphlib._node2info ts)) n) ≤ 0) as Hle'.
  { intros n Hn. rewrite info_set_npredecessors. specialize (Hle n Hn).
    case_decide; subst; cbn; lia. }
  case_bool_decide as H0.
  - assert (s ∉ E ++ graphlib._ready_nodes ts) as Hs.
    { intros Hs. specialize (Hle s Hs). lia. }
    split.
    + rewrite app_assoc. apply NoDup_app. split; [done|].
      split; [|apply NoDup_singleton].
      by intros x Hx ->%list_elem_of_singleton.
    + rewrite app_assoc. apply Forall_app. split.
      * by apply Forall_forall.
      * apply Forall_singleton. rewrite info_set_npredecessors.
        rewrite decide_True by done. cbn. lia.
  - split; [done|]. by apply Forall_forall.
Qed.

Lemma foldl_release_passed E ss ts :
  NoDup (E ++ graphlib._ready_nodes ts) →
  Forall (λ n, graphlib.npredecessors
                 (graphlib.info (graphlib._node2info ts) n) ≤ 0)
    (E ++ graphlib._ready_nodes ts) →
  NoDup (E ++ graphlib._ready_nodes (foldl graphlib.release ts ss)) ∧
  Forall (λ n, graphlib.npredecessors
                 (graphlib.info
                    (graphlib._node2info (foldl graphlib.release ts ss))
                    n) ≤ 0)
    (E ++ graphlib._ready_nodes (foldl graphlib.release ts ss)).
Proof.
  revert ts. induction ss as [|s ss IH]; intros ts Hnd Hle; [done|].
  cbn [foldl]. destruct (release_passed E ts s Hnd Hle). by apply IH.
Qed.

Lemma done_passed E nodes ts :
  NoDup (E ++ graphlib._ready_nodes ts) →
  Forall (λ n, graphlib.npredecessors
                 (graphlib.info (graphlib._node2info ts) n) ≤ 0)
    (E ++ graphlib._ready_nodes ts) →
  NoDup (E ++ graphlib._ready_nodes (graphlib.done nodes ts)) ∧
  Forall (λ n, graphlib.npredecessors
                 (graphlib.info
                    (graphlib._node2info (graphlib.done nodes ts)) n) ≤ 0)
    (E ++ graphlib._ready_nodes (graphlib.done nodes ts)).
Proof.
  unfold graphlib.done. revert ts.
  induction nodes as [|node nodes IH]; intros ts Hnd Hle; [done|].
  cbn [foldl]. apply IH.
  - cbn [graphlib._ready_nodes].
    apply foldl_release_passed; cbn [graphlib._ready_nodes
                                      graphlib._node2info]; [done|].
    rewrite Forall_forall in Hle |- *. intros n Hn.
    rewrite info_set_npredecessors. specialize (Hle n Hn).
    case_decide; subst; cbn; [|done]. unfold graphlib._NODE_DONE. lia.
  - cbn [graphlib._node2info].
    apply foldl_release_passed; cbn [graphlib._ready_nodes
                                      graphlib._node2info]; [done|].
    rewrite Forall_forall in Hle |- *. intros n Hn.
    rewrite info_set_npredecessors. specialize (Hle n Hn).
    case_decide; subst; cbn; [|done]. unfold graphlib._NODE_DONE. lia.
Qed.

Lemma foldl_mark_out_le group n2i n :
  graphlib.npredecessors (graphlib.info n2i n) ≤ 0 →
  graphlib.npredecessors
    (graphlib.info
       (foldl (λ n2i node,
                 graphlib.set_npredecessors node graphlib._NODE_OUT n2i)
          n2i group) n) ≤ 0.
Proof.
  revert n2i. induction group as [|g group IH]; intros n2i Hn; [done|].
  cbn [foldl]. apply IH. rewrite info_set_npredecessors.
  case_decide; subst; cbn; [|done]. unfold graphlib._NODE_OUT. lia.
Qed.

Lemma order_loop_NoDup fuel ts E :
  NoDup (E ++ graphlib._ready_nodes ts) →
  Forall (λ n, graphlib.npredecessors
                 (graphlib.info (graphlib._node2info ts) n) ≤ 0)
    (E ++ graphlib._ready_nodes ts) →
  NoDup (E ++ graphlib.order_loop fuel ts).
Proof.
  revert ts E. induction fuel as [|fuel IH]; intros ts E Hnd Hle.
  { cbn. rewrite app_nil_r. by apply NoDup_app in Hnd as (? & _). }
  cbn [graphlib.order_loop].
  destruct (graphlib.is_active ts).
  2: { rewrite app_nil_r. by apply NoDup_app in Hnd as (? & _). }
  unfold graphlib.get_ready. rewrite app_assoc.
  match goal with |- context [graphlib.done _ ?t] => set (ts1 := t) end.
  destruct (done_passed (E ++ graphlib._ready_nodes ts)
              (graphlib._ready_nodes ts) ts1) as [Hnd' Hle'].
  - subst ts1. cbn [graphlib._ready_nodes]. by rewrite app_nil_r.
  - subst ts1. cbn [graphlib._ready_nodes graphlib._node2info].
    rewrite app_nil_r. rewrite Forall_forall in Hle |- *.
    intros n Hn. by apply foldl_mark_out_le, Hle.
  - by apply IH.
Qed.

Lemma NoDup_fmap_fst_filter {V} (P : string * V → Prop)
    `{!∀ x, Decision (P x)} (d : list (string * V)) :
  NoDup d.*1 → NoDup (filter P d).*1.
Proof.
  induction d as [|[k v] d IH]; [done|].
  cbn [fmap list_fmap]. intros [Hk Hd]%NoDup_cons.
  rewrite filter_cons. case_decide; [|by apply IH].
  cbn [fmap list_fmap fst]. apply NoDup_cons. split; [|by apply IH].
  intros ((k' & v') & -> & [_ Hin]%list_elem_of_filter)%list_elem_of_fmap.
  apply Hk, list_elem_of_fmap. by exists (k', v').
Qed.

(** [static_order] yields no node twice. *)
Lemma static_order_NoDup graph order :
  graphlib.static_order graph = Ok order → NoDup order.
Proof.
  unfold graphlib.static_order, graphlib.prepare.
  destruct (graphlib.has_cycle (graphlib.init graph)); [done|].
  intros [= <-]. cbn [graphlib._node2info].
  apply (order_loop_NoDup _ _ []); cbn [graphlib._ready_nodes
                                         graphlib._node2info app].
  - apply NoDup_fmap_fst_filter, init_NoDup.
  - apply Forall_forall.
    intros n ((k & i) & -> & [Hi Hin]%list_elem_of_filter)%list_elem_of_fmap.
    cbn [fst]. unfold graphlib.info.
    rewrite (od_get_elem_of k i _ (init_NoDup graph) Hin).
    cbn. cbn in Hi. lia.
Qed.

Ltac run_start_monad :=
  cbv beta iota zeta delta
    [bind lift ret raise get with_start_log instantiate set_plugin
     logging.debug logging.log fst snd];
  cbn [plugins instantiated start_log].

Lemma start_each_no_ValueError class_dict order st msg st' :
  NoDup order →
  (∀ n, n ∈ order → od_mem n (plugins st) = false) →
  start_each class_dict order st ≠ (Raise (ValueError msg), st').
Proof.
  revert st. induction order as [|name order IH]; intros st Hnd Hfresh.
  { done. }
  apply NoDup_cons in Hnd as [Hname Hnd].
  cbn [start_each]. run_start_monad.
  unfold od_getitem. destruct (od_get name class_dict) as [cls|]; [|done].
  rewrite (Hfresh name) by apply list_elem_of_here.
  apply IH; [done|]. intros n Hn. cbn [plugins].
  rewrite od_mem_set. rewrite (Hfresh n) by by apply list_elem_of_further.
  rewrite bool_decide_eq_false_2; [done|]. by intros ->.
Qed.

(** X11: Called as [__init__] calls it, with no plugin registered yet,
    [startPlugins] never raises the [ValueError] of a plugin that appears
    twice, whatever the plugin classes are. *)
Theorem startPlugins_never_ValueError set_iter plugin_classes st msg st' :
  plugins st = [] →
  startPlugins set_iter plugin_classes st ≠ (Raise (ValueError msg), st').
Proof.
  intros Hempty. unfold startPlugins, bind, lift.
  destruct (graphlib.static_order _) as [order|e] eqn:Horder.
  - apply start_each_no_ValueError.
    + by eapply static_order_NoDup.
    + intros n _. by rewrite Hempty.
  - unfold graphlib.static_order, graphlib.prepare in Horder.
    destruct (graphlib.has_cycle _); intros ?; simplify_eq.
Qed.

Lemma startPlugins_never_ValueError_witness :
  plugins start_state = [] ∧
  startPlugins remove_dups
    [plugin_class "First" "a" []; plugin_class "Second" "a" []] start_state
  ≠ (Raise (ValueError (str "plugin a appears twice")), start_state).
Proof.
  split; [reflexivity|].
  apply (startPlugins_never_ValueError remove_dups
           [plugin_class "First" "a" []; plugin_class "Second" "a" []]
           start_state).
  reflexivity.
Defined.

(** ** The predecessors a node waits for *)

Lemma occurrences_nil n : occurrences n [] = 0.
Proof. done. Qed.

Lemma occurrences_app n l1 l2 :
  occurrences n (l1 ++ l2) = occurrences n l1 + occurrences n l2.
Proof. unfold occurrences. rewrite filter_app, length_app. lia. Qed.

Lemma occurrences_cons n x l :
  occurrences n (x :: l) = (if bool_decide (x = n) then 1 else 0)
                           + occurrences n l.
Proof.
  unfold occurrences. rewrite filter_cons.
  case_decide; case_bool_decide; try done; cbn [length]; lia.
Qed.

Lemma occurrences_nonneg n l : 0 ≤ occurrences n l.
Proof. unfold occurrences. lia. Qed.

Lemma occurrences_pos n l : n ∈ l → 0 < occurrences n l.
Proof.
  intros Hn. unfold occurrences.
  assert (n ∈ filter (λ x, x = n) l) as Hin by by apply list_elem_of_filter.
  destruct (filter (λ x, x = n) l); [by apply elem_of_nil in Hin|].
  cbn [length]. lia.
Qed.

Lemma waiting_cons n2i p keys E n :
  waiting n2i (p :: keys) E n
  = (if bool_decide (p ∈ E) then 0
     else occurrences n (graphlib.successors (graphlib.info n2i p)))
    + waiting n2i keys E n.
Proof. done. Qed.

Lemma waiting_nonneg n2i keys E n : 0 ≤ waiting n2i keys E n.
Proof.
  induction keys as [|p keys IH]; [done|]. rewrite waiting_cons.
  case_bool_decide; [lia|].
  pose proof (occurrences_nonneg n
                (graphlib.successors (graphlib.info n2i p))). lia.
Qed.

(** If [n] waits for nothing, every node that lists [n] as a successor
    has been passed out. *)
Lemma waiting_zero n2i keys E n p :
  waiting n2i keys E n = 0 →
  p ∈ keys →
  n ∈ graphlib.successors (graphlib.info n2i p) →
  p ∈ E.
Proof.
  induction keys as [|q keys IH]; [by intros _ ?%elem_of_nil|].
  rewrite waiting_cons. intros Hw [->|Hp]%elem_of_cons Hn.
  - case_bool_decide; [done|].
    pose proof (occurrences_pos n _ Hn).
    pose proof (waiting_nonneg n2i keys E n). lia.
  - apply IH; [|done..].
    pose proof (waiting_nonneg n2i keys E n).
    case_bool_decide; [lia|].
    pose proof (occurrences_nonneg n
                  (graphlib.successors (graphlib.info n2i q))). lia.
Qed.

(** Passing out [g] takes its edges from what the others wait for. *)
Lemma waiting_pass_one n2i keys E g n :
  NoDup keys → g ∉ E →
  (g ∉ keys → graphlib.successors (graphlib.info n2i g) = []) →
  waiting n2i keys E n
  = occurrences n (graphlib.successors (graphlib.info n2i g))
    + waiting n2i keys (E ++ [g]) n.
Proof.
  intros Hnd HgE Hg. induction keys as [|p keys IH].
  { cbn. rewrite Hg by by intros ?%elem_of_nil. done. }
  rewrite !waiting_cons.
  apply NoDup_cons in Hnd as [Hp Hnd].
  destruct (decide (p = g)) as [->|Hpg].
  - rewrite (bool_decide_eq_false_2 (g ∈ E)) by done.
    rewrite (bool_decide_eq_true_2 (g ∈ E ++ [g]))
      by (apply elem_of_app; right; apply list_elem_of_here).
    assert (waiting n2i keys E n = waiting n2i keys (E ++ [g]) n) as ->;
      [|lia].
    clear IH Hg. induction keys as [|q keys IH]; [done|].
    rewrite !waiting_cons.
    apply not_elem_of_cons in Hp as [Hq Hp].
    apply NoDup_cons in Hnd as [_ Hnd]. rewrite (IH Hp Hnd).
    assert (bool_decide (q ∈ E ++ [g]) = bool_decide (q ∈ E)) as ->; [|done].
    apply bool_decide_ext. rewrite elem_of_app, list_elem_of_singleton.
    split; [by intros [?|?]|by left].
  - assert (bool_decide (p ∈ E ++ [g]) = bool_decide (p ∈ E)) as ->.
    { apply bool_decide_ext. rewrite elem_of_app, list_elem_of_singleton.
      split; [by intros [?|?]|by left]. }
    rewrite IH; [lia|done|].
    intros Hgk. apply Hg. by intros [?|?]%elem_of_cons.
Qed.

Lemma waiting_pass n2i keys E group n :
  NoDup keys → NoDup (E ++ group) →
  (∀ p, p ∉ keys → graphlib.successors (graphlib.info n2i p) = []) →
  waiting n2i keys E n
  = foldr (λ p acc,
             occurrences n (graphlib.successors (graphlib.info n2i p))
             + acc) 0 group
    + waiting n2i keys (E ++ group) n.
Proof.
  intros Hk. revert E. induction group as [|g group IH]; intros E Hnd Hs.
  { cbn. by rewrite app_nil_r. }
  cbn [foldr].
  rewrite (waiting_pass_one n2i keys E g n); [|done| |by auto].
  - rewrite (IH (E ++ [g])); [|by rewrite <- app_assoc|done].
    rewrite <- app_assoc. cbn [app]. lia.
  - apply NoDup_app in Hnd as (_ & Hd & _). intros HgE.
    apply (Hd g HgE), list_elem_of_here.
Qed.

(** Only the successors count, not the counters. *)
Lemma waiting_ext n2i n2i' keys E n :
  (∀ p, graphlib.successors (graphlib.info n2i' p)
        = graphlib.successors (graphlib.info n2i p)) →
  waiting n2i' keys E n = waiting n2i keys E n.
Proof.
  intros Hs. induction keys as [|p keys IH]; [done|].
  by rewrite !waiting_cons, IH, Hs.
Qed.

Lemma waiting_app n2i keys1 keys2 E n :
  waiting n2i (keys1 ++ keys2) E n
  = waiting n2i keys1 E n + waiting n2i keys2 E n.
Proof.
  induction keys1 as [|p keys1 IH]; [done|].
  cbn [app]. rewrite !waiting_cons, IH. lia.
Qed.

Lemma info_not_key n2i p :
  p ∉ n2i.*1 →
  graphlib.info n2i p
  = {| graphlib.npredecessors := 0; graphlib.successors := [] |}.
Proof.
  intros Hp. unfold graphlib.info.
  destruct (od_get p n2i) eqn:Hg; [|done].
  exfalso. apply Hp, od_mem_elem_of. unfold od_mem. by rewrite Hg.
Qed.

(** One more successor of [pred]: [node] waits for one more edge. *)
Lemma waiting_new_successor n2i n2i' keys pred node n :
  NoDup keys → pred ∈ keys →
  (∀ p, p ≠ pred →
        graphlib.successors (graphlib.info n2i' p)
        = graphlib.successors (graphlib.info n2i p)) →
  graphlib.successors (graphlib.info n2i' pred)
  = graphlib.successors (graphlib.info n2i pred) ++ [node] →
  waiting n2i' keys [] n
  = waiting n2i keys [] n + (if bool_decide (node = n) then 1 else 0).
Proof.
  intros Hnd Hpred Hother Hp.
  induction keys as [|q keys IH]; [by apply elem_of_nil in Hpred|].
  rewrite !waiting_cons. apply NoDup_cons in Hnd as [Hq Hnd].
  rewrite (bool_decide_eq_false_2 (q ∈ [])) by by intros ?%elem_of_nil.
  destruct (decide (q = pred)) as [->|Hne].
  - rewrite Hp, occurrences_app, occurrences_cons, occurrences_nil.
    assert (waiting n2i' keys [] n = waiting n2i keys [] n) as ->; [|lia].
    clear IH Hpred Hnd. induction keys as [|q keys IH]; [done|].
    apply not_elem_of_cons in Hq as [Hne Hq].
    rewrite !waiting_cons, (IH Hq), Hother; [done|by intros ->].
  - apply elem_of_cons in Hpred as [->|Hpred]; [done|].
    rewrite (IH Hnd Hpred), Hother by done. lia.
Qed.

(** ** The node table [TopologicalSorter(graph)] builds *)

Lemma get_nodeinfo_mem k n2i : od_mem k (graphlib._get_nodeinfo k n2i) = true.
Proof.
  unfold graphlib._get_nodeinfo. destruct (od_mem k n2i) eqn:Hk; [done|].
  by rewrite od_mem_set, bool_decide_eq_true_2.
Qed.

Lemma get_nodeinfo_counted k n2i node r :
  counted n2i node r → counted (graphlib._get_nodeinfo k n2i) node r.
Proof.
  intros [Hnd Hc]. split; [by apply get_nodeinfo_NoDup|].
  intros n. rewrite info_get_nodeinfo, Hc. f_equal.
  unfold graphlib._get_nodeinfo. destruct (od_mem k n2i) eqn:Hk; [done|].
  rewrite od_set_keys, Hk, waiting_app.
  set (d := od_set k _ n2i).
  assert (∀ p, graphlib.successors (graphlib.info d p)
               = graphlib.successors (graphlib.info n2i p)) as Hext.
  { intros p. subst d. destruct (decide (k = p)) as [->|Hne].
    - rewrite info_set_eq. rewrite info_not_key; [done|].
      intros Hp%od_mem_elem_of. congruence.
    - by rewrite info_set_ne. }
  rewrite !(waiting_ext n2i d _ _ _ Hext), waiting_cons.
  rewrite (info_not_key n2i k) by (intros Hp%od_mem_elem_of; congruence).
  rewrite occurrences_nil. change (waiting n2i [] [] n) with 0.
  case_bool_decide; lia.
Qed.

Lemma add_successor_counted node pred n2i r :
  counted n2i node r →
  counted (graphlib.add_successor node pred n2i) node (r - 1).
Proof.
  intros Hc. apply (get_nodeinfo_counted pred) in Hc as [Hnd Hc].
  unfold graphlib.add_successor.
  set (d := graphlib._get_nodeinfo pred n2i) in *.
  assert (od_mem pred d = true) as Hmem by apply get_nodeinfo_mem.
  split; [by apply od_set_NoDup|].
  intros n. rewrite od_set_keys, Hmem.
  rewrite (waiting_new_successor d _ _ pred node n); first last.
  - by rewrite info_set_eq.
  - intros p Hp. by rewrite info_set_ne.
  - by apply od_mem_elem_of.
  - done.
  - destruct (decide (pred = n)) as [->|Hne].
    + rewrite info_set_eq. cbn [graphlib.npredecessors]. rewrite Hc.
      case_bool_decide; lia.
    + rewrite info_set_ne by done. rewrite Hc. case_bool_decide; lia.
Qed.

Lemma foldl_add_successor_counted node preds n2i r :
  counted n2i node r →
  counted (foldl (λ n2i pred, graphlib.add_successor node pred n2i)
             n2i preds) node (r - Z.of_nat (length preds)).
Proof.
  revert n2i r. induction preds as [|pred preds IH]; intros n2i r Hc.
  { cbn [foldl length]. by replace (r - Z.of_nat 0) with r by lia. }
  cbn [foldl length].
  replace (r - Z.of_nat (S (length preds)))
    with (r - 1 - Z.of_nat (length preds)) by lia.
  by apply IH, add_successor_counted.
Qed.

Lemma add_counted node preds n2i :
  counted n2i node 0 → counted (graphlib.add node preds n2i) node 0.
Proof.
  intros Hc. apply (get_nodeinfo_counted node) in Hc as [Hnd Hc].
  unfold graphlib.add.
  set (d := graphlib._get_nodeinfo node n2i) in *.
  assert (od_mem node d = true) as Hmem by apply get_nodeinfo_mem.
  match goal with |- counted (foldl _ ?t _) _ _ => set (d' := t) end.
  assert (counted d' node (Z.of_nat (length preds))) as Hd'.
  { split; [by apply od_set_NoDup|].
    intros n. subst d'. rewrite od_set_keys, Hmem.
    match goal with |- context [waiting ?t _ _ _] =>
      rewrite (waiting_ext d t) end; first last.
    { intros p. destruct (decide (node = p)) as [->|Hne].
      - by rewrite info_set_eq.
      - by rewrite info_set_ne. }
    destruct (decide (node = n)) as [->|Hne].
    - rewrite info_set_eq. cbn [graphlib.npredecessors]. rewrite Hc.
      rewrite !bool_decide_eq_true_2 by done. lia.
    - rewrite info_set_ne by done. rewrite Hc.
      by rewrite !bool_decide_eq_false_2. }
  pose proof (foldl_add_successor_counted node preds d' _ Hd') as H.
  by replace (Z.of_nat (length preds) - Z.of_nat (length preds))
    with 0 in H by lia.
Qed.

Lemma counted_any_node n2i node node' :
  counted n2i node 0 → counted n2i node' 0.
Proof.
  intros [Hnd Hc]. split; [done|]. intros n. rewrite Hc.
  by do 2 case_bool_decide.
Qed.

(** After [TopologicalSorter(graph)] the counter of each node is the
    number of times it is listed as a successor. *)
Lemma init_counted graph node : counted (graphlib.init graph) node 0.
Proof.
  unfold graphlib.init.
  assert (counted [] node 0) as H0.
  { split; [constructor|]. intros n. cbn. by case_bool_decide. }
  revert H0. generalize ([] : list (string * graphlib.NodeInfo)).
  induction graph as [|[nd preds] graph IH]; intros d Hd; [done|].
  cbn [foldl]. apply IH.
  apply (counted_any_node _ nd), add_counted.
  by apply (counted_any_node _ node).
Qed.

(** The edges of the graph are in the table: a node is a successor of
    each of its predecessors. *)
Lemma add_successor_mono node pred n2i x p :
  x ∈ graphlib.successors (graphlib.info n2i p) →
  x ∈ graphlib.successors
        (graphlib.info (graphlib.add_successor node pred n2i) p).
Proof.
  intros Hx. unfold graphlib.add_successor.
  destruct (decide (pred = p)) as [->|Hne].
  - rewrite info_set_eq. cbn. rewrite info_get_nodeinfo.
    apply elem_of_app. by left.
  - by rewrite info_set_ne, info_get_nodeinfo.
Qed.

Lemma add_successor_in node pred n2i :
  node ∈ graphlib.successors
           (graphlib.info (graphlib.add_successor node pred n2i) pred).
Proof.
  unfold graphlib.add_successor. rewrite info_set_eq. cbn.
  apply elem_of_app. right. apply list_elem_of_here.
Qed.

Lemma foldl_add_successor_mono node preds n2i x p :
  x ∈ graphlib.successors (graphlib.info n2i p) →
  x ∈ graphlib.successors
        (graphlib.info
           (foldl (λ n2i pred, graphlib.add_successor node pred n2i)
              n2i preds) p).
Proof.
  revert n2i. induction preds as [|q preds IH]; intros n2i Hx; [done|].
  cbn [foldl]. by apply IH, add_successor_mono.
Qed.

Lemma foldl_add_successor_in node preds n2i pred :
  pred ∈ preds →
  node ∈ graphlib.successors
           (graphlib.info
              (foldl (λ n2i pred, graphlib.add_successor node pred n2i)
                 n2i preds) pred).
Proof.
  revert n2i. induction preds as [|q preds IH]; intros n2i.
  { by intros ?%elem_of_nil. }
  cbn [foldl]. intros [->|Hp]%elem_of_cons.
  - apply foldl_add_successor_mono, add_successor_in.
  - by apply IH.
Qed.

Lemma add_mono node preds n2i x p :
  x ∈ graphlib.successors (graphlib.info n2i p) →
  x ∈ graphlib.successors (graphlib.info (graphlib.add node preds n2i) p).
Proof.
  intros Hx. unfold graphlib.add. apply foldl_add_successor_mono.
  destruct (decide (node = p)) as [->|Hne].
  - rewrite info_set_eq. cbn. by rewrite info_get_nodeinfo.
  - by rewrite info_set_ne, info_get_nodeinfo.
Qed.

Lemma init_edges graph node preds pred :
  (node, preds) ∈ graph → pred ∈ preds →
  node ∈ graphlib.successors (graphlib.info (graphlib.init graph) pred).
Proof.
  unfold graphlib.init. generalize ([] : list (string * graphlib.NodeInfo)).
  induction graph as [|[nd ps] graph IH]; intros d.
  { by intros ?%elem_of_nil. }
  cbn [foldl]. intros [[= <- <-]|Hin]%elem_of_cons Hpred.
  - assert (node ∈ graphlib.successors
              (graphlib.info (graphlib.add node preds d) pred)) as Hadd
      by by apply foldl_add_successor_in.
    revert Hadd. generalize (graphlib.add node preds d). clear.
    induction graph as [|[nd ps] graph IH]; intros d Hd; [done|].
    cbn [foldl]. by apply IH, add_mono.
  - by apply IH.
Qed.

(** ** The rounds of [static_order] *)

Lemma successors_release ts s p :
  graphlib.successors
    (graphlib.info (graphlib._node2info (graphlib.release ts s)) p)
  = graphlib.successors (graphlib.info (graphlib._node2info ts) p).
Proof. apply successors_set_npredecessors. Qed.

Lemma npredecessors_release ts s n :
  graphlib.npredecessors
    (graphlib.info (graphlib._node2info (graphlib.release ts s)) n)
  = graphlib.npredecessors (graphlib.info (graphlib._node2info ts) n)
    - (if bool_decide (s = n) then 1 else 0).
Proof.
  unfold graphlib.release. cbn [graphlib._node2info].
  rewrite info_set_npredecessors.
  case_decide; case_bool_decide; subst; try done; cbn; lia.
Qed.

Lemma foldl_release_effect ss ts :
  (∀ p, graphlib.successors
          (graphlib.info
             (graphlib._node2info (foldl graphlib.release ts ss)) p)
        = graphlib.successors (graphlib.info (graphlib._node2info ts) p)) ∧
  (∀ n, graphlib.npredecessors
          (graphlib.info
             (graphlib._node2info (foldl graphlib.release ts ss)) n)
        = graphlib.npredecessors
            (graphlib.info (graphlib._node2info ts) n)
          - occurrences n ss).
Proof.
  revert ts. induction ss as [|s ss IH]; intros ts.
  { split; [done|]. intros n. rewrite occurrences_nil. cbn. lia. }
  cbn [foldl]. destruct (IH (graphlib.release ts s)) as [Hs Hn]. split.
  - intros p. by rewrite Hs, successors_release.
  - intros n. rewrite Hn, npredecessors_release, occurrences_cons. lia.
Qed.

Lemma done_effect nodes ts :
  (∀ p, graphlib.successors
          (graphlib.info
             (graphlib._node2info (graphlib.done nodes ts)) p)
        = graphlib.successors (graphlib.info (graphlib._node2info ts) p)) ∧
  (∀ n, n ∉ nodes →
        graphlib.npredecessors
          (graphlib.info
             (graphlib._node2info (graphlib.done nodes ts)) n)
        = graphlib.npredecessors
            (graphlib.info (graphlib._node2info ts) n)
          - foldr (λ p acc,
                     occurrences n
                       (graphlib.successors
                          (graphlib.info (graphlib._node2info ts) p))
                     + acc) 0 nodes).
Proof.
  unfold graphlib.done. revert ts.
  induction nodes as [|node nodes IH]; intros ts.
  { split; [done|]. intros n _. cbn. lia. }
  cbn [foldl foldr].
  match goal with |- context [foldl _ ?t nodes] => set (ts1 := t) end.
  assert ((∀ p, graphlib.successors
                  (graphlib.info (graphlib._node2info ts1) p)
                = graphlib.successors
                    (graphlib.info (graphlib._node2info ts) p)) ∧
          (∀ n, n ≠ node →
                graphlib.npredecessors
                  (graphlib.info (graphlib._node2info ts1) n)
                = graphlib.npredecessors
                    (graphlib.info (graphlib._node2info ts) n)
                  - occurrences n
                      (graphlib.successors
                         (graphlib.info (graphlib._node2info ts) node))))
    as [Hs1 Hn1].
  { subst ts1. cbn [graphlib._node2info graphlib._ready_nodes].
    match goal with |- context [foldl graphlib.release ?t ?ss] =>
      destruct (foldl_release_effect ss t) as [Hs Hn] end.
    cbn [graphlib._node2info] in Hs, Hn. split.
    - intros p. by rewrite Hs, successors_set_npredecessors.
    - intros n Hne. rewrite Hn, successors_set_npredecessors.
      rewrite info_set_npredecessors. by rewrite decide_False. }
  destruct (IH ts1) as [Hs Hn]. split.
  - intros p. by rewrite Hs, Hs1.
  - intros n [Hne Hnin]%not_elem_of_cons.
    rewrite (Hn n Hnin), (Hn1 n Hne).
    assert (foldr (λ p acc, occurrences n
              (graphlib.successors
                 (graphlib.info (graphlib._node2info ts1) p)) + acc) 0 nodes
            = foldr (λ p acc, occurrences n
              (graphlib.successors
                 (graphlib.info (graphlib._node2info ts) p)) + acc) 0 nodes)
      as ->; [|lia].
    clear -Hs1. induction nodes as [|q nodes IH]; [done|].
    cbn [foldr]. by rewrite IH, Hs1.
Qed.

Lemma mark_out_effect group n2i :
  (∀ p, graphlib.successors
          (graphlib.info
             (foldl (λ n2i node,
                       graphlib.set_npredecessors node graphlib._NODE_OUT
                         n2i) n2i group) p)
        = graphlib.successors (graphlib.info n2i p)) ∧
  (∀ n, n ∉ group →
        graphlib.npredecessors
          (graphlib.info
             (foldl (λ n2i node,
                       graphlib.set_npredecessors node graphlib._NODE_OUT
                         n2i) n2i group) n)
        = graphlib.npredecessors (graphlib.info n2i n)).
Proof.
  revert n2i. induction group as [|g group IH]; intros n2i; [done|].
  cbn [foldl].
  destruct (IH (graphlib.set_npredecessors g graphlib._NODE_OUT n2i))
    as [Hs Hn].
  split.
  - intros p. by rewrite Hs, successors_set_npredecessors.
  - intros n [Hne Hnin]%not_elem_of_cons.
    rewrite (Hn n Hnin), info_set_npredecessors. by rewrite decide_False.
Qed.

(** A ready node waits for nothing: all its predecessors have been
    passed out. *)
Lemma ready_predecessors_passed keys E ts n p :
  round_invariant keys E ts →
  n ∈ graphlib._ready_nodes ts →
  n ∈ graphlib.successors (graphlib.info (graphlib._node2info ts) p) →
  p ∈ E.
Proof.
  intros (Hk & Hs & Hnd & Hle & Hc) Hn Hp.
  assert (n ∉ E) as HnE.
  { apply NoDup_app in Hnd as (_ & Hd & _). intros HE. by apply (Hd n HE). }
  rewrite Forall_forall in Hle.
  assert (graphlib.npredecessors
            (graphlib.info (graphlib._node2info ts) n) ≤ 0) as H0
    by (apply Hle, elem_of_app; by right).
  rewrite (Hc n HnE) in H0.
  pose proof (waiting_nonneg (graphlib._node2info ts) keys E n).
  apply (waiting_zero (graphlib._node2info ts) keys E n p); [lia| |done].
  destruct (decide (p ∈ keys)) as [|Hpk]; [done|].
  rewrite (Hs p Hpk) in Hp. by apply elem_of_nil in Hp.
Qed.

Lemma foldr_occurrences_ext n2i n2i' n (nodes : list string) :
  (∀ p, graphlib.successors (graphlib.info n2i' p)
        = graphlib.successors (graphlib.info n2i p)) →
  foldr (λ p acc,
           occurrences n (graphlib.successors (graphlib.info n2i' p)) + acc)
    0 nodes
  = foldr (λ p acc,
             occurrences n (graphlib.successors (graphlib.info n2i p)) + acc)
      0 nodes.
Proof.
  intros Hs. induction nodes as [|q nodes IH]; [done|].
  cbn [foldr]. by rewrite IH, Hs.
Qed.

(** One round keeps the invariant, for the nodes passed out by then. *)
Lemma round_invariant_step keys E ts :
  round_invariant keys E ts →
  round_invariant keys (E ++ graphlib._ready_nodes ts)
    (graphlib.done (graphlib.get_ready ts).1 (graphlib.get_ready ts).2) ∧
  ∀ p, graphlib.successors
         (graphlib.info
            (graphlib._node2info
               (graphlib.done (graphlib.get_ready ts).1
                  (graphlib.get_ready ts).2)) p)
       = graphlib.successors (graphlib.info (graphlib._node2info ts) p).
Proof.
  intros (Hk & Hs & Hnd & Hle & Hc).
  unfold graphlib.get_ready. cbn [fst snd].
  set (group := graphlib._ready_nodes ts).
  match goal with |- context [graphlib.done group ?t] => set (ts1 := t) end.
  destruct (mark_out_effect group (graphlib._node2info ts)) as [Hms Hmn].
  destruct (done_effect group ts1) as [Hds Hdn].
  assert (∀ p, graphlib.successors
                 (graphlib.info
                    (graphlib._node2info (graphlib.done group ts1)) p)
               = graphlib.successors
                   (graphlib.info (graphlib._node2info ts) p)) as Hsucc.
  { intros p. rewrite Hds. subst ts1. cbn [graphlib._node2info]. apply Hms. }
  split; [|done].
  destruct (done_passed (E ++ group) group ts1) as [Hnd' Hle'].
  { subst ts1. cbn [graphlib._ready_nodes]. by rewrite app_nil_r. }
  { subst ts1. cbn [graphlib._ready_nodes graphlib._node2info].
    rewrite app_nil_r. rewrite Forall_forall in Hle |- *.
    intros n Hn. by apply foldl_mark_out_le, Hle. }
  split; [done|]. split.
  { intros p Hp. rewrite Hsucc. by apply Hs. }
  split; [done|]. split; [done|].
  intros n Hn. apply not_elem_of_app in Hn as [HnE Hng].
  rewrite (Hdn n Hng). subst ts1. cbn [graphlib._node2info].
  rewrite (Hmn n Hng), (Hc n HnE).
  rewrite (waiting_pass (graphlib._node2info ts) keys E group n);
    [|done|done|done].
  rewrite (waiting_ext (graphlib._node2info ts)
             (graphlib._node2info (graphlib.done group _))) by done.
  rewrite (foldr_occurrences_ext (graphlib._node2info ts) _ n group Hms).
  lia.
Qed.

(** In what [static_order] yields, every node comes after all the nodes
    that list it as a successor. *)
Lemma order_loop_before fuel keys ts E i n p :
  round_invariant keys E ts →
  graphlib.order_loop fuel ts !! i = Some n →
  n ∈ graphlib.successors (graphlib.info (graphlib._node2info ts) p) →
  p ∈ E ∨ ∃ j, (j < i)%nat ∧ graphlib.order_loop fuel ts !! j = Some p.
Proof.
  revert ts E i. induction fuel as [|fuel IH]; intros ts E i Hinv; [done|].
  cbn [graphlib.order_loop]. destruct (graphlib.is_active ts); [|done].
  destruct (round_invariant_step keys E ts Hinv) as [Hinv' Hsucc].
  destruct (graphlib.get_ready ts) as [group ts1] eqn:Hg.
  assert (group = graphlib._ready_nodes ts) as Hgroup
    by (unfold graphlib.get_ready in Hg; by injection Hg).
  cbn [fst snd] in Hinv', Hsucc.
  intros Hi Hp.
  destruct (decide (i < length group)%nat) as [Hlt|Hge].
  - rewrite lookup_app_l in Hi by done. left.
    apply (ready_predecessors_passed keys E ts n p); [done| |done].
    rewrite <- Hgroup. by eapply list_elem_of_lookup_2.
  - rewrite lookup_app_r in Hi by lia.
    rewrite <- Hgroup in Hinv'.
    destruct (IH (graphlib.done group ts1) (E ++ group)
                (i - length group)%nat Hinv' Hi) as [HE|(j & Hj & Hpj)].
    + by rewrite Hsucc.
    + apply elem_of_app in HE as [HE|HG]; [by left|]. right.
      apply list_elem_of_lookup_1 in HG as [j Hj]. exists j. split.
      * apply lookup_lt_Some in Hj. lia.
      * by rewrite lookup_app_l by by eapply lookup_lt_Some.
    + right. exists (length group + j)%nat. split; [lia|].
      rewrite lookup_app_r by lia.
      by replace (length group + j - length group)%nat with j by lia.
Qed.

Lemma static_order_before graph order i n p :
  graphlib.static_order graph = Ok order →
  order !! i = Some n →
  n ∈ graphlib.successors (graphlib.info (graphlib.init graph) p) →
  ∃ j, (j < i)%nat ∧ order !! j = Some p.
Proof.
  unfold graphlib.static_order, graphlib.prepare.
  destruct (graphlib.has_cycle (graphlib.init graph)); [done|].
  intros [= <-] Hi Hp. cbn [graphlib._node2info] in Hi |- *.
  match type of Hi with graphlib.order_loop ?f ?t !! _ = _ =>
    destruct (order_loop_before f (graphlib.init graph).*1 t [] i n p)
      as [HE|?]; [|done|done|by apply elem_of_nil in HE|done] end.
  destruct (init_counted graph "") as [Hnd Hc].
  split; [done|]. split.
  { intros q Hq. cbn [graphlib._node2info]. by rewrite info_not_key. }
  cbn [graphlib._ready_nodes graphlib._node2info app]. split.
  { apply NoDup_fmap_fst_filter, init_NoDup. }
  split.
  { apply Forall_forall.
    intros m ((k & x) & -> & [Hx Hin]%list_elem_of_filter)%list_elem_of_fmap.
    cbn [fst]. unfold graphlib.info.
    rewrite (od_get_elem_of k x _ (init_NoDup graph) Hin).
    cbn. cbn in Hx. lia. }
  intros m _. rewrite Hc. case_bool_decide; lia.
Qed.

(** ** The order in which the plugins are started *)

Lemma od_get_set {V} k k' (v : V) d :
  od_get k' (od_set k v d) = if bool_decide (k = k') then Some v
                             else od_get k' d.
Proof.
  case_bool_decide; subst; [apply od_get_set_eq|by apply od_get_set_ne].
Qed.

Lemma od_get_Some_elem_of {V} k (v : V) d : od_get k d = Some v → (k, v) ∈ d.
Proof.
  induction d as [|[k' v'] d IH]; cbn; [done|].
  case_bool_decide; subst.
  - intros [= ->]. apply list_elem_of_here.
  - intros. by apply list_elem_of_further, IH.
Qed.

(** The two dict comprehensions of [startPlugins] agree: the entry of a
    name in the graph comes from the class the name stands for. *)
Lemma dict_comprehension_get {V X} (key : X → string) (val : X → V) l k :
  od_get k (dict_comprehension key val l)
  = val <$> od_get k (dict_comprehension key (λ x, x) l).
Proof.
  unfold dict_comprehension.
  assert (od_get k ([] : list (string * V))
          = val <$> od_get k ([] : list (string * X))) as H0 by done.
  revert H0. generalize ([] : list (string * V)) ([] : list (string * X)).
  induction l as [|x l IH]; intros d d' Hd; [done|].
  cbn [foldl]. apply IH. rewrite !od_get_set. by case_bool_decide.
Qed.

Lemma start_each_keys class_dict order st r st' :
  NoDup order →
  (∀ n, n ∈ order → od_mem n (plugins st) = false) →
  start_each class_dict order st = (r, st') →
  ∃ k, (plugins st').*1 = (plugins st).*1 ++ take k order.
Proof.
  revert st. induction order as [|name order IH]; intros st Hnd Hfresh.
  { intros [= _ <-]. exists 0%nat. by rewrite app_nil_r. }
  apply NoDup_cons in Hnd as [Hname Hnd].
  cbn [start_each]. run_start_monad.
  unfold od_getitem. destruct (od_get name class_dict) as [cls|].
  2: { intros [= _ <-]. exists 0%nat. cbn. by rewrite app_nil_r. }
  rewrite (Hfresh name) by apply list_elem_of_here.
  intros Hrest. apply IH in Hrest as [k Hk]; [|done|].
  - exists (S k). etrans; [exact Hk|]. cbn [plugins take].
    rewrite od_set_keys, (Hfresh name) by apply list_elem_of_here.
    by rewrite <- app_assoc.
  - intros n Hn. cbn [plugins]. rewrite od_mem_set.
    rewrite (Hfresh n) by by apply list_elem_of_further.
    rewrite bool_decide_eq_false_2; [done|]. by intros ->.
Qed.

(** X12: [startPlugins] never starts a plugin before one it depends on:
    called with no plugin registered yet, it registers the plugins in an
    order in which each one comes after all the dependencies its class
    declares, whether it ends well or with an exception. *)
Theorem startPlugins_dependencies_first set_iter plugin_classes st r st'
    i name cls dep :
  (∀ l x, x ∈ l → x ∈ set_iter l) →
  plugins st = [] →
  startPlugins set_iter plugin_classes st = (r, st') →
  (plugins st').*1 !! i = Some name →
  od_get name (plugin_class_dict plugin_classes) = Some cls →
  dep ∈ PluginClass.dependencies cls →
  ∃ j, (j < i)%nat ∧ (plugins st').*1 !! j = Some dep.
Proof.
  intros Hset Hempty. unfold startPlugins, bind, lift.
  destruct (graphlib.static_order _) as [order|e] eqn:Horder.
  2: { intros [= _ <-]. by rewrite Hempty. }
  intros Hstart Hi Hcls Hdep.
  destruct (start_each_keys (plugin_class_dict plugin_classes)
              order st r st') as [k Hk];
    [by eapply static_order_NoDup|intros n _; by rewrite Hempty|done|].
  rewrite Hempty in Hk. cbn [fmap list_fmap app] in Hk. rewrite Hk in Hi |- *.
  apply lookup_take_Some in Hi as [Hi Hik].
  destruct (static_order_before _ order i name dep Horder Hi)
    as (j & Hj & Hpj).
  - apply (init_edges _ name (set_iter (PluginClass.dependencies cls)));
      [|by apply Hset].
    apply od_get_Some_elem_of. unfold plugin_graph.
    rewrite dict_comprehension_get. unfold plugin_class_dict in Hcls.
    by rewrite Hcls.
  - exists j. split; [done|]. apply lookup_take_Some. split; [done|lia].
Qed.

Lemma startPlugins_dependencies_first_witness :
  ∃ j, (j < 2)%nat ∧
    (plugins
       (snd (startPlugins remove_dups
               [plugin_class "Course" "course" ["streams"; "usergroup"];
                plugin_class "Streams" "streams" [];
                plugin_class "Usergroup" "usergroup" ["streams"]]
               start_state))).*1 !! j = Some "usergroup".
Proof.
  apply (startPlugins_dependencies_first remove_dups
           [plugin_class "Course" "course" ["streams"; "usergroup"];
            plugin_class "Streams" "streams" [];
            plugin_class "Usergroup" "usergroup" ["streams"]]
           start_state (Ok tt) _ 2 "course"
           (plugin_class "Course" "course" ["streams"; "usergroup"])).
  - intros l x Hx. by apply elem_of_remove_dups.
  - reflexivity.
  - reflexivity.
  - reflexivity.
  - reflexivity.
  - cbn. apply list_elem_of_further, list_elem_of_here.
Defined.

(** ** What [startPlugins] registers *)

Lemma dict_comprehension_key {X} (key : X → string) l k x :
  od_get k (dict_comprehension key (λ x, x) l) = Some x → key x = k.
Proof.
  unfold dict_comprehension.
  assert (∀ y, od_get k ([] : list (string * X)) = Some y → key y = k)
    as H0 by done.
  revert x H0. generalize ([] : list (string * X)).
  induction l as [|z l IH]; intros d x Hd; [by apply Hd|].
  cbn [foldl]. apply IH. intros y. rewrite od_get_set.
  case_bool_decide; [by intros [= <-]|by apply Hd].
Qed.

Lemma od_set_fresh {V} k (v : V) d :
  od_mem k d = false → od_set k v d = d ++ [(k, v)].
Proof.
  unfold od_mem. induction d as [|[k' v'] d IH]; [done|].
  cbn [od_get od_set app]. case_bool_decide; [done|].
  intros Hd. by rewrite IH.
Qed.

Lemma start_each_registry class_dict order st r st' :
  NoDup order →
  (∀ n, n ∈ order → od_mem n (plugins st) = false) →
  start_each class_dict order st = (r, st') →
  ∃ started,
    plugins st' = plugins st ++ started ∧
    instantiated st'
    = instantiated st ++ ((λ p, Plugin.class_name p.2) <$> started) ∧
    Forall (λ p, ∃ cls, od_get p.1 class_dict = Some cls
                        ∧ p.2 = PluginClass.new cls) started.
Proof.
  revert st. induction order as [|name order IH]; intros st Hnd Hfresh.
  { intros [= _ <-]. exists []. by rewrite !app_nil_r. }
  apply NoDup_cons in Hnd as [Hname Hnd].
  cbn [start_each]. run_start_monad.
  unfold od_getitem. destruct (od_get name class_dict) as [cls|] eqn:Hcls.
  2: { intros [= _ <-]. exists []. cbn. by rewrite !app_nil_r. }
  rewrite (Hfresh name) by apply list_elem_of_here.
  intros Hrest. apply IH in Hrest as (started & Hp & Hi & Hall); [|done|].
  - exists ((name, PluginClass.new cls) :: started). split; [|split].
    + etrans; [exact Hp|]. cbn [plugins].
      rewrite od_set_fresh by apply Hfresh, list_elem_of_here.
      by rewrite <- app_assoc.
    + etrans; [exact Hi|]. cbn [instantiated fmap list_fmap snd].
      by rewrite <- app_assoc.
    + apply Forall_cons. split; [by exists cls|done].
  - intros n Hn. cbn [plugins]. rewrite od_mem_set.
    rewrite (Hfresh n) by by apply list_elem_of_further.
    rewrite bool_decide_eq_false_2; [done|]. by intros ->.
Qed.

(** X13: Called with no plugin registered yet, [startPlugins] creates an
    instance only to register it: the instances created are those of the
    registry, in its order; no name is registered twice; and each name
    stands for an instance of the class that declares this name (of the
    last such class, if several do). *)
Theorem startPlugins_registry set_iter plugin_classes st r st' :
  plugins st = [] →
  startPlugins set_iter plugin_classes st = (r, st') →
  NoDup (plugins st').*1 ∧
  instantiated st'
  = instantiated st ++ ((λ p, Plugin.class_name p.2) <$> plugins st') ∧
  Forall (λ p, ∃ cls,
            od_get p.1 (plugin_class_dict plugin_classes) = Some cls ∧
            PluginClass.plugin_name cls = p.1 ∧
            p.2 = PluginClass.new cls) (plugins st').
Proof.
  intros Hempty. unfold startPlugins, bind, lift.
  destruct (graphlib.static_order _) as [order|e] eqn:Horder.
  2: { intros [= _ <-]. rewrite Hempty. cbn. rewrite app_nil_r.
       split; [constructor|done]. }
  intros Hstart.
  assert (NoDup order) as Hnd by by eapply static_order_NoDup.
  destruct (start_each_keys (plugin_class_dict plugin_classes)
              order st r st') as [k Hk];
    [done|intros n _; by rewrite Hempty|done|].
  destruct (start_each_registry (plugin_class_dict plugin_classes)
              order st r st') as (started & Hp & Hi & Hall);
    [done|intros n _; by rewrite Hempty|done|].
  rewrite Hempty in Hk, Hp. cbn [fmap list_fmap app] in Hk, Hp.
  split; [|split].
  - rewrite Hk. eapply sublist_NoDup; [exact Hnd|apply sublist_take].
  - by rewrite Hi, Hp.
  - rewrite Hp. eapply Forall_impl; [exact Hall|].
    intros [name p] (cls & Hcls & ->). exists cls.
    split; [done|]. split; [|done].
    by apply (dict_comprehension_key PluginClass.plugin_name
                plugin_classes).
Qed.

Lemma startPlugins_registry_witness :
  NoDup (plugins
           (snd (startPlugins remove_dups
                   [plugin_class "First" "a" [];
                    plugin_class "Second" "a" []] start_state))).*1 ∧
  instantiated
    (snd (startPlugins remove_dups
            [plugin_class "First" "a" []; plugin_class "Second" "a" []]
            start_state))
  = instantiated start_state ++
    ((λ p, Plugin.class_name p.2)
     <$> plugins
           (snd (startPlugins remove_dups
                   [plugin_class "First" "a" [];
                    plugin_class "Second" "a" []] start_state))) ∧
  Forall (λ p, ∃ cls,
            od_get p.1
              (plugin_class_dict
                 [plugin_class "First" "a" []; plugin_class "Second" "a" []])
            = Some cls ∧
            PluginClass.plugin_name cls = p.1 ∧
            p.2 = PluginClass.new cls)
    (plugins
       (snd (startPlugins remove_dups
               [plugin_class "First" "a" []; plugin_class "Second" "a" []]
               start_state))).
Proof.
  apply (startPlugins_registry remove_dups
           [plugin_class "First" "a" []; plugin_class "Second" "a" []]
           start_state (Ok tt)); reflexivity.
Defined.

(** ** A dependency that is not registered *)

Lemma npredecessors_add_successor node pred n2i x :
  graphlib.npredecessors
    (graphlib.info (graphlib.add_successor node pred n2i) x)
  = graphlib.npredecessors (graphlib.info n2i x).
Proof.
  unfold graphlib.add_successor.
  destruct (decide (pred = x)) as [->|Hne].
  - rewrite info_set_eq. cbn. by rewrite info_get_nodeinfo.
  - by rewrite info_set_ne, info_get_nodeinfo.
Qed.

Lemma npredecessors_add_other node preds n2i x :
  x ≠ node →
  graphlib.npredecessors (graphlib.info (graphlib.add node preds n2i) x)
  = graphlib.npredecessors (graphlib.info n2i x).
Proof.
  intros Hne. unfold graphlib.add.
  match goal with |- context [foldl _ ?t preds] => set (d := t) end.
  assert (graphlib.npredecessors (graphlib.info d x)
          = graphlib.npredecessors (graphlib.info n2i x)) as <-.
  { subst d. by rewrite info_set_ne, info_get_nodeinfo. }
  generalize d. clear. induction preds as [|p preds IH]; intros d; [done|].
  cbn [foldl]. by rewrite IH, npredecessors_add_successor.
Qed.

(** A node that is no key of the graph has no predecessors. *)
Lemma init_npredecessors_other graph x :
  x ∉ graph.*1 →
  graphlib.npredecessors (graphlib.info (graphlib.init graph) x) = 0.
Proof.
  unfold graphlib.init.
  assert (graphlib.npredecessors
            (graphlib.info ([] : list (string * graphlib.NodeInfo)) x) = 0)
    as H0 by done.
  revert H0. generalize ([] : list (string * graphlib.NodeInfo)).
  induction graph as [|[nd ps] graph IH]; intros d Hd Hx; [done|].
  cbn [fmap list_fmap fst] in Hx. apply not_elem_of_cons in Hx as [Hne Hx].
  cbn [foldl]. apply IH; [|done].
  by rewrite npredecessors_add_other.
Qed.

Lemma elem_of_keys_info k n2i :
  k ∈ n2i.*1 → (k, graphlib.info n2i k) ∈ n2i.
Proof.
  intros Hk. apply od_mem_elem_of in Hk. unfold od_mem, graphlib.info in *.
  destruct (od_get k n2i) eqn:Hg; [|done]. by apply od_get_Some_elem_of.
Qed.

(** The first round passes out the nodes without predecessors. *)
Lemma static_order_first_round graph order x :
  graphlib.static_order graph = Ok order →
  x ∈ (graphlib.init graph).*1 →
  graphlib.npredecessors (graphlib.info (graphlib.init graph) x) = 0 →
  x ∈ order.
Proof.
  unfold graphlib.static_order, graphlib.prepare.
  destruct (graphlib.has_cycle (graphlib.init graph)); [done|].
  intros [= <-] Hx H0. cbn [graphlib._node2info].
  set (n2i := graphlib.init graph) in *.
  assert (x ∈ (filter (λ '(_, i), graphlib.npredecessors i = 0) n2i).*1)
    as Hready.
  { apply list_elem_of_fmap. exists (x, graphlib.info n2i x).
    split; [done|]. apply list_elem_of_filter. split; [done|].
    by apply elem_of_keys_info. }
  assert (∃ m, length n2i = S m) as [m ->].
  { destruct n2i; [by apply elem_of_nil in Hx|by eexists]. }
  cbn [graphlib.order_loop].
  unfold graphlib.is_active. cbn [graphlib._ready_nodes].
  rewrite (bool_decide_eq_true_2 (_ ≠ [])).
  2: { intros Hnil. rewrite Hnil in Hready. by apply elem_of_nil in Hready. }
  rewrite orb_true_r. unfold graphlib.get_ready.
  cbn [graphlib._ready_nodes]. apply elem_of_app. by left.
Qed.

Lemma start_each_unregistered class_dict order st u :
  NoDup order →
  (∀ n, n ∈ order → od_mem n (plugins st) = false) →
  u ∈ order → od_get u class_dict = None →
  ∃ k st', start_each class_dict order st = (Raise (KeyError k), st') ∧
           od_get k class_dict = None.
Proof.
  revert st. induction order as [|name order IH]; intros st Hnd Hfresh Hu Hn.
  { by apply elem_of_nil in Hu. }
  apply NoDup_cons in Hnd as [Hname Hnd].
  cbn [start_each]. run_start_monad.
  unfold od_getitem. destruct (od_get name class_dict) as [cls|] eqn:Hcls.
  2: { by eexists _, _. }
  rewrite (Hfresh name) by apply list_elem_of_here.
  apply elem_of_cons in Hu as [->|Hu]; [congruence|].
  apply IH; [done| |done|done].
  intros n Hin. cbn [plugins]. rewrite od_mem_set.
  rewrite (Hfresh n) by by apply list_elem_of_further.
  rewrite bool_decide_eq_false_2; [done|]. by intros ->.
Qed.

Lemma successors_key n2i p x :
  x ∈ graphlib.successors (graphlib.info n2i p) → p ∈ n2i.*1.
Proof.
  intros Hx. apply od_mem_elem_of. unfold od_mem, graphlib.info in *.
  destruct (od_get p n2i); [done|]. by apply elem_of_nil in Hx.
Qed.

(** ** Dependency cycles *)

Lemma chain_app R x l1 z l2 y :
  chain R x (l1 ++ z :: l2) y ↔ chain R x l1 z ∧ chain R z l2 y.
Proof.
  revert x. induction l1 as [|a l1 IH]; intros x; cbn; [done|].
  rewrite IH. tauto.
Qed.

Lemma not_NoDup_split (l : list string) :
  ¬ NoDup l → ∃ l1 a l2 l3, l = l1 ++ a :: l2 ++ a :: l3.
Proof.
  induction l as [|b l IH]; intros Hl.
  { destruct Hl. constructor. }
  destruct (decide (b ∈ l)) as [Hb|Hb].
  - apply list_elem_of_split in Hb as (l2 & l3 & ->).
    by exists [], b, l2, l3.
  - destruct IH as (l1 & a & l2 & l3 & ->).
    { intros Hnd. apply Hl. by constructor. }
    by exists (b :: l1), a, l2, l3.
Qed.

(** A cycle contains one that visits no node twice. *)
Lemma chain_simple R x l :
  chain R x l x → ∃ x' l', chain R x' l' x' ∧ NoDup (x' :: l').
Proof.
  remember (length l) as n eqn:Hn. revert x l Hn.
  induction (lt_wf n) as [n _ IH]. intros x l -> Hc.
  destruct (decide (NoDup (x :: l))) as [Hnd|Hnd]; [by eauto|].
  apply not_NoDup_split in Hnd as (l1 & a & l2 & l3 & Hl).
  destruct l1 as [|b l1]; injection Hl as -> ->.
  - apply chain_app in Hc as [Hc _].
    apply (IH (length l2)) in Hc; [done| |done].
    rewrite length_app. cbn. lia.
  - apply chain_app in Hc as [_ Hc]. apply chain_app in Hc as [Hc _].
    apply (IH (length l2)) in Hc; [done| |done].
    rewrite !length_app. cbn. rewrite length_app. cbn. lia.
Qed.

Lemma reach_snoc n2i k y z x :
  z ∈ graphlib.reach n2i k y →
  x ∈ graphlib.successors (graphlib.info n2i z) →
  x ∈ graphlib.reach n2i (S k) y.
Proof.
  revert y. induction k as [|k IH]; intros y Hz Hx.
  { by apply elem_of_nil in Hz. }
  cbn [graphlib.reach] in Hz |- *.
  apply elem_of_app. right. apply list_elem_of_In, in_flat_map.
  apply elem_of_app in Hz as [Hz|Hz].
  - exists z. split; [by apply list_elem_of_In|].
    apply list_elem_of_In. cbn [graphlib.reach].
    apply elem_of_app. by left.
  - apply list_elem_of_In, in_flat_map in Hz as (w & Hw & Hz).
    exists w. split; [done|].
    apply list_elem_of_In, IH; [by apply list_elem_of_In|done].
Qed.

Lemma chain_reach n2i k x l y :
  chain (λ a b, a ∈ graphlib.successors (graphlib.info n2i b)) x l y →
  (length l < k)%nat →
  x ∈ graphlib.reach n2i k y.
Proof.
  revert x k. induction l as [|z l IH]; intros x k Hc Hk.
  - destruct k as [|k]; [lia|]. cbn in Hc |- *.
    apply elem_of_app. by left.
  - destruct k as [|k]; [cbn in Hk; lia|]. destruct Hc as [Hxz Hc].
    apply (reach_snoc _ _ _ z); [|done].
    apply IH; [done|]. cbn in Hk. lia.
Qed.

Lemma chain_keys n2i x l y :
  chain (λ a b, a ∈ graphlib.successors (graphlib.info n2i b)) x l y →
  ∀ n, n ∈ l ++ [y] → n ∈ n2i.*1.
Proof.
  revert x. induction l as [|z l IH]; intros x Hc n Hn.
  - apply list_elem_of_singleton in Hn as ->. by eapply successors_key.
  - destruct Hc as [Hxz Hc].
    apply elem_of_cons in Hn as [->|Hn]; [by eapply successors_key|].
    by eapply IH.
Qed.

Lemma chain_impl (R R' : string → string → Prop) x l y :
  (∀ a b, R a b → R' a b) → chain R x l y → chain R' x l y.
Proof.
  intros HR. revert x. induction l as [|z l IH]; intros x; cbn; [by auto|].
  intros [? ?]. split; [by auto|by apply IH].
Qed.

Lemma simple_cycle_found n2i x l :
  NoDup n2i.*1 →
  NoDup (x :: l) →
  chain (λ a b, a ∈ graphlib.successors (graphlib.info n2i b)) x l x →
  graphlib.has_cycle n2i = true.
Proof.
  intros Hkeys Hnd Hc. unfold graphlib.has_cycle.
  apply existsb_exists. exists (x, graphlib.info n2i x).
  pose proof (chain_keys _ _ _ _ Hc) as Hin.
  split.
  - apply list_elem_of_In, elem_of_keys_info, Hin, elem_of_app.
    right. apply list_elem_of_here.
  - apply bool_decide_eq_true_2, (chain_reach _ _ _ l); [done|].
    assert (length (l ++ [x]) ≤ length n2i.*1)%nat as Hlen.
    { apply submseteq_length, NoDup_submseteq; [|done].
      apply NoDup_app. apply NoDup_cons in Hnd as [Hx Hl].
      split; [done|]. split; [|apply NoDup_singleton].
      intros n Hn ->%list_elem_of_singleton. done. }
    rewrite length_app, length_fmap in Hlen. cbn in Hlen. lia.
Qed.

(** X14: [startPlugins] with a dependency cycle: when the classes
    registered under some names require each other in a circle,
    [prepare()] raises [CycleError] before the first plugin is looked at:
    nothing is instantiated, registered or logged. *)
Theorem startPlugins_cycle set_iter plugin_classes st x l :
  (∀ l x, x ∈ l → x ∈ set_iter l) →
  chain (requires plugin_classes) x l x →
  startPlugins set_iter plugin_classes st = (Raise CycleError, st).
Proof.
  intros Hset Hc.
  set (n2i := graphlib.init (plugin_graph set_iter plugin_classes)).
  assert (chain (λ a b, a ∈ graphlib.successors (graphlib.info n2i b))
            x l x) as Hs.
  { revert Hc. apply chain_impl. intros a b (cls & Hcls & Hdep).
    apply (init_edges _ a (set_iter (PluginClass.dependencies cls)));
      [|by apply Hset].
    apply od_get_Some_elem_of. unfold plugin_graph.
    rewrite dict_comprehension_get. fold (plugin_class_dict plugin_classes).
    by rewrite Hcls. }
  apply chain_simple in Hs as (x' & l' & Hs & Hnd).
  unfold startPlugins, bind, lift, graphlib.static_order, graphlib.prepare.
  fold n2i.
  by rewrite (simple_cycle_found n2i x' l' (init_NoDup _) Hnd Hs).
Qed.

Lemma startPlugins_cycle_witness :
  startPlugins remove_dups
    [plugin_class "First" "a" ["b"]; plugin_class "Second" "b" ["a"]]
    start_state
  = (Raise CycleError, start_state).
Proof.
  apply (startPlugins_cycle remove_dups
           [plugin_class "First" "a" ["b"]; plugin_class "Second" "b" ["a"]]
           start_state "a" ["b"]).
  - intros l x. by rewrite elem_of_remove_dups.
  - split.
    + exists (plugin_class "First" "a" ["b"]).
      split; [reflexivity|apply list_elem_of_here].
    + exists (plugin_class "Second" "b" ["a"]).
      split; [reflexivity|apply list_elem_of_here].
Defined.

(** ** The loop of [static_order] ends *)

Lemma od_set_key_mono {V} k k' (v : V) d :
  k ∈ d.*1 → k ∈ (od_set k' v d).*1.
Proof.
  intros Hk. rewrite od_set_keys. destruct (od_mem k' d); [done|].
  apply elem_of_app. by left.
Qed.

Lemma od_set_key_in {V} k (v : V) d : k ∈ (od_set k v d).*1.
Proof.
  rewrite od_set_keys. destruct (od_mem k d) eqn:Hk.
  - by apply od_mem_elem_of.
  - apply elem_of_app. right. apply list_elem_of_here.
Qed.

Lemma get_nodeinfo_key_mono k k' n2i :
  k ∈ n2i.*1 → k ∈ (graphlib._get_nodeinfo k' n2i).*1.
Proof.
  intros Hk. unfold graphlib._get_nodeinfo.
  destruct (od_mem k' n2i); [done|]. by apply od_set_key_mono.
Qed.

Lemma add_successor_key_mono node pred n2i k :
  k ∈ n2i.*1 → k ∈ (graphlib.add_successor node pred n2i).*1.
Proof.
  intros Hk. unfold graphlib.add_successor.
  by apply od_set_key_mono, get_nodeinfo_key_mono.
Qed.

Lemma add_successor_successors node pred n2i p x :
  x ∈ graphlib.successors
        (graphlib.info (graphlib.add_successor node pred n2i) p) →
  x ∈ graphlib.successors (graphlib.info n2i p) ∨ x = node.
Proof.
  unfold graphlib.add_successor.
  destruct (decide (pred = p)) as [->|Hne].
  - rewrite info_set_eq. cbn. rewrite info_get_nodeinfo.
    intros [?|?%list_elem_of_singleton]%elem_of_app; by auto.
  - rewrite info_set_ne, info_get_nodeinfo by done. by auto.
Qed.

Lemma foldl_add_successor_closed node preds n2i :
  node ∈ n2i.*1 →
  (∀ p x, x ∈ graphlib.successors (graphlib.info n2i p) → x ∈ n2i.*1) →
  let n2i' :=
    foldl (λ n2i pred, graphlib.add_successor node pred n2i) n2i preds in
  ∀ p x, x ∈ graphlib.successors (graphlib.info n2i' p) → x ∈ n2i'.*1.
Proof.
  revert n2i. induction preds as [|q preds IH]; intros n2i Hnode Hcl;
    [done|].
  cbn [foldl]. apply IH.
  - by apply add_successor_key_mono.
  - intros p x [Hx| ->]%add_successor_successors.
    + by eapply add_successor_key_mono, Hcl.
    + by apply add_successor_key_mono.
Qed.

Lemma add_closed node preds n2i :
  (∀ p x, x ∈ graphlib.successors (graphlib.info n2i p) → x ∈ n2i.*1) →
  ∀ p x,
    x ∈ graphlib.successors (graphlib.info (graphlib.add node preds n2i) p)
    → x ∈ (graphlib.add node preds n2i).*1.
Proof.
  intros Hcl. unfold graphlib.add. apply foldl_add_successor_closed.
  - apply od_set_key_in.
  - intros p x Hx. apply od_set_key_mono, get_nodeinfo_key_mono, (Hcl p).
    revert Hx. destruct (decide (node = p)) as [->|Hne].
    + rewrite info_set_eq. cbn. by rewrite info_get_nodeinfo.
    + by rewrite info_set_ne, info_get_nodeinfo.
Qed.

Lemma init_closed graph p x :
  x ∈ graphlib.successors (graphlib.info (graphlib.init graph) p) →
  x ∈ (graphlib.init graph).*1.
Proof.
  unfold graphlib.init. revert p x.
  assert (∀ p x,
            x ∈ graphlib.successors
                  (graphlib.info ([] : list (string * graphlib.NodeInfo)) p)
            → x ∈ ([] : list (string * graphlib.NodeInfo)).*1) as H0
    by done.
  revert H0. generalize ([] : list (string * graphlib.NodeInfo)).
  induction graph as [|[nd ps] graph IH]; intros d Hd; [done|].
  cbn [foldl]. by apply IH, add_closed.
Qed.

Lemma set_npredecessors_keys node v n2i :
  node ∈ n2i.*1 → (graphlib.set_npredecessors node v n2i).*1 = n2i.*1.
Proof.
  intros Hk%od_mem_elem_of. unfold graphlib.set_npredecessors.
  by rewrite od_set_keys, Hk.
Qed.

Lemma mark_out_keys group n2i :
  (∀ x, x ∈ group → x ∈ n2i.*1) →
  (foldl (λ n2i node,
            graphlib.set_npredecessors node graphlib._NODE_OUT n2i)
     n2i group).*1 = n2i.*1.
Proof.
  revert n2i. induction group as [|g group IH]; intros n2i Hg; [done|].
  cbn [foldl].
  assert ((graphlib.set_npredecessors g graphlib._NODE_OUT n2i).*1
          = n2i.*1) as Hk
    by apply set_npredecessors_keys, Hg, list_elem_of_here.
  rewrite IH; [done|]. intros x Hx. rewrite Hk.
  by apply Hg, list_elem_of_further.
Qed.

Lemma foldl_release_settled keys ss ts :
  (graphlib._node2info ts).*1 = keys →
  (∀ x, x ∈ ss → x ∈ keys) →
  (∀ x, x ∈ graphlib._ready_nodes ts → x ∈ keys) →
  let ts' := foldl graphlib.release ts ss in
  (graphlib._node2info ts').*1 = keys ∧
  (∀ x, x ∈ graphlib._ready_nodes ts' → x ∈ keys) ∧
  graphlib._nfinished ts' = graphlib._nfinished ts ∧
  graphlib._npassedout ts' = graphlib._npassedout ts.
Proof.
  revert ts. induction ss as [|s ss IH]; intros ts Hk Hss Hr; [done|].
  cbn [foldl].
  assert (s ∈ keys) as Hs by apply Hss, list_elem_of_here.
  destruct (IH (graphlib.release ts s)) as (Hk' & Hr' & Hf & Hp).
  - unfold graphlib.release. cbn [graphlib._node2info].
    rewrite set_npredecessors_keys; [done|by rewrite Hk].
  - intros x Hx. by apply Hss, list_elem_of_further.
  - unfold graphlib.release. cbn [graphlib._ready_nodes].
    intros x. case_bool_decide; [|by apply Hr].
    intros [?|Hx%list_elem_of_singleton]%elem_of_app; [by apply Hr|by subst].
  - done.
Qed.

Lemma done_settled keys nodes ts :
  (graphlib._node2info ts).*1 = keys →
  (∀ p x, x ∈ graphlib.successors (graphlib.info (graphlib._node2info ts) p)
          → x ∈ keys) →
  (∀ x, x ∈ nodes → x ∈ keys) →
  (∀ x, x ∈ graphlib._ready_nodes ts → x ∈ keys) →
  let ts' := graphlib.done nodes ts in
  (graphlib._node2info ts').*1 = keys ∧
  (∀ x, x ∈ graphlib._ready_nodes ts' → x ∈ keys) ∧
  graphlib._nfinished ts' = (graphlib._nfinished ts + length nodes)%nat ∧
  graphlib._npassedout ts' = graphlib._npassedout ts.
Proof.
  unfold graphlib.done. revert ts.
  induction nodes as [|node nodes IH]; intros ts Hk Hcl Hn Hr.
  { cbn. by rewrite Nat.add_0_r. }
  cbn [foldl].
  match goal with
  | |- context [foldl graphlib.release ?t ?ss] =>
      destruct (foldl_release_settled keys ss t) as (Hk' & Hr' & Hf & Hp);
      [| |done|]
  end.
  { cbn [graphlib._node2info]. rewrite set_npredecessors_keys; [done|].
    rewrite Hk. apply Hn, list_elem_of_here. }
  { cbn [graphlib._node2info]. intros x.
    rewrite successors_set_npredecessors. apply Hcl. }
  match goal with
  | |- context [foldl _ ?t nodes] =>
      destruct (IH t) as (Hk'' & Hr'' & Hf'' & Hp'')
  end.
  - done.
  - cbn [graphlib._node2info]. intros p x.
    match goal with
    | |- context [foldl graphlib.release ?t ?ss] =>
        pose proof (foldl_release_effect ss t) as [Hsucc _]
    end.
    rewrite Hsucc. cbn [graphlib._node2info].
    rewrite successors_set_npredecessors. apply Hcl.
  - intros x Hx. by apply Hn, list_elem_of_further.
  - done.
  - split; [done|]. split; [done|]. split.
    + rewrite Hf''. cbn [graphlib._nfinished]. rewrite Hf.
      cbn [graphlib._nfinished length]. lia.
    + rewrite Hp''. cbn [graphlib._npassedout]. by rewrite Hp.
Qed.

Lemma round_settled keys ts :
  settled keys ts →
  settled keys
    (graphlib.done (graphlib.get_ready ts).1 (graphlib.get_ready ts).2).
Proof.
  intros (Hk & Hcl & Hr & Hf).
  unfold graphlib.get_ready. cbn [fst snd].
  match goal with
  | |- settled _ (graphlib.done ?g ?t) =>
      pose proof (done_effect g t) as [Hsucc _];
      destruct (done_settled keys g t) as (Hk' & Hr' & Hf' & Hp')
  end.
  - cbn [graphlib._node2info]. rewrite mark_out_keys; [done|].
    intros x Hx. rewrite Hk. by apply Hr.
  - cbn [graphlib._node2info]. intros p x.
    match goal with
    | |- context [foldl ?f ?n ?g] =>
        pose proof (mark_out_effect g n) as [Hm _]
    end.
    rewrite Hm. apply Hcl.
  - done.
  - cbn [graphlib._ready_nodes]. by intros x ?%elem_of_nil.
  - split; [done|]. split; [|split; [done|]].
    + intros p x. rewrite Hsucc. cbn [graphlib._node2info].
      match goal with
      | |- context [foldl ?f ?n ?g] =>
          pose proof (mark_out_effect g n) as [Hm _]
      end.
      rewrite Hm. apply Hcl.
    + rewrite Hf', Hp'. cbn [graphlib._nfinished graphlib._npassedout].
      by rewrite Hf.
Qed.

Lemma order_loop_keys fuel keys ts x :
  settled keys ts → x ∈ graphlib.order_loop fuel ts → x ∈ keys.
Proof.
  revert ts. induction fuel as [|fuel IH]; intros ts Hs.
  { by intros ?%elem_of_nil. }
  cbn [graphlib.order_loop]. destruct (graphlib.is_active ts); [|
    by intros ?%elem_of_nil].
  pose proof (round_settled keys ts Hs) as Hs'.
  destruct Hs as (_ & _ & Hr & _).
  unfold graphlib.get_ready in *. cbn [fst snd] in Hs'.
  intros [Hx|Hx]%elem_of_app; [by apply Hr|]. by eapply IH.
Qed.

Lemma order_loop_prefix fuel k ts :
  graphlib.order_loop fuel ts `prefix_of` graphlib.order_loop (fuel + k) ts.
Proof.
  revert ts. induction fuel as [|fuel IH]; intros ts.
  { apply prefix_nil. }
  cbn [Nat.add graphlib.order_loop].
  destruct (graphlib.is_active ts); [|done].
  unfold graphlib.get_ready. apply prefix_app, IH.
Qed.

(** A round passes out a node at least, or the loop has ended. *)
Lemma order_loop_progress fuel keys ts :
  settled keys ts →
  (fuel ≤ length (graphlib.order_loop fuel ts))%nat ∨
  ∀ k, graphlib.order_loop (fuel + k) ts = graphlib.order_loop fuel ts.
Proof.
  revert ts. induction fuel as [|fuel IH]; intros ts Hs.
  { left. lia. }
  cbn [Nat.add graphlib.order_loop].
  destruct (graphlib.is_active ts) eqn:Hact; [|by right].
  pose proof (round_settled keys ts Hs) as Hs'.
  destruct Hs as (_ & _ & _ & Hf).
  unfold graphlib.is_active in Hact. rewrite Hf in Hact.
  rewrite bool_decide_eq_false_2 in Hact by lia.
  apply bool_decide_eq_true_1 in Hact.
  unfold graphlib.get_ready in *. cbn [fst snd] in Hs'.
  destruct (IH _ Hs') as [Hlen|Hstable].
  - left. rewrite length_app.
    assert (1 ≤ length (graphlib._ready_nodes ts))%nat.
    { destruct (graphlib._ready_nodes ts); [done|]. cbn [length]. lia. }
    lia.
  - right. intros k. by rewrite Hstable.
Qed.

(** The loop [while self.is_active()] of [static_order] ends within as
    many rounds as the graph has nodes: more rounds give the same order. *)
Lemma static_order_rounds graph ts k :
  graphlib.prepare (graphlib.init graph) = Ok ts →
  graphlib.order_loop (length (graphlib._node2info ts) + k) ts
  = graphlib.order_loop (length (graphlib._node2info ts)) ts.
Proof.
  unfold graphlib.prepare.
  destruct (graphlib.has_cycle (graphlib.init graph)); [done|].
  intros [= <-]. cbn [graphlib._node2info].
  set (n2i := graphlib.init graph).
  set (ts := {| graphlib._node2info := n2i |}).
  assert (settled n2i.*1 ts) as Hs.
  { split; [done|]. split; [apply init_closed|]. split; [|done].
    cbn [graphlib._ready_nodes]. intros x (y & -> & Hy)%list_elem_of_fmap.
    apply list_elem_of_filter in Hy as [_ Hy].
    apply list_elem_of_fmap. by exists y. }
  assert (∀ f, length (graphlib.order_loop f ts) ≤ length n2i)%nat as Hlen.
  { intros f. rewrite <- (length_fmap fst n2i).
    apply submseteq_length, NoDup_submseteq.
    - apply (order_loop_NoDup _ _ []); cbn [graphlib._ready_nodes
                                             graphlib._node2info app].
      + apply NoDup_fmap_fst_filter, init_NoDup.
      + apply Forall_fmap, Forall_forall. intros [n i] Hin.
        apply list_elem_of_filter in Hin as [Hz Hin]. cbn in Hz |- *.
        rewrite (od_get_elem_of n i); [cbn; lia|apply init_NoDup|done].
    - intros x. by apply order_loop_keys. }
  destruct (order_loop_progress (length n2i) _ ts Hs) as [Hge|Hstable];
    [|by apply Hstable].
  symmetry. apply prefix_length_eq; [apply order_loop_prefix|].
  specialize (Hlen (length n2i + k)%nat). lia.
Qed.

(** ** Every node is passed out *)

Lemma release_forgotten keys E ts s :
  none_forgotten keys E ts → none_forgotten keys E (graphlib.release ts s).
Proof.
  intros Hz n Hn. unfold graphlib.release.
  cbn [graphlib._node2info graphlib._ready_nodes].
  rewrite info_set_npredecessors. case_decide as Hs; cbn.
  - subst n. intros H0. rewrite bool_decide_eq_true_2 by done.
    rewrite app_assoc. apply elem_of_app. right. apply list_elem_of_here.
  - intros H0. specialize (Hz n Hn H0).
    case_bool_decide; [|done].
    rewrite app_assoc. apply elem_of_app. by left.
Qed.

Lemma foldl_release_forgotten keys E ss ts :
  none_forgotten keys E ts →
  none_forgotten keys E (foldl graphlib.release ts ss).
Proof.
  revert ts. induction ss as [|s ss IH]; intros ts Hz; [done|].
  cbn [foldl]. by apply IH, release_forgotten.
Qed.

Lemma done_forgotten keys E nodes ts :
  none_forgotten keys E ts →
  none_forgotten keys E (graphlib.done nodes ts).
Proof.
  unfold graphlib.done. revert ts.
  induction nodes as [|node nodes IH]; intros ts Hz; [done|].
  cbn [foldl]. apply IH.
  match goal with
  | |- context [foldl graphlib.release ?t ?ss] =>
      pose proof (foldl_release_forgotten keys E ss t) as Hr
  end.
  intros n Hn. cbn [graphlib._node2info graphlib._ready_nodes].
  apply Hr; [|done].
  intros m Hm. cbn [graphlib._node2info graphlib._ready_nodes].
  rewrite info_set_npredecessors. case_decide; cbn; [done|]. by apply Hz.
Qed.

Lemma round_forgotten keys E ts :
  none_forgotten keys E ts →
  none_forgotten keys (E ++ graphlib._ready_nodes ts)
    (graphlib.done (graphlib.get_ready ts).1 (graphlib.get_ready ts).2).
Proof.
  intros Hz. unfold graphlib.get_ready. cbn [fst snd].
  apply done_forgotten. intros n Hn.
  cbn [graphlib._node2info graphlib._ready_nodes]. rewrite app_nil_r.
  destruct (decide (n ∈ graphlib._ready_nodes ts)) as [Hr|Hr].
  { intros _. apply elem_of_app. by right. }
  destruct (mark_out_effect (graphlib._ready_nodes ts)
              (graphlib._node2info ts)) as [_ Hm].
  rewrite (Hm n Hr). by apply Hz.
Qed.

Lemma occurrences_elem_of n l : occurrences n l ≠ 0 → n ∈ l.
Proof.
  induction l as [|x l IH]; [done|]. rewrite occurrences_cons.
  case_bool_decide; subst; [intros _; apply list_elem_of_here|].
  intros Ho. apply list_elem_of_further, IH. lia.
Qed.

(** A node that waits has a predecessor that has not been passed out. *)
Lemma waiting_predecessor n2i keys E n :
  waiting n2i keys E n ≠ 0 →
  ∃ p, p ∈ keys ∧ (p ∉ E) ∧
       n ∈ graphlib.successors (graphlib.info n2i p).
Proof.
  induction keys as [|q keys IH]; [done|]. rewrite waiting_cons.
  destruct (decide (occurrences n
                      (graphlib.successors (graphlib.info n2i q)) ≠ 0
                    ∧ q ∉ E)) as [[Ho Hq]|Hno].
  - intros _. exists q. split; [apply list_elem_of_here|].
    split; [done|]. by apply occurrences_elem_of.
  - intros Hw. destruct IH as (p & Hp & HpE & Hn).
    + case_bool_decide; [lia|].
      intros Hk. apply Hno. split; [lia|done].
    + exists p. split; [by apply list_elem_of_further|done].
Qed.

Lemma chain_snoc R x l y z :
  chain R x l y → R y z → chain R x (l ++ [y]) z.
Proof. intros. by apply chain_app. Qed.

(** A chain that visits a node twice contains a cycle. *)
Lemma chain_cycle R x l y :
  chain R x l y → ¬ NoDup (x :: l) → ∃ a l', chain R a l' a.
Proof.
  intros Hc Hnd.
  apply not_NoDup_split in Hnd as (l1 & a & l2 & l3 & Hl).
  destruct l1 as [|b l1]; injection Hl as -> ->.
  - apply chain_app in Hc as [Hc _]. by eauto.
  - apply chain_app in Hc as [_ Hc]. apply chain_app in Hc as [Hc _].
    by eauto.
Qed.

(** When no node is ready, the nodes that have not been passed out lie
    on chains of any length. *)
Lemma stuck_chain keys E ts n k :
  round_invariant keys E ts →
  none_forgotten keys E ts →
  graphlib._ready_nodes ts = [] →
  n ∈ keys → n ∉ E →
  ∃ l y,
    length l = k ∧
    chain (λ a b, a ∈ graphlib.successors
                        (graphlib.info (graphlib._node2info ts) b)) n l y ∧
    (∀ x, x ∈ l → x ∈ keys) ∧ y ∈ keys ∧ (y ∉ E).
Proof.
  intros (Hk & Hs & Hnd & Hle & Hc) Hz Hready Hn HnE.
  assert (∀ m, m ∈ keys → m ∉ E →
               ∃ p, p ∈ keys ∧ (p ∉ E) ∧
                    m ∈ graphlib.successors
                          (graphlib.info (graphlib._node2info ts) p))
    as Hpred.
  { intros m Hm HmE. apply (waiting_predecessor _ keys E m).
    rewrite <- (Hc m HmE). intros H0. apply HmE.
    specialize (Hz m Hm H0). by rewrite Hready, app_nil_r in Hz. }
  induction k as [|k IH].
  - destruct (Hpred n Hn HnE) as (p & Hp & HpE & Hnp).
    exists [], p. split; [done|]. split; [done|]. split; [|done].
    by intros x ?%elem_of_nil.
  - destruct IH as (l & y & Hlen & Hch & Hl & Hy & HyE).
    destruct (Hpred y Hy HyE) as (p & Hp & HpE & Hyp).
    exists (l ++ [y]), p. split; [rewrite length_app; cbn; lia|].
    split; [by apply chain_snoc|]. split; [|done].
    intros x [Hx|Hx%list_elem_of_singleton]%elem_of_app;
      [by apply Hl|by subst].
Qed.

Lemma stuck_cycle keys E ts n :
  round_invariant keys E ts →
  none_forgotten keys E ts →
  graphlib._ready_nodes ts = [] →
  n ∈ keys → n ∉ E →
  ∃ a l,
    chain (λ a b, a ∈ graphlib.successors
                        (graphlib.info (graphlib._node2info ts) b)) a l a.
Proof.
  intros Hinv Hz Hready Hn HnE.
  destruct (stuck_chain keys E ts n (length keys) Hinv Hz Hready Hn HnE)
    as (l & y & Hlen & Hch & Hl & Hy & HyE).
  apply (chain_cycle _ _ _ _ Hch). intros Hnd.
  assert (length (n :: l) ≤ length keys)%nat as Hle.
  { apply submseteq_length, NoDup_submseteq; [done|].
    intros x [->|Hx]%elem_of_cons; [done|by apply Hl]. }
  cbn [length] in Hle. lia.
Qed.

(** What [prepare] sets up. *)
Lemma prepare_invariants graph ts :
  graphlib.prepare (graphlib.init graph) = Ok ts →
  graphlib._node2info ts = graphlib.init graph ∧
  round_invariant (graphlib.init graph).*1 [] ts ∧
  none_forgotten (graphlib.init graph).*1 [] ts ∧
  settled (graphlib.init graph).*1 ts.
Proof.
  unfold graphlib.prepare.
  destruct (graphlib.has_cycle (graphlib.init graph)); [done|].
  intros [= <-]. split; [done|]. split; [|split].
  - destruct (init_counted graph "") as [Hnd Hc].
    split; [done|]. split.
    { intros q Hq. cbn [graphlib._node2info]. by rewrite info_not_key. }
    cbn [graphlib._ready_nodes graphlib._node2info app]. split.
    { apply NoDup_fmap_fst_filter, init_NoDup. }
    split.
    { apply Forall_forall.
      intros m ((k & x) & -> & [Hx Hin]%list_elem_of_filter)%list_elem_of_fmap.
      cbn [fst]. unfold graphlib.info.
      rewrite (od_get_elem_of k x _ (init_NoDup graph) Hin).
      cbn. cbn in Hx. lia. }
    intros m _. rewrite Hc. case_bool_decide; lia.
  - intros n Hn H0. cbn [graphlib._node2info graphlib._ready_nodes app] in *.
    apply list_elem_of_fmap. exists (n, graphlib.info (graphlib.init graph) n).
    split; [done|]. apply list_elem_of_filter. split; [done|].
    by apply elem_of_keys_info.
  - split; [done|]. split; [apply init_closed|]. split; [|done].
    cbn [graphlib._ready_nodes]. intros x (y & -> & Hy)%list_elem_of_fmap.
    apply list_elem_of_filter in Hy as [_ Hy].
    apply list_elem_of_fmap. by exists y.
Qed.

Lemma order_loop_complete fuel keys E ts n2i n :
  round_invariant keys E ts →
  none_forgotten keys E ts →
  settled keys ts →
  (∀ p, graphlib.successors (graphlib.info (graphlib._node2info ts) p)
        = graphlib.successors (graphlib.info n2i p)) →
  (∀ a l, ¬ chain (λ a b, a ∈ graphlib.successors (graphlib.info n2i b))
              a l a) →
  n ∈ keys →
  n ∈ E ++ graphlib.order_loop fuel ts ∨
  (fuel ≤ length (graphlib.order_loop fuel ts))%nat.
Proof.
  revert E ts. induction fuel as [|fuel IH];
    intros E ts Hinv Hz Hs Hsucc Hacyc Hn.
  { right. lia. }
  cbn [graphlib.order_loop].
  destruct (graphlib.is_active ts) eqn:Hact.
  - destruct (round_invariant_step keys E ts Hinv) as [Hinv' Hsucc'].
    pose proof (round_forgotten keys E ts Hz) as Hz'.
    pose proof (round_settled keys ts Hs) as Hs'.
    destruct Hs as (_ & _ & _ & Hf).
    unfold graphlib.is_active in Hact. rewrite Hf in Hact.
    rewrite bool_decide_eq_false_2 in Hact by lia.
    apply bool_decide_eq_true_1 in Hact.
    unfold graphlib.get_ready in *. cbn [fst snd] in *.
    destruct (IH _ _ Hinv' Hz' Hs') as [Hin|Hlen]; [|done|done| |].
    + intros p. by rewrite Hsucc'.
    + left. by rewrite app_assoc.
    + right. rewrite length_app.
      assert (1 ≤ length (graphlib._ready_nodes ts))%nat.
      { destruct (graphlib._ready_nodes ts); [done|]. cbn [length]. lia. }
      lia.
  - left. rewrite app_nil_r.
    destruct (decide (n ∈ E)) as [|HnE]; [done|].
    apply orb_false_elim in Hact as [_ Hready].
    apply bool_decide_eq_false_1 in Hready.
    assert (graphlib._ready_nodes ts = []) as Hnil.
    { destruct (graphlib._ready_nodes ts); [done|]. by destruct Hready. }
    destruct (stuck_cycle keys E ts n Hinv Hz Hnil Hn HnE) as (a & l & Hc).
    destruct (Hacyc a l). revert Hc. apply chain_impl.
    intros x y. by rewrite Hsucc.
Qed.

(** Without a cycle, [static_order] yields every node of the graph. *)
Lemma static_order_complete graph order n :
  graphlib.static_order graph = Ok order →
  n ∈ (graphlib.init graph).*1 → n ∈ order.
Proof.
  unfold graphlib.static_order.
  destruct (graphlib.prepare (graphlib.init graph)) as [ts|e] eqn:Hprep;
    [|done].
  intros [= <-] Hn.
  destruct (prepare_invariants graph ts Hprep) as (Hts & Hinv & Hz & Hs).
  assert (graphlib.has_cycle (graphlib.init graph) = false) as Hacyc.
  { unfold graphlib.prepare in Hprep.
    by destruct (graphlib.has_cycle (graphlib.init graph)). }
  rewrite Hts.
  set (keys := (graphlib.init graph).*1) in *.
  set (fuel := length (graphlib.init graph)).
  destruct (order_loop_complete fuel keys [] ts (graphlib.init graph) n
              Hinv Hz Hs) as [Hin|Hlen]; [by rewrite Hts| |done|done|].
  { intros a l Hc. apply chain_simple in Hc as (x & l' & Hc & Hnd).
    by rewrite (simple_cycle_found _ x l' (init_NoDup graph) Hnd Hc)
      in Hacyc. }
  assert (graphlib.order_loop fuel ts ⊆+ keys) as Hsub.
  { apply NoDup_submseteq.
    - destruct Hinv as (_ & _ & Hnd & Hle & _).
      apply (order_loop_NoDup _ _ []); by cbn [app] in *.
    - intros x. by apply order_loop_keys. }
  apply submseteq_length_Permutation in Hsub.
  - by rewrite Hsub.
  - subst keys fuel. rewrite length_fmap. lia.
Qed.

(** ** The edges and the nodes of the graph of [startPlugins] *)

Lemma reach_chain n2i k x y :
  x ∈ graphlib.reach n2i k y →
  ∃ l, chain (λ a b, a ∈ graphlib.successors (graphlib.info n2i b)) x l y.
Proof.
  revert y. induction k as [|k IH]; intros y.
  { by intros ?%elem_of_nil. }
  cbn [graphlib.reach]. intros [Hx|Hx]%elem_of_app.
  - by exists [].
  - apply list_elem_of_In, in_flat_map in Hx as (w & Hw & Hx).
    apply list_elem_of_In in Hw, Hx.
    destruct (IH w Hx) as (l & Hc).
    exists (l ++ [w]). by apply chain_snoc.
Qed.

Lemma has_cycle_chain n2i :
  graphlib.has_cycle n2i = true →
  ∃ x l, chain (λ a b, a ∈ graphlib.successors (graphlib.info n2i b)) x l x.
Proof.
  unfold graphlib.has_cycle. intros ([x i] & _ & Hx)%existsb_exists.
  apply bool_decide_eq_true_1, reach_chain in Hx as (l & Hc). by eauto.
Qed.

Lemma add_successor_edge node pred n2i p x :
  x ∈ graphlib.successors
        (graphlib.info (graphlib.add_successor node pred n2i) p) →
  x ∈ graphlib.successors (graphlib.info n2i p) ∨ (x = node ∧ p = pred).
Proof.
  unfold graphlib.add_successor.
  destruct (decide (pred = p)) as [->|Hne].
  - rewrite info_set_eq. cbn. rewrite info_get_nodeinfo.
    intros [?|?%list_elem_of_singleton]%elem_of_app; by auto.
  - rewrite info_set_ne, info_get_nodeinfo by done. by auto.
Qed.

Lemma add_edge node preds n2i p x :
  x ∈ graphlib.successors (graphlib.info (graphlib.add node preds n2i) p) →
  x ∈ graphlib.successors (graphlib.info n2i p) ∨ (x = node ∧ p ∈ preds).
Proof.
  unfold graphlib.add.
  match goal with |- context [foldl _ ?t preds] => set (d := t) end.
  assert (∀ q, graphlib.successors (graphlib.info d q)
               = graphlib.successors (graphlib.info n2i q)) as Hd.
  { intros q. subst d. destruct (decide (node = q)) as [->|Hne].
    - rewrite info_set_eq. cbn. by rewrite info_get_nodeinfo.
    - by rewrite info_set_ne, info_get_nodeinfo. }
  rewrite <- Hd. generalize d. clear.
  induction preds as [|q preds IH]; intros d; [by auto|].
  cbn [foldl]. intros [[Hx|[-> ->]]%add_successor_edge|[-> Hp]]%IH.
  - by left.
  - right. split; [done|apply list_elem_of_here].
  - right. split; [done|by apply list_elem_of_further].
Qed.

Lemma init_edge graph p x :
  x ∈ graphlib.successors (graphlib.info (graphlib.init graph) p) →
  ∃ preds, (x, preds) ∈ graph ∧ p ∈ preds.
Proof.
  unfold graphlib.init.
  assert (∀ p x,
            x ∈ graphlib.successors
                  (graphlib.info ([] : list (string * graphlib.NodeInfo)) p)
            → ∃ preds, (x, preds) ∈ ([] : list (string * list string))
                       ∧ p ∈ preds) as H0.
  { by intros ?? ?%elem_of_nil. }
  revert p x H0.
  generalize ([] : list (string * graphlib.NodeInfo)).
  change graph with ([] ++ graph) at 2.
  generalize ([] : list (string * list string)).
  induction graph as [|[nd ps] graph IH]; intros seen d p x Hd.
  { rewrite app_nil_r. apply Hd. }
  cbn [foldl]. rewrite (cons_middle _ seen), app_assoc. apply IH.
  intros q y [Hy|[-> Hq]]%add_edge.
  - destruct (Hd q y Hy) as (preds & Hin & Hq). exists preds.
    split; [|done]. apply elem_of_app. by left.
  - exists ps. split; [|done]. apply elem_of_app. right.
    apply list_elem_of_here.
Qed.

Lemma add_successor_key node pred n2i k :
  k ∈ (graphlib.add_successor node pred n2i).*1 → k ∈ n2i.*1 ∨ k = pred.
Proof.
  unfold graphlib.add_successor, graphlib._get_nodeinfo.
  rewrite od_set_keys. destruct (od_mem pred n2i) eqn:Hm.
  - rewrite Hm. by auto.
  - rewrite od_mem_set, bool_decide_eq_true_2 by done.
    rewrite od_set_keys, Hm.
    intros [?|?%list_elem_of_singleton]%elem_of_app; by auto.
Qed.

Lemma foldl_add_successor_key node preds n2i k :
  k ∈ (foldl (λ n2i pred, graphlib.add_successor node pred n2i)
         n2i preds).*1 →
  k ∈ n2i.*1 ∨ k ∈ preds.
Proof.
  revert n2i. induction preds as [|q preds IH]; intros n2i; [by auto|].
  cbn [foldl]. intros [[?| ->]%add_successor_key|?]%IH.
  - by left.
  - right. apply list_elem_of_here.
  - right. by apply list_elem_of_further.
Qed.

Lemma add_key node preds n2i k :
  k ∈ (graphlib.add node preds n2i).*1 →
  k ∈ n2i.*1 ∨ k = node ∨ k ∈ preds.
Proof.
  unfold graphlib.add. intros [Hk|Hk]%foldl_add_successor_key; [|by auto].
  revert Hk. unfold graphlib._get_nodeinfo.
  rewrite od_set_keys. destruct (od_mem node n2i) eqn:Hm.
  - rewrite Hm. by auto.
  - rewrite od_mem_set, bool_decide_eq_true_2 by done.
    rewrite od_set_keys, Hm.
    intros [?|?%list_elem_of_singleton]%elem_of_app; by auto.
Qed.

Lemma init_key graph k :
  k ∈ (graphlib.init graph).*1 →
  k ∈ graph.*1 ∨ ∃ node preds, (node, preds) ∈ graph ∧ k ∈ preds.
Proof.
  unfold graphlib.init.
  assert (∀ k, k ∈ ([] : list (string * graphlib.NodeInfo)).*1 →
               k ∈ ([] : list (string * list string)).*1
               ∨ ∃ node preds,
                   (node, preds) ∈ ([] : list (string * list string))
                   ∧ k ∈ preds) as H0.
  { by intros ? ?%elem_of_nil. }
  revert k H0.
  generalize ([] : list (string * graphlib.NodeInfo)).
  change graph with ([] ++ graph) at 2 3.
  generalize ([] : list (string * list string)).
  induction graph as [|[nd ps] graph IH]; intros seen d k Hd.
  { rewrite app_nil_r. apply Hd. }
  cbn [foldl]. rewrite (cons_middle _ seen), app_assoc. apply IH.
  intros k' [Hk|[->|Hk]]%add_key.
  - destruct (Hd k' Hk) as [Hin|(node & preds & Hin & Hp)].
    + left. rewrite fmap_app. apply elem_of_app. by left.
    + right. exists node, preds. split; [|done]. apply elem_of_app. by left.
  - left. rewrite fmap_app. apply elem_of_app. right. apply list_elem_of_here.
  - right. exists nd, ps. split; [|done]. apply elem_of_app. right.
    apply list_elem_of_here.
Qed.

Lemma add_key_mono node preds n2i k :
  k ∈ n2i.*1 → k ∈ (graphlib.add node preds n2i).*1.
Proof.
  intros Hk. unfold graphlib.add.
  match goal with |- context [foldl _ ?t preds] => set (d := t) end.
  assert (k ∈ d.*1) as Hd
    by by apply od_set_key_mono, get_nodeinfo_key_mono.
  revert Hd. generalize d. clear.
  induction preds as [|q preds IH]; intros d Hd; [done|].
  cbn [foldl]. by apply IH, add_successor_key_mono.
Qed.

Lemma add_key_in node preds n2i :
  node ∈ (graphlib.add node preds n2i).*1.
Proof.
  unfold graphlib.add.
  match goal with |- context [foldl _ ?t preds] => set (d := t) end.
  assert (node ∈ d.*1) as Hd by apply od_set_key_in.
  revert Hd. generalize d. clear.
  induction preds as [|q preds IH]; intros d Hd; [done|].
  cbn [foldl]. by apply IH, add_successor_key_mono.
Qed.

Lemma init_key_in graph k : k ∈ graph.*1 → k ∈ (graphlib.init graph).*1.
Proof.
  unfold graphlib.init. generalize ([] : list (string * graphlib.NodeInfo)).
  induction graph as [|[nd ps] graph IH]; intros d.
  { by intros ?%elem_of_nil. }
  cbn [foldl fmap list_fmap fst].
  assert (∀ d', nd ∈ d'.*1 →
                nd ∈ (foldl (λ n2i '(node, predecessors),
                               graphlib.add node predecessors n2i)
                        d' graph).*1) as Hmono.
  { clear. induction graph as [|[nd' ps'] graph IH]; intros d' Hd'; [done|].
    cbn [foldl]. by apply IH, add_key_mono. }
  intros [->|Hk]%elem_of_cons; [|by apply IH].
  apply Hmono, add_key_in.
Qed.

Lemma static_order_keys graph order n :
  graphlib.static_order graph = Ok order →
  n ∈ order → n ∈ (graphlib.init graph).*1.
Proof.
  unfold graphlib.static_order.
  destruct (graphlib.prepare (graphlib.init graph)) as [ts|e] eqn:Hprep;
    [|done].
  intros [= <-].
  destruct (prepare_invariants graph ts Hprep) as (_ & _ & _ & Hs).
  by apply order_loop_keys.
Qed.

Lemma dict_comprehension_keys {V X} (key : X → string) (val : X → V) l k :
  k ∈ (dict_comprehension key val l).*1 ↔ ∃ x, x ∈ l ∧ key x = k.
Proof.
  unfold dict_comprehension.
  assert (k ∈ ([] : list (string * V)).*1
          ↔ ∃ x, x ∈ ([] : list X) ∧ key x = k) as H0.
  { split; [by intros ?%elem_of_nil|]. by intros (? & ?%elem_of_nil & _). }
  revert H0. generalize ([] : list (string * V)).
  change l with ([] ++ l) at 2. generalize ([] : list X).
  induction l as [|x l IH]; intros seen d Hd.
  { by rewrite app_nil_r. }
  cbn [foldl]. rewrite (cons_middle _ seen), app_assoc. apply IH.
  rewrite od_set_keys. split.
  - destruct (od_mem (key x) d) eqn:Hm.
    + intros (y & Hy & <-)%Hd. exists y. split; [|done].
      apply elem_of_app. by left.
    + intros [(y & Hy & <-)%Hd|Hk%list_elem_of_singleton]%elem_of_app.
      * exists y. split; [|done]. apply elem_of_app. by left.
      * exists x. split; [|done]. apply elem_of_app. right.
        apply list_elem_of_here.
  - intros (y & [Hy|Hy%list_elem_of_singleton]%elem_of_app & <-);
      [|subst y].
    + assert (key y ∈ d.*1) as Hin by (apply Hd; by eauto).
      destruct (od_mem (key x) d); [done|]. apply elem_of_app. by left.
    + destruct (od_mem (key x) d) eqn:Hm; [by apply od_mem_elem_of|].
      apply elem_of_app. right. apply list_elem_of_here.
Qed.

Lemma dict_comprehension_NoDup {V X} (key : X → string) (val : X → V) l :
  NoDup (dict_comprehension key val l).*1.
Proof.
  unfold dict_comprehension.
  assert (NoDup ([] : list (string * V)).*1) as H0 by constructor.
  revert H0. generalize ([] : list (string * V)).
  induction l as [|x l IH]; intros d Hd; [done|].
  cbn [foldl]. by apply IH, od_set_NoDup.
Qed.

(** ** Every plugin is started *)

Lemma start_each_all class_dict order st :
  NoDup order →
  (∀ n, n ∈ order → od_mem n (plugins st) = false) →
  (∀ n, n ∈ order → od_mem n class_dict = true) →
  ∃ st', start_each class_dict order st = (Ok tt, st') ∧
         (plugins st').*1 = (plugins st).*1 ++ order.
Proof.
  revert st. induction order as [|name order IH]; intros st Hnd Hfresh Hreg.
  { exists st. by rewrite app_nil_r. }
  apply NoDup_cons in Hnd as [Hname Hnd].
  cbn [start_each]. run_start_monad.
  pose proof (Hreg name (list_elem_of_here _ _)) as Hcls.
  unfold od_getitem. unfold od_mem in Hcls.
  destruct (od_get name class_dict) as [cls|]; [|done].
  rewrite (Hfresh name) by apply list_elem_of_here.
  match goal with
  | |- context [start_each _ _ ?s] => destruct (IH s) as (st' & Hrun & Hkeys)
  end.
  - done.
  - intros n Hin. cbn [plugins]. rewrite od_mem_set.
    rewrite (Hfresh n) by by apply list_elem_of_further.
    rewrite bool_decide_eq_false_2; [done|]. by intros ->.
  - intros n Hin. by apply Hreg, list_elem_of_further.
  - exists st'. split; [done|]. etrans; [exact Hkeys|]. cbn [plugins].
    rewrite od_set_keys, (Hfresh name) by apply list_elem_of_here.
    by rewrite <- app_assoc.
Qed.

Lemma graph_entry_requires set_iter plugin_classes a preds b :
  (∀ l x, x ∈ set_iter l → x ∈ l) →
  (a, preds) ∈ plugin_graph set_iter plugin_classes →
  b ∈ preds →
  requires plugin_classes a b.
Proof.
  intros Hset Hin Hb.
  apply od_get_elem_of in Hin; [|apply dict_comprehension_NoDup].
  unfold plugin_graph in Hin. rewrite dict_comprehension_get in Hin.
  fold (plugin_class_dict plugin_classes) in Hin.
  destruct (od_get a (plugin_class_dict plugin_classes)) as [cls|] eqn:Hcls;
    [|done].
  injection Hin as <-. exists cls. split; [done|]. by apply Hset.
Qed.

(** Classes that do not require each other in a circle give a graph in
    which [prepare] finds no cycle. *)
Lemma acyclic_has_cycle set_iter plugin_classes :
  (∀ l x, x ∈ set_iter l → x ∈ l) →
  (∀ a l, ¬ chain (requires plugin_classes) a l a) →
  graphlib.has_cycle
    (graphlib.init (plugin_graph set_iter plugin_classes)) = false.
Proof.
  intros Hset Hacyclic.
  destruct (graphlib.has_cycle _) eqn:Hc; [|done].
  apply has_cycle_chain in Hc as (x & l & Hc).
  destruct (Hacyclic x l). revert Hc. apply chain_impl.
  intros a b (preds & Hin & Hb)%init_edge.
  by eapply graph_entry_requires.
Qed.

(** X15: [startPlugins] starts every plugin: called with no plugin
    registered yet, on classes whose dependencies all name a class of the
    list and do not require each other in a circle, it returns without an
    exception and has registered exactly the names the classes give, each
    once. *)
Theorem startPlugins_starts_all set_iter plugin_classes st :
  (∀ l x, x ∈ set_iter l ↔ x ∈ l) →
  plugins st = [] →
  (∀ a b, requires plugin_classes a b →
          ∃ c, c ∈ plugin_classes ∧ PluginClass.plugin_name c = b) →
  (∀ a l, ¬ chain (requires plugin_classes) a l a) →
  ∃ st',
    startPlugins set_iter plugin_classes st = (Ok tt, st') ∧
    NoDup (plugins st').*1 ∧
    ∀ name, name ∈ (plugins st').*1
            ↔ ∃ c, c ∈ plugin_classes ∧ PluginClass.plugin_name c = name.
Proof.
  intros Hset Hempty Hreg Hacyclic.
  assert (∀ l x, x ∈ set_iter l → x ∈ l) as Hset1 by (intros; by apply Hset).
  set (graph := plugin_graph set_iter plugin_classes).
  assert (graphlib.has_cycle (graphlib.init graph) = false) as Hacyc
    by by apply acyclic_has_cycle.
  unfold startPlugins, bind, lift. fold graph.
  destruct (graphlib.static_order graph) as [order|e] eqn:Horder.
  2: { unfold graphlib.static_order, graphlib.prepare in Horder.
       by rewrite Hacyc in Horder. }
  assert (∀ n, n ∈ order
               ↔ ∃ c, c ∈ plugin_classes ∧ PluginClass.plugin_name c = n)
    as Horder_iff.
  { intros n. split.
    - intros Hn. apply (static_order_keys graph order n Horder) in Hn.
      apply init_key in Hn as [Hn|(node & preds & Hin & Hn)].
      + by apply dict_comprehension_keys in Hn.
      + by eapply Hreg, graph_entry_requires.
    - intros Hn. apply (static_order_complete graph order n Horder).
      apply init_key_in. by apply dict_comprehension_keys. }
  destruct (start_each_all (plugin_class_dict plugin_classes) order st)
    as (st' & Hrun & Hkeys).
  - by eapply static_order_NoDup.
  - intros n _. by rewrite Hempty.
  - intros n Hn. apply od_mem_elem_of, dict_comprehension_keys.
    by apply Horder_iff.
  - exists st'. split; [done|]. rewrite Hkeys, Hempty. cbn [fmap list_fmap app].
    split; [by eapply static_order_NoDup|done].
Qed.

Lemma example_requires a b :
  requires [plugin_class "First" "a" ["b"]; plugin_class "Second" "b" []]
    a b →
  a = "a" ∧ b = "b".
Proof.
  intros (cls & Hcls & Hdep).
  change (plugin_class_dict _)
    with [("a", plugin_class "First" "a" ["b"]);
          ("b", plugin_class "Second" "b" [])] in Hcls.
  cbn [od_get] in Hcls.
  destruct (bool_decide ("a" = a)) eqn:Ha.
  - apply bool_decide_eq_true_1 in Ha as <-. injection Hcls as <-.
    by apply list_elem_of_singleton in Hdep.
  - destruct (bool_decide ("b" = a)); [|done]. injection Hcls as <-.
    by apply elem_of_nil in Hdep.
Qed.

Lemma example_acyclic a l :
  ¬ chain
      (requires [plugin_class "First" "a" ["b"];
                 plugin_class "Second" "b" []]) a l a.
Proof.
  destruct l as [|z l]; cbn.
  - by intros [-> ?]%example_requires.
  - intros [[-> ->]%example_requires Hc].
    destruct l as [|z l]; cbn in Hc.
    + by apply example_requires in Hc as [? _].
    + destruct Hc as [[? _]%example_requires _]. done.
Qed.

Lemma startPlugins_starts_all_witness :
  ∃ st',
    startPlugins remove_dups
      [plugin_class "First" "a" ["b"]; plugin_class "Second" "b" []]
      start_state = (Ok tt, st') ∧
    NoDup (plugins st').*1 ∧
    ∀ name, name ∈ (plugins st').*1
            ↔ ∃ c, c ∈ [plugin_class "First" "a" ["b"];
                        plugin_class "Second" "b" []]
                   ∧ PluginClass.plugin_name c = name.
Proof.
  apply (startPlugins_starts_all remove_dups
           [plugin_class "First" "a" ["b"]; plugin_class "Second" "b" []]
           start_state).
  - intros l x. apply elem_of_remove_dups.
  - reflexivity.
  - intros a b [_ ->]%example_requires.
    exists (plugin_class "Second" "b" []).
    split; [apply list_elem_of_further, list_elem_of_here|reflexivity].
  - apply example_acyclic.
Defined.

(** ** A dependency that no class provides *)

Lemma unregistered plugin_classes k :
  od_get k (plugin_class_dict plugin_classes) = None
  ↔ ∀ c, c ∈ plugin_classes → PluginClass.plugin_name c ≠ k.
Proof.
  pose proof (od_mem_elem_of k (plugin_class_dict plugin_classes)) as Hm.
  unfold plugin_class_dict at 2 in Hm.
  rewrite dict_comprehension_keys in Hm. unfold od_mem in Hm.
  destruct (od_get k (plugin_class_dict plugin_classes)).
  - split; [done|]. intros Hno.
    destruct Hm as [(c & Hc & Hname) _]; [done|]. by destruct (Hno c).
  - split; [|done]. intros _ c Hc Hname.
    destruct Hm as [_ Hm]. by discriminate Hm; eauto.
Qed.

(** X16: [startPlugins] with a dependency that no class provides: when the
    class registered under some name lists a dependency that is no
    class's [plugin_name()], and the classes do not require each other in
    a circle, the start-up ends in the [KeyError] of a name without a
    class, raised by [plugin_class_dict[plugin_name]]. *)
Theorem startPlugins_unknown_dependency set_iter plugin_classes st
    name dep :
  (∀ l x, x ∈ set_iter l ↔ x ∈ l) →
  plugins st = [] →
  (∀ a l, ¬ chain (requires plugin_classes) a l a) →
  requires plugin_classes name dep →
  (∀ c, c ∈ plugin_classes → PluginClass.plugin_name c ≠ dep) →
  ∃ k st',
    startPlugins set_iter plugin_classes st = (Raise (KeyError k), st') ∧
    ∀ c, c ∈ plugin_classes → PluginClass.plugin_name c ≠ k.
Proof.
  intros Hset Hempty Hacyclic (cls & Hcls & Hdep) Hnone%unregistered.
  assert (∀ l x, x ∈ set_iter l → x ∈ l) as Hset1 by (intros; by apply Hset).
  assert (∀ l x, x ∈ l → x ∈ set_iter l) as Hset2 by (intros; by apply Hset).
  pose proof (acyclic_has_cycle set_iter plugin_classes Hset1 Hacyclic)
    as Hacyc.
  set (graph := plugin_graph set_iter plugin_classes) in *.
  assert (∃ k st',
            startPlugins set_iter plugin_classes st
            = (Raise (KeyError k), st') ∧
            od_get k (plugin_class_dict plugin_classes) = None)
    as (k & st' & Hrun & Hk).
  2: { exists k, st'. split; [done|]. by apply unregistered. }
  unfold startPlugins, bind, lift. fold graph.
  destruct (graphlib.static_order graph) as [order|e] eqn:Horder.
  2: { unfold graphlib.static_order, graphlib.prepare in Horder.
       by rewrite Hacyc in Horder. }
  assert (od_get name graph
          = Some (set_iter (PluginClass.dependencies cls))) as Hg.
  { subst graph. unfold plugin_graph.
    rewrite dict_comprehension_get. fold (plugin_class_dict plugin_classes).
    by rewrite Hcls. }
  assert (od_get dep graph = None) as Hgn.
  { subst graph. unfold plugin_graph.
    rewrite dict_comprehension_get. fold (plugin_class_dict plugin_classes).
    by rewrite Hnone. }
  apply (start_each_unregistered _ _ _ dep); [| |  |done].
  - by eapply static_order_NoDup.
  - intros n _. by rewrite Hempty.
  - apply (static_order_first_round graph); [done| |].
    + apply (successors_key _ _ name).
      apply (init_edges graph name
               (set_iter (PluginClass.dependencies cls)));
        [by apply od_get_Some_elem_of|by apply Hset2].
    + apply init_npredecessors_other. intros Hin%od_mem_elem_of.
      unfold od_mem in Hin. by rewrite Hgn in Hin.
Qed.

Lemma example_unknown_requires a b :
  requires [plugin_class "First" "a" ["b"]] a b → a = "a" ∧ b = "b".
Proof.
  intros (cls & Hcls & Hdep).
  change (plugin_class_dict _)
    with [("a", plugin_class "First" "a" ["b"])] in Hcls.
  cbn [od_get] in Hcls.
  destruct (bool_decide ("a" = a)) eqn:Ha; [|done].
  apply bool_decide_eq_true_1 in Ha as <-. injection Hcls as <-.
  by apply list_elem_of_singleton in Hdep.
Qed.

Lemma example_unknown_acyclic a l :
  ¬ chain (requires [plugin_class "First" "a" ["b"]]) a l a.
Proof.
  destruct l as [|z l]; cbn.
  - by intros [-> ?]%example_unknown_requires.
  - intros [[-> ->]%example_unknown_requires Hc].
    destruct l as [|z l]; cbn in Hc.
    + by apply example_unknown_requires in Hc as [? _].
    + destruct Hc as [[? _]%example_unknown_requires _]. done.
Qed.

Lemma startPlugins_unknown_dependency_witness :
  ∃ k st',
    startPlugins remove_dups [plugin_class "First" "a" ["b"]] start_state
    = (Raise (KeyError k), st') ∧
    ∀ c, c ∈ [plugin_class "First" "a" ["b"]] →
         PluginClass.plugin_name c ≠ k.
Proof.
  apply (startPlugins_unknown_dependency remove_dups
           [plugin_class "First" "a" ["b"]] start_state "a" "b").
  - intros l x. apply elem_of_remove_dups.
  - reflexivity.
  - apply example_unknown_acyclic.
  - exists (plugin_class "First" "a" ["b"]).
    split; [reflexivity|apply list_elem_of_here].
  - intros c ->%list_elem_of_singleton. done.
Defined.

(** ** The course plugin: what the commands leave behind *)

Lemma bind_Ok {S A B} (m : M S A) (f : A → M S B) s b s' :
  bind m f s = (Ok b, s') →
  ∃ a s1, m s = (Ok a, s1) ∧ f a s1 = (Ok b, s').
Proof.
  unfold bind. destruct (m s) as [[a|e] s1]; [by eauto|done].
Qed.

Lemma bind_Raise {S A B} (m : M S A) (f : A → M S B) s e s' :
  bind m f s = (Raise e, s') →
  m s = (Raise e, s') ∨ ∃ a s1, m s = (Ok a, s1) ∧ f a s1 = (Raise e, s').
Proof.
  unfold bind. destruct (m s) as [[a|e0] s1]; [by eauto|].
  intros [= -> ->]. by left.
Qed.

Lemma never_returns_raise {S A} e : never_returns (raise e : M S A).
Proof. intros s. by exists e, s. Qed.

Lemma never_returns_bind_l {S A B} (m : M S A) (f : A → M S B) :
  never_returns m → never_returns (bind m f).
Proof.
  intros Hm s. destruct (Hm s) as (e & s' & Hs).
  exists e, s'. unfold bind. by rewrite Hs.
Qed.

Lemma never_returns_bind_r {S A B} (m : M S A) (f : A → M S B) :
  (∀ a, never_returns (f a)) → never_returns (bind m f).
Proof.
  intros Hf s. unfold bind. destruct (m s) as [[a|e] s1]; [|by eauto].
  apply Hf.
Qed.

Lemma never_returns_try_except {S A} (m : M S A) (h : exn → M S A) :
  never_returns m → (∀ e, never_returns (h e)) →
  never_returns (try_except m h).
Proof.
  intros Hm Hh s. unfold try_except.
  destruct (Hm s) as (e & s' & ->). apply Hh.
Qed.

Section course_extras.
Context {ZulipStream Chat : Type}.
Context (Streamgroup__create_and_get_group :
           pystr → pystr → M (World ZulipStream Chat) StreamGroup).
Context (Streamgroup__add_zulip_streams :
           list ZulipStream → StreamGroup →
           M (World ZulipStream Chat) unit).
Context (Usergroup_create_and_get_group :
           pystr → M (World ZulipStream Chat) UserGroup).
Context (Usergroup_get_user_ids_for_group :
           UserGroup → M (World ZulipStream Chat) (list Z)).
Context (Streams_create : pystr → pystr → M (World ZulipStream Chat) unit).
Context (ZulipStream_await :
           pystr → M (World ZulipStream Chat) ZulipStream).
Context (stream_name : ZulipStream → pystr).
Context (subscribe_users :
           list Z → pystr → M (World ZulipStream Chat) unit).

Lemma add_standard_streams_never_returns add_zulip_streams name sg :
  never_returns
    (add_standard_streams add_zulip_streams Streams_create
       ZulipStream_await name sg).
Proof.
  unfold add_standard_streams.
  do 5 (apply never_returns_bind_r; intros ?).
  apply never_returns_bind_l, never_returns_raise.
Qed.

Ltac in_list :=
  repeat first [apply list_elem_of_here | apply list_elem_of_further].

(** X17: [add_standard_streams] never completes, and stops short of
    the last stream. It creates the streams [-Allgemein], [-Organisation],
    [-Feedback], [-Ankündigungen] and [-Technik] and resolves the
    first four; then it awaits the name of the fifth, a [str], which
    raises. So it ends in an exception in every state, [TypeError] if the
    calls before succeed; and what it does is the same whatever would
    happen on the creation of any other stream, on the resolution of any
    other name, and in [_add_zulip_streams]: the stream [-Memes] is not
    created, and the stream group is given no stream. *)
Theorem add_standard_streams_raises add_zulip_streams' Streams_create'
    ZulipStream_await' name sg w :
  (∀ suffix description s,
     suffix ∈ [str "-Allgemein"; str "-Organisation"; str "-Feedback";
               str "-Ank" ++ u_umlaut ++ str "ndigungen"; str "-Technik"] →
     Streams_create' (name ++ suffix) description s
     = Streams_create (name ++ suffix) description s) →
  (∀ suffix s,
     suffix ∈ [str "-Allgemein"; str "-Organisation"; str "-Feedback";
               str "-Ank" ++ u_umlaut ++ str "ndigungen"] →
     ZulipStream_await' (str "#**" ++ name ++ suffix ++ str "**") s
     = ZulipStream_await (str "#**" ++ name ++ suffix ++ str "**") s) →
  (∃ e w',
     add_standard_streams Streamgroup__add_zulip_streams Streams_create
       ZulipStream_await name sg w = (Raise e, w')) ∧
  add_standard_streams add_zulip_streams' Streams_create'
    ZulipStream_await' name sg w
  = add_standard_streams Streamgroup__add_zulip_streams Streams_create
      ZulipStream_await name sg w ∧
  ((∀ n description s, ∃ s', Streams_create n description s = (Ok tt, s')) →
   (∀ text s, ∃ stream s', ZulipStream_await text s = (Ok stream, s')) →
   ∃ w',
     add_standard_streams Streamgroup__add_zulip_streams Streams_create
       ZulipStream_await name sg w = (Raise TypeError, w')).
Proof.
  intros Hcreate Hawait.
  split; [apply add_standard_streams_never_returns|]. split.
  - unfold add_standard_streams, standard_stream.
    assert (∀ suffix description s (k k' : unit → M _ unit),
              suffix ∈ [str "-Allgemein"; str "-Organisation";
                        str "-Feedback";
                        str "-Ank" ++ u_umlaut ++ str "ndigungen";
                        str "-Technik"] →
              (∀ u s', k' u s' = k u s') →
              bind (Streams_create' (name ++ suffix) description) k' s
              = bind (Streams_create (name ++ suffix) description) k s)
      as Hc.
    { intros suffix description s k k' Hin Hk. unfold bind.
      rewrite (Hcreate suffix description s Hin).
      by destruct (Streams_create _ _ s) as [[[]|e] s']. }
    assert (∀ suffix s (k k' : ZulipStream → M _ unit),
              suffix ∈ [str "-Allgemein"; str "-Organisation";
                        str "-Feedback";
                        str "-Ank" ++ u_umlaut ++ str "ndigungen"] →
              (∀ x s', k' x s' = k x s') →
              bind (ZulipStream_await'
                      (str "#**" ++ name ++ suffix ++ str "**")) k' s
              = bind (ZulipStream_await
                        (str "#**" ++ name ++ suffix ++ str "**")) k s)
      as Ha.
    { intros suffix s k k' Hin Hk. unfold bind.
      rewrite (Hawait suffix s Hin).
      by destruct (ZulipStream_await _ s) as [[x|e] s']. }
    assert (∀ {A B C} (m : M (World ZulipStream Chat) A) (f : A → M _ B)
              (g : B → M _ C) s,
              bind (bind m f) g s = bind m (λ a, bind (f a) g) s) as Hassoc.
    { intros A B C m f g s. unfold bind. by destruct (m s) as [[a|e] s']. }
    rewrite !Hassoc.
    apply Hc; [in_list|]. intros _ s1. apply Ha; [in_list|].
    intros allg s2. rewrite !Hassoc.
    apply Hc; [in_list|]. intros _ s3. apply Ha; [in_list|].
    intros org s4. rewrite !Hassoc.
    apply Hc; [in_list|]. intros _ s5. apply Ha; [in_list|].
    intros fb s6. rewrite !Hassoc.
    apply Hc; [in_list|]. intros _ s7. apply Ha; [in_list|].
    intros ank s8.
    apply Hc; [in_list|]. intros _ s9. done.
  - intros Hc Ha. unfold add_standard_streams, standard_stream, bind, raise.
    repeat match goal with
           | |- context [Streams_create ?n ?d ?s] =>
               destruct (Hc n d s) as [? ->]
           | |- context [ZulipStream_await ?t ?s] =>
               destruct (Ha t s) as (? & ? & ->)
           end.
    by eexists.
Qed.

Lemma never_returns_create_failed {A}
    (m : M (World ZulipStream Chat) A) name :
  never_returns m →
  never_returns
    (except_DMError_IntegrityError m
       (let* _ := rollback in raise (went_wrong name))).
Proof.
  intros Hm. apply never_returns_try_except; [done|].
  intros e. destruct e; try apply never_returns_raise;
    apply never_returns_bind_r; intros _; apply never_returns_raise.
Qed.

(** X18: the option for the standard streams makes the creation of a
    course fail: [create_empty] with [-s] and [create] with a stream
    group given by [-s] end in an exception in every state and with every
    other argument, and never answer that the course was created. *)
Theorem create_with_standard_streams_fails (name emoji : pystr)
    (opts_i : bool) (group : StreamGroup) (opts_t : option UserGroup)
    (opts_tuts opts_ins : option ZulipStream)
    (w : World ZulipStream Chat) :
  (∃ e w',
     create_empty Streamgroup__create_and_get_group
       Streamgroup__add_zulip_streams Usergroup_create_and_get_group
       Streams_create ZulipStream_await name emoji opts_i true w
     = (Raise e, w')) ∧
  (∃ e w',
     create Streamgroup__create_and_get_group
       Streamgroup__add_zulip_streams Usergroup_create_and_get_group
       Usergroup_get_user_ids_for_group Streams_create ZulipStream_await
       stream_name subscribe_users name emoji (Some group) opts_t
       opts_tuts opts_ins w
     = (Raise e, w')).
Proof.
  split.
  - revert w. change (never_returns
      (create_empty Streamgroup__create_and_get_group
         Streamgroup__add_zulip_streams Usergroup_create_and_get_group
         Streams_create ZulipStream_await name emoji opts_i true)).
    unfold create_empty.
    apply never_returns_bind_r. intros db.
    case_bool_decide; [apply never_returns_raise|].
    apply never_returns_bind_r. intros db'.
    case_bool_decide; [apply never_returns_raise|].
    apply never_returns_bind_l, never_returns_create_failed.
    apply never_returns_bind_r. intros streams.
    apply never_returns_bind_l, add_standard_streams_never_returns.
  - revert w. change (never_returns
      (create Streamgroup__create_and_get_group
         Streamgroup__add_zulip_streams Usergroup_create_and_get_group
         Usergroup_get_user_ids_for_group Streams_create ZulipStream_await
         stream_name subscribe_users name emoji (Some group) opts_t
         opts_tuts opts_ins)).
    unfold create.
    apply never_returns_bind_r. intros db.
    case_bool_decide; [apply never_returns_raise|].
    apply never_returns_bind_r. intros db'.
    case_bool_decide; [apply never_returns_raise|].
    apply never_returns_bind_l, never_returns_create_failed.
    apply never_returns_bind_r. intros streams.
    apply never_returns_bind_l, add_standard_streams_never_returns.
Qed.

(** X20: how [create_empty] fails: it never lets an [IntegrityError]
    escape, and a [DMError] it raises is the rejection of the name or of
    the emoji, with nothing changed, or the message that something went
    wrong, after a rollback that leaves nothing uncommitted. *)
Theorem create_empty_failure (name emoji : pystr) (opts_i opts_s : bool)
    (w w' : World ZulipStream Chat) e :
  create_empty Streamgroup__create_and_get_group
    Streamgroup__add_zulip_streams Usergroup_create_and_get_group
    Streams_create ZulipStream_await name emoji opts_i opts_s w
  = (Raise e, w') →
  e ≠ IntegrityError ∧
  ∀ msg, e = DMError msg →
    (msg = str "Course `" ++ name ++ str "` already exists" ∧ w' = w) ∨
    (msg = str "Course with :" ++ emoji ++ str ": already exists"
     ∧ w' = w) ∨
    (e = went_wrong name ∧
     current (session w') = committed (session w')).
Proof.
  unfold create_empty.
  intros [[=]|(db & w0 & [= <- <-] & Hrun)]%bind_Raise.
  case_bool_decide.
  { injection Hrun as <- <-. split; [done|]. intros msg [= <-]. by left. }
  apply bind_Raise in Hrun as [[=]|(db' & w0 & [= <- <-] & Hrun)].
  case_bool_decide.
  { injection Hrun as <- <-. split; [done|]. intros msg [= <-].
    right. by left. }
  apply bind_Raise in Hrun as [Hbody|([] & w1 & _ & [=])].
  unfold except_DMError_IntegrityError, try_except in Hbody.
  match type of Hbody with
  | match ?m w with _ => _ end = _ =>
      destruct (m w) as [[[]|e0] w2] eqn:Hm
  end; [done|].
  destruct e0; unfold bind, rollback, raise in Hbody;
    injection Hbody as <- <-; (split; [done|]);
    intros m Heq; try discriminate Heq; right; by right.
Qed.

End course_extras.

Lemma create_empty_failure_witness :
  went_wrong (str "Algebra") ≠ IntegrityError ∧
  ∀ msg, went_wrong (str "Algebra") = DMError msg →
    (msg = str "Course `" ++ str "Algebra" ++ str "` already exists"
     ∧ example_world = example_world) ∨
    (msg = str "Course with :" ++ str "owl" ++ str ": already exists"
     ∧ example_world = example_world) ∨
    (went_wrong (str "Algebra") = went_wrong (str "Algebra") ∧
     current (session example_world) = committed (session example_world)).
Proof.
  apply (create_empty_failure
           (λ _ _, raise (DMError (str "no such emoji")))
           (λ _ _, ret tt) example_create_usergroup (λ _ _, ret tt)
           (λ text, ret text) (str "Algebra") (str "owl") false false
           example_world example_world (went_wrong (str "Algebra"))).
  reflexivity.
Defined.

Lemma add_standard_streams_raises_witness :
  ∃ w',
    add_standard_streams (λ _ _, ret tt) (λ _ _, ret tt)
      (λ text, ret text) (str "Logic") (stream_group "sg1" "books" 1)
      example_world
    = (Raise TypeError, w').
Proof.
  apply (proj2 (proj2 (add_standard_streams_raises
                         (λ _ _, ret tt) (λ _ _, ret tt) (λ text, ret text)
                         (λ _ _, raise AttributeError)
                         (λ n _, if bool_decide (n = str "Logic-Memes")
                                 then raise AttributeError else ret tt)
                         (λ text, ret text) (str "Logic")
                         (stream_group "sg1" "books" 1) example_world
                         ltac:(intros suffix description s Hin;
                               repeat (apply elem_of_cons in Hin
                                         as [->|Hin]; [reflexivity|]);
                               by apply elem_of_nil in Hin)
                         ltac:(reflexivity)))).
  - intros n description s. by exists s.
  - intros text s. by exists text, s.
Defined.

(** ** The responses of [lib.py] *)

(** X23: what [Response.build_message] builds: the payload is a message
    whose content is the response; it is private exactly if the type
    given, or without one the type of the message answered, is
    [private]; it goes to the recipient given, or without one to the
    sender of a private message and to the stream of any other; and it
    has a subject, the one given or that of the message answered, exactly
    if it is not private. *)
Theorem build_message_payload message response msg_type to subject t d :
  Response.build_message message response msg_type to subject = Ok (t, d) →
  t = MessageType.MESSAGE ∧
  d !! "content" = Some response ∧
  ∃ ty private,
    (if is_None msg_type then message !! "type" = Some ty
     else ty = msg_type) ∧
    private = eq_str ty (str "private") ∧
    d !! "type"
    = Some (VStr (str (if private then "private" else "stream"))) ∧
    d !! "to"
    = (if is_None to then
         message !! (if private then "sender_email" else "stream_id")
       else Some to) ∧
    d !! "subject"
    = (if private then None
       else if is_None subject then message !! "subject"
            else Some subject).
Proof.
  unfold Response.build_message, dict_getitem, getitem.
  destruct (is_None msg_type) eqn:Hmt.
  - destruct (message !! "type") as [ty|] eqn:Hty; [|done].
    destruct (eq_str ty (str "private")) eqn:Hp; cbn [negb].
    + destruct (is_None to) eqn:Hto.
      * destruct (message !! "sender_email") as [em|] eqn:Hem; [|done].
        destruct (is_None subject); intros [= <- <-];
          (split; [done|]; split; [done|]);
          exists ty, true; by rewrite Hp.
      * destruct (is_None subject); intros [= <- <-];
          (split; [done|]; split; [done|]);
          exists ty, true; by rewrite Hp.
    + destruct (is_None to) eqn:Hto.
      * destruct (message !! "stream_id") as [sid|] eqn:Hsid; [|done].
        destruct (is_None subject).
        -- destruct (message !! "subject") as [sub|] eqn:Hsub; [|done].
           intros [= <- <-]. split; [done|]. split; [done|].
           exists ty, false. by rewrite Hp.
        -- intros [= <- <-]. split; [done|]. split; [done|].
           exists ty, false. by rewrite Hp.
      * destruct (is_None subject).
        -- destruct (message !! "subject") as [sub|] eqn:Hsub; [|done].
           intros [= <- <-]. split; [done|]. split; [done|].
           exists ty, false. by rewrite Hp.
        -- intros [= <- <-]. split; [done|]. split; [done|].
           exists ty, false. by rewrite Hp.
  - destruct (eq_str msg_type (str "private")) eqn:Hp; cbn [negb].
    + destruct (is_None to) eqn:Hto.
      * destruct (message !! "sender_email") as [em|] eqn:Hem; [|done].
        destruct (is_None subject); intros [= <- <-];
          (split; [done|]; split; [done|]);
          exists msg_type, true; by rewrite Hp.
      * destruct (is_None subject); intros [= <- <-];
          (split; [done|]; split; [done|]);
          exists msg_type, true; by rewrite Hp.
    + destruct (is_None to) eqn:Hto.
      * destruct (message !! "stream_id") as [sid|] eqn:Hsid; [|done].
        destruct (is_None subject).
        -- destruct (message !! "subject") as [sub|] eqn:Hsub; [|done].
           intros [= <- <-]. split; [done|]. split; [done|].
           exists msg_type, false. by rewrite Hp.
        -- intros [= <- <-]. split; [done|]. split; [done|].
           exists msg_type, false. by rewrite Hp.
      * destruct (is_None subject).
        -- destruct (message !! "subject") as [sub|] eqn:Hsub; [|done].
           intros [= <- <-]. split; [done|]. split; [done|].
           exists msg_type, false. by rewrite Hp.
        -- intros [= <- <-]. split; [done|]. split; [done|].
           exists msg_type, false. by rewrite Hp.
Qed.

Lemma build_message_payload_witness :
  MessageType.MESSAGE = MessageType.MESSAGE ∧
  (new_stream_message (VInt 5) (VStr (str "exam")) (VStr (str "hello"))).2
    !! "content" = Some (VStr (str "hello")) ∧
  ∃ ty private,
    (if is_None VNone
     then ({[ "type" := VStr (str "stream"); "stream_id" := VInt 5;
              "subject" := VStr (str "exam") ]} : dict) !! "type" = Some ty
     else ty = VNone) ∧
    private = eq_str ty (str "private") ∧
    (new_stream_message (VInt 5) (VStr (str "exam")) (VStr (str "hello"))).2
      !! "type"
    = Some (VStr (str (if private then "private" else "stream"))) ∧
    (new_stream_message (VInt 5) (VStr (str "exam")) (VStr (str "hello"))).2
      !! "to"
    = (if is_None VNone then
         ({[ "type" := VStr (str "stream"); "stream_id" := VInt 5;
             "subject" := VStr (str "exam") ]} : dict)
           !! (if private then "sender_email" else "stream_id")
       else Some VNone) ∧
    (new_stream_message (VInt 5) (VStr (str "exam")) (VStr (str "hello"))).2
      !! "subject"
    = (if private then None
       else if is_None VNone
            then ({[ "type" := VStr (str "stream"); "stream_id" := VInt 5;
                     "subject" := VStr (str "exam") ]} : dict) !! "subject"
            else Some VNone).
Proof.
  apply (build_message_payload
           {[ "type" := VStr (str "stream"); "stream_id" := VInt 5;
              "subject" := VStr (str "exam") ]}
           (VStr (str "hello")) VNone VNone VNone).
  reflexivity.
Defined.

(** X24: how [Response.build_message] fails: only with the [KeyError] of a
    field that the message answered lacks, and only of a field it needs
    because an argument was left out: [type] for the type,
    [sender_email] or [stream_id] for the recipient, [subject] for the
    subject of a message that is not private. *)
Theorem build_message_exceptions message response msg_type to subject e :
  Response.build_message message response msg_type to subject = Raise e →
  ∃ k, e = KeyError k ∧ message !! k = None ∧
       ((k = "type" ∧ is_None msg_type = true) ∨
        ((k = "sender_email" ∨ k = "stream_id") ∧ is_None to = true) ∨
        (k = "subject" ∧ is_None subject = true)).
Proof.
  unfold Response.build_message, dict_getitem, getitem.
  destruct (is_None msg_type) eqn:Hmt.
  - destruct (message !! "type") as [ty|] eqn:Hty.
    2: { intros [= <-]. exists "type". by auto. }
    destruct (eq_str ty (str "private")); cbn [negb].
    + destruct (is_None to) eqn:Hto.
      * destruct (message !! "sender_email") eqn:Hem.
        -- by destruct (is_None subject).
        -- intros [= <-]. exists "sender_email". by auto 10.
      * by destruct (is_None subject).
    + destruct (is_None to) eqn:Hto.
      * destruct (message !! "stream_id") eqn:Hsid.
        -- destruct (is_None subject) eqn:Hs; [|done].
           destruct (message !! "subject") eqn:Hsub; [done|].
           intros [= <-]. exists "subject". by auto 10.
        -- intros [= <-]. exists "stream_id". by auto 10.
      * destruct (is_None subject) eqn:Hs; [|done].
        destruct (message !! "subject") eqn:Hsub; [done|].
        intros [= <-]. exists "subject". by auto 10.
  - destruct (eq_str msg_type (str "private")); cbn [negb].
    + destruct (is_None to) eqn:Hto.
      * destruct (message !! "sender_email") eqn:Hem.
        -- by destruct (is_None subject).
        -- intros [= <-]. exists "sender_email". by auto 10.
      * by destruct (is_None subject).
    + destruct (is_None to) eqn:Hto.
      * destruct (message !! "stream_id") eqn:Hsid.
        -- destruct (is_None subject) eqn:Hs; [|done].
           destruct (message !! "subject") eqn:Hsub; [done|].
           intros [= <-]. exists "subject". by auto 10.
        -- intros [= <-]. exists "stream_id". by auto 10.
      * destruct (is_None subject) eqn:Hs; [|done].
        destruct (message !! "subject") eqn:Hsub; [done|].
        intros [= <-]. exists "subject". by auto 10.
Qed.

Lemma build_message_exceptions_witness :
  ∃ k, KeyError "subject" = KeyError k ∧
       ({[ "type" := VStr (str "stream"); "stream_id" := VInt 5 ]} : dict)
         !! k = None ∧
       ((k = "type" ∧ is_None VNone = true) ∨
        ((k = "sender_email" ∨ k = "stream_id") ∧ is_None VNone = true) ∨
        (k = "subject" ∧ is_None VNone = true)).
Proof.
  apply (build_message_exceptions
           {[ "type" := VStr (str "stream"); "stream_id" := VInt 5 ]}
           (VStr (str "hello")) VNone VNone VNone).
  reflexivity.
Defined.

(** ** The end of [run] *)

Lemma run_loop_stopped c ps queue st st' :
  run_loop c ps queue st = (Ok Break, st') → stopped st' = true.
Proof.
  revert st. induction queue as [|[event dn] queue IH]; intros st; [done|].
  cbn [run_loop]. unfold bind at 1.
  destruct (iteration c ps event dn st) as [[[]|e] st1] eqn:Hit; [| |done].
  - apply IH.
  - intros [= <-].
    destruct (stopped st
              || EventType.eqb (Event.type event) EventType._EMPTY)
      eqn:Hstop.
    + rewrite iteration_stop_state in Hit by done. by injection Hit as <-.
    + exfalso. revert Hit. unfold iteration. run_loop_monad.
      rewrite Hstop.
      destruct (EventType.eqb (Event.type event) EventType.ZULIP); [|done].
      destruct (getitem (Event.data event) "type") as [ty|]; [|done].
      run_loop_monad.
      destruct (eq_str ty (str "heartbeat")); [done|].
      unfold try_except. run_loop_monad.
      destruct (preprocess_data c (Event.data event) _) as [[d|e] lg];
        run_loop_monad; [|done].
      match goal with
      | |- context [fan_out ?p ?e ?s] =>
          destruct (fan_out p e s) as [[[]|e'] s'] eqn:Hf
      end; done.
Qed.

Lemma stop_each_raises names (st : RunAll) :
  names ≠ [] → stop_each names st = (Raise AttributeError, st).
Proof. by destruct names. Qed.

Lemma debug_before_loop_state m st :
  loop_state (snd (debug_before m st)) = loop_state st ∧
  epilogue (snd (debug_before m st)) = epilogue st.
Proof. unfold debug_before. cbn [snd]. by case_bool_decide. Qed.

(** [run], from the outcome of its loop. *)
Lemma run_from_loop c ps events queue st :
  ∃ st0, loop_state st0 = loop_state st ∧ epilogue st0 = epilogue st ∧
    run c ps events queue st
    = match run_loop c ps queue (loop_state st) with
      | (Ok Continue, st1) =>
          (Ok Waiting,
           {| prologue := prologue st0; loop_state := st1;
              epilogue := epilogue st0 |})
      | (Ok Break, st1) =>
          (match ps with [] => Ok Returned | _ => Raise AttributeError end,
           {| prologue := prologue st0; loop_state := st1;
              epilogue :=
                epilogue st0 ++
                (if bool_decide (logging.level (log st1) ≤ logging.DEBUG)
                 then [stopping_plugins] else []) |})
      | (Raise e, st1) =>
          (Raise e,
           {| prologue := prologue st0; loop_state := st1;
              epilogue := epilogue st0 |})
      end.
Proof.
  exists (snd (debug_before start_central_queue
                 (snd (debug_before (start_event_listener events) st)))).
  destruct (debug_before_loop_state (start_event_listener events) st)
    as [Hl1 He1].
  destruct (debug_before_loop_state start_central_queue
              (snd (debug_before (start_event_listener events) st)))
    as [Hl2 He2].
  split; [by rewrite Hl2|]. split; [by rewrite He2|].
  unfold run. unfold bind at 1.
  destruct (debug_before (start_event_listener events) st) as [[[]|?] sa]
    eqn:Ha; [|done].
  cbn [snd] in *. unfold bind at 1.
  destruct (debug_before start_central_queue sa) as [[[]|?] sb] eqn:Hb;
    [|done].
  cbn [snd] in *. unfold bind at 1, with_loop. rewrite Hl2, Hl1.
  destruct (run_loop c ps queue (loop_state st)) as [[[]|e] st1];
    [done| |done].
  unfold bind, debug_after, ret. cbn [loop_state log].
  case_bool_decide; cbn [prologue loop_state epilogue];
    rewrite ?app_nil_r; by destruct ps as [|[] ?], sb.
Qed.

(** X25: [run] cannot end well once a plugin is registered: when the
    loop is left, [run] logs that it stops the plugins and calls
    [self.stopPlugin], which the class does not define. So with a
    registered plugin [run] never returns normally, and the sentinel
    that ends the loop makes it raise [AttributeError], with [stopped]
    set. *)
Theorem run_ends_in_AttributeError c ps events queue st :
  ps ≠ [] →
  (∀ r st', run c ps events queue st = (r, st') → r ≠ Ok Returned) ∧
  (∀ st1,
     run_loop c ps queue (loop_state st) = (Ok Break, st1) →
     ∃ st', run c ps events queue st = (Raise AttributeError, st') ∧
            loop_state st' = st1 ∧ stopped st1 = true ∧
            epilogue st'
            = epilogue st ++
              (if bool_decide (logging.level (log st1) ≤ logging.DEBUG)
               then [stopping_plugins] else [])).
Proof.
  intros Hps.
  destruct (run_from_loop c ps events queue st) as (st0 & Hl & He & ->).
  split.
  - intros r st'.
    destruct (run_loop c ps queue (loop_state st)) as [[[]|e] st1];
      intros [= <- _]; [done| |done].
    by destruct ps.
  - intros st1 Hloop. rewrite Hloop.
    eexists. split; [by destruct ps|].
    cbn [loop_state epilogue]. rewrite He.
    split; [done|]. split; [|done]. by eapply run_loop_stopped.
Qed.

Lemma run_ends_in_AttributeError_witness :
  ∃ st',
    run bot [("echo", PluginClass.new (plugin_class "Echo" "echo" []))] []
      [({| Event.sender := "restart"; Event.type := EventType._EMPTY;
           Event.data := VNone |}, λ _, false)]
      {| prologue := []; loop_state := initial_state logging.DEBUG;
         epilogue := [] |}
    = (Raise AttributeError, st') ∧
    loop_state st'
    = {| stopped := true; restart := true; tasks := []; created := [];
         log := log (entered (λ _, false) (initial_state logging.DEBUG)) |} ∧
    stopped
      {| stopped := true; restart := true; tasks := []; created := [];
         log := log (entered (λ _, false) (initial_state logging.DEBUG)) |}
    = true ∧
    epilogue st'
    = [] ++
      (if bool_decide
            (logging.level
               (log {| stopped := true; restart := true; tasks := [];
                       created := [];
                       log := log (entered (λ _, false)
                                     (initial_state logging.DEBUG)) |})
             ≤ logging.DEBUG)
       then [stopping_plugins] else []).
Proof.
  apply (proj2 (run_ends_in_AttributeError bot
                  [("echo", PluginClass.new (plugin_class "Echo" "echo" []))]
                  []
                  [({| Event.sender := "restart";
                       Event.type := EventType._EMPTY;
                       Event.data := VNone |}, λ _, false)]
                  {| prologue := []; loop_state := initial_state logging.DEBUG;
                     epilogue := [] |}
                  ltac:(done))).
  reflexivity.
Defined.
